(** * The stateful pub/sub wire protocol: message codecs

    A shallow embedding of the broadcaster-to-subscriber message parsers and
    serializers (CONFIRM_SUBSCRIBE_*, CONFIRM_UNSUBSCRIBE_*, CONFIRM_NOTIFY,
    CONTINUE_NOTIFY) together with the helpers they call.

    Conventions:
    - [bytes] is [list byte]; an unsigned Python [int] is an [N], a signed
      counter is a [Z]; a Python [str] is the list of its code points;
    - a function that may raise returns a [result], the exception being the
      [Err] payload;
    - the readable byte stream handed to a parser is the list of bytes that
      are still unread; a read returns the bytes read and the rest. *)

From Stdlib Require Import NArith ZArith List Lia Bool.
From Stdlib Require Import Strings.Byte Strings.String Strings.Ascii.
Import ListNotations.

Local Open Scope N_scope.

(** ** Exceptions and the error monad *)

Inductive error : Type :=
| MalformedHeader            (* header codec: size ceiling or truncated section *)
| ValueError (msg : string)  (* raised by the message parsers *)
| UnicodeDecodeError         (* bytes.decode("utf-8") *)
| UnicodeEncodeError         (* str.encode("utf-8") *)
| KeyError (name : list byte)(* headers[name] on an absent name *)
| AssertionError             (* assert type == ... *)
| UnknownMessageType.        (* dispatcher: no parser claims the code *)

Inductive result (A : Type) : Type :=
| Ok (a : A)
| Err (e : error).
Arguments Ok {A} a.
Arguments Err {A} e.

Definition bind {A B} (r : result A) (k : A -> result B) : result B :=
  match r with
  | Ok a => k a
  | Err e => Err e
  end.

Notation "x <- r ;; k" := (bind r (fun x => k))
  (at level 61, r at next level, right associativity).
Notation "' p <- r ;; k" := (bind r (fun p => k))
  (at level 61, p pattern, r at next level, right associativity).

Definition is_ok {A} (r : result A) : bool :=
  match r with Ok _ => true | Err _ => false end.

(** ** Bytes *)

Definition bytes := list byte.

Definition byte_of_N (n : N) : byte :=
  match Byte.of_N (n mod 256) with
  | Some b => b
  | None => x00
  end.

Definition len (bs : bytes) : N := N.of_nat (List.length bs).

(** [int.from_bytes(bs, "big")] *)
Definition from_bytes_big (bs : bytes) : N :=
  fold_left (fun acc b => acc * 256 + Byte.to_N b) bs 0.

(** [n.to_bytes(length, "big")], keeping the low [length] bytes *)
Fixpoint to_bytes_big (size : nat) (n : N) : bytes :=
  match size with
  | O => []
  | S k => to_bytes_big k (n / 256) ++ [byte_of_N (n mod 256)]
  end.

(** [n.bit_length()] *)
Definition bit_length (n : N) : N := N.size n.

(** Modelled from the spec: [int_to_minimal_unsigned] of
    [serializer_helpers], which is not among the sources.  The spec (4.2)
    has it produce the fewest big-endian bytes representing [n], with
    [0] encoded as one zero byte and never as the empty byte-string: the
    bit length rounded up to whole bytes, and one byte at least. *)
Definition minimal_size (n : N) : nat :=
  Nat.max 1 (N.to_nat ((bit_length n + 7) / 8)).

Definition int_to_minimal_unsigned (n : N) : bytes :=
  to_bytes_big (minimal_size n) n.

(** ** Python dictionaries with [bytes] keys

    The header mapping is built by successive assignments
    [headers[name] = value]; the newest binding of a key is the one read. *)

Definition dict := list (bytes * bytes).

Definition bytes_eqb (a b : bytes) : bool :=
  if list_eq_dec Byte.byte_eq_dec a b then true else false.

Definition dict_set (d : dict) (k v : bytes) : dict := (k, v) :: d.

Fixpoint dict_get (d : dict) (k : bytes) : result bytes :=
  match d with
  | [] => Err (KeyError k)
  | (k', v) :: d' => if bytes_eqb k' k then Ok v else dict_get d' k
  end.

(** A [str] literal used as a header name, as its ASCII bytes. *)
Definition lit (s : string) : bytes := list_byte_of_string s.

(** ** UTF-8 ([str.encode("utf-8")] and [bytes.decode("utf-8")])

    A [str] is the list of its code points.  Encoding raises on a lone
    surrogate; decoding is strict: it rejects stray and missing
    continuation bytes, overlong forms, surrogates and code points above
    U+10FFFF. *)

Definition str := list N.

Definition is_surrogate (cp : N) : bool := (0xD800 <=? cp) && (cp <=? 0xDFFF).

Definition is_scalar_value (cp : N) : bool :=
  (cp <? 0x110000) && negb (is_surrogate cp).

Definition encode_code_point (cp : N) : result bytes :=
  if cp <? 0x80 then Ok [byte_of_N cp]
  else if cp <? 0x800 then
    Ok [byte_of_N (0xC0 + cp / 64); byte_of_N (0x80 + cp mod 64)]
  else if cp <? 0x10000 then
    if is_surrogate cp then Err UnicodeEncodeError
    else Ok [byte_of_N (0xE0 + cp / 4096);
             byte_of_N (0x80 + (cp / 64) mod 64);
             byte_of_N (0x80 + cp mod 64)]
  else if cp <? 0x110000 then
    Ok [byte_of_N (0xF0 + cp / 262144);
        byte_of_N (0x80 + (cp / 4096) mod 64);
        byte_of_N (0x80 + (cp / 64) mod 64);
        byte_of_N (0x80 + cp mod 64)]
  else Err UnicodeEncodeError.

Fixpoint encode_utf8 (s : str) : result bytes :=
  match s with
  | [] => Ok []
  | cp :: s' =>
      h <- encode_code_point cp ;;
      t <- encode_utf8 s' ;;
      Ok (h ++ t)
  end.

Definition is_continuation (n : N) : bool := (0x80 <=? n) && (n <=? 0xBF).

Definition prepend (cp : N) (r : result str) : result str :=
  s <- r ;; Ok (cp :: s).

Fixpoint decode_utf8 (bs : bytes) : result str :=
  match bs with
  | [] => Ok []
  | b0 :: t0 =>
    let n0 := Byte.to_N b0 in
    if n0 <? 0x80 then prepend n0 (decode_utf8 t0)
    else if n0 <? 0xC2 then Err UnicodeDecodeError
    else if n0 <? 0xE0 then
      match t0 with
      | b1 :: t1 =>
        let n1 := Byte.to_N b1 in
        if is_continuation n1
        then prepend ((n0 - 0xC0) * 64 + (n1 - 0x80)) (decode_utf8 t1)
        else Err UnicodeDecodeError
      | _ => Err UnicodeDecodeError
      end
    else if n0 <? 0xF0 then
      match t0 with
      | b1 :: b2 :: t2 =>
        let n1 := Byte.to_N b1 in
        let n2 := Byte.to_N b2 in
        let cp := (n0 - 0xE0) * 4096 + (n1 - 0x80) * 64 + (n2 - 0x80) in
        if is_continuation n1 && is_continuation n2
           && (0x800 <=? cp) && negb (is_surrogate cp)
        then prepend cp (decode_utf8 t2)
        else Err UnicodeDecodeError
      | _ => Err UnicodeDecodeError
      end
    else if n0 <? 0xF5 then
      match t0 with
      | b1 :: b2 :: b3 :: t3 =>
        let n1 := Byte.to_N b1 in
        let n2 := Byte.to_N b2 in
        let n3 := Byte.to_N b3 in
        let cp := (n0 - 0xF0) * 262144 + (n1 - 0x80) * 4096
                  + (n2 - 0x80) * 64 + (n3 - 0x80) in
        if is_continuation n1 && is_continuation n2 && is_continuation n3
           && (0x10000 <=? cp) && (cp <? 0x110000)
        then prepend cp (decode_utf8 t3)
        else Err UnicodeDecodeError
      | _ => Err UnicodeDecodeError
      end
    else Err UnicodeDecodeError
  end.

(** ** ws/constants.py *)

(** [PubSubWSMessageFlags]: an [IntFlag]; [MINIMAL_HEADERS = 1 << 0]. *)
Definition PubSubWSMessageFlags := N.
Definition MINIMAL_HEADERS : PubSubWSMessageFlags := N.shiftl 1 0.

(** [BroadcasterToSubscriberWSMessageType]: an [IntEnum] numbered by
    [auto()], that is 1, 2, ... in declaration order. *)
Inductive BroadcasterToSubscriberWSMessageType : Type :=
| CONFIRM_CONFIGURE
| CONFIRM_SUBSCRIBE_EXACT
| CONFIRM_SUBSCRIBE_GLOB
| CONFIRM_UNSUBSCRIBE_EXACT
| CONFIRM_UNSUBSCRIBE_GLOB
| CONFIRM_NOTIFY
| CONTINUE_NOTIFY
| RECEIVE_STREAM
| ENABLE_ZSTD_PRESET
| ENABLE_ZSTD_CUSTOM.

Definition int_of_type (t : BroadcasterToSubscriberWSMessageType) : N :=
  match t with
  | CONFIRM_CONFIGURE => 1
  | CONFIRM_SUBSCRIBE_EXACT => 2
  | CONFIRM_SUBSCRIBE_GLOB => 3
  | CONFIRM_UNSUBSCRIBE_EXACT => 4
  | CONFIRM_UNSUBSCRIBE_GLOB => 5
  | CONFIRM_NOTIFY => 6
  | CONTINUE_NOTIFY => 7
  | RECEIVE_STREAM => 8
  | ENABLE_ZSTD_PRESET => 9
  | ENABLE_ZSTD_CUSTOM => 10
  end.

Definition type_of_int (n : N) : option BroadcasterToSubscriberWSMessageType :=
  match n with
  | 1 => Some CONFIRM_CONFIGURE
  | 2 => Some CONFIRM_SUBSCRIBE_EXACT
  | 3 => Some CONFIRM_SUBSCRIBE_GLOB
  | 4 => Some CONFIRM_UNSUBSCRIBE_EXACT
  | 5 => Some CONFIRM_UNSUBSCRIBE_GLOB
  | 6 => Some CONFIRM_NOTIFY
  | 7 => Some CONTINUE_NOTIFY
  | 8 => Some RECEIVE_STREAM
  | 9 => Some ENABLE_ZSTD_PRESET
  | 10 => Some ENABLE_ZSTD_CUSTOM
  | _ => None
  end.

Definition type_eqb (x y : BroadcasterToSubscriberWSMessageType) : bool :=
  int_of_type x =? int_of_type y.

(** Modelled from the spec: [lonelypsp.stateful.constants] is not among the
    sources.  The spec (3) has one broadcaster-to-subscriber registry and
    one flags bitmask, so the names the [lonelypsp] modules import stand
    for the enumeration and the flags of [ws/constants.py]. *)
Definition BroadcasterToSubscriberStatefulMessageType :=
  BroadcasterToSubscriberWSMessageType.
Definition PubSubStatefulMessageFlags := PubSubWSMessageFlags.

(** ** The header codec and the frame helpers *)

(** [SyncReadableBytesIO]: the unread bytes.  Reading [n] bytes out of
    fewer is a truncated header section. *)
Definition read_exact (n : N) (payload : bytes) : result (bytes * bytes) :=
  if n <=? len payload
  then Ok (firstn (N.to_nat n) payload, skipn (N.to_nat n) payload)
  else Err MalformedHeader.

(** Modelled from the spec: the header codec of [parser_helpers] and
    [serializer_helpers], which are not among the sources.  The spec (4.1):
    a name and a value are each at most 65535 bytes, anything longer is a
    [MalformedHeader]; in explicit mode a header is a 2-byte big-endian
    name length, the name, a 2-byte big-endian value length, the value; in
    minimal mode the name and its length are left out; there is neither a
    count nor a terminator.  Header names, ASCII strings in the sources,
    are handled as their bytes. *)
Definition check_header_size (x : bytes) : result unit :=
  if len x <=? 65535 then Ok tt else Err MalformedHeader.

Definition length_prefixed (x : bytes) : bytes :=
  to_bytes_big 2 (len x) ++ x.

Fixpoint encode_headers (minimal : bool) (names values : list bytes)
  : result bytes :=
  match names, values with
  | name :: names', value :: values' =>
      _ <- check_header_size name ;;
      _ <- check_header_size value ;;
      rest <- encode_headers minimal names' values' ;;
      Ok ((if minimal then [] else length_prefixed name)
          ++ length_prefixed value ++ rest)
  | _, _ => Ok []
  end.

Definition read_length_prefixed (payload : bytes) : result (bytes * bytes) :=
  ' (size, payload1) <- read_exact 2 payload ;;
  read_exact (from_bytes_big size) payload1.

Fixpoint decode_headers (minimal : bool) (payload : bytes)
  (expected_names : list bytes) (headers : dict) : result (dict * bytes) :=
  match expected_names with
  | [] => Ok (headers, payload)
  | expected :: more =>
      _ <- check_header_size expected ;;
      ' (name, payload1) <-
        (if minimal then Ok (expected, payload)
         else read_length_prefixed payload) ;;
      ' (value, payload2) <- read_length_prefixed payload1 ;;
      decode_headers minimal payload2 more (dict_set headers name value)
  end.

(** Modelled from the spec: [parse_simple_headers] of [parser_helpers],
    not among the sources; the mode is read from bit 0 of the flags
    (spec 3, MessageFlags). *)
Definition parse_simple_headers (flags : PubSubWSMessageFlags)
  (payload : bytes) (headers : list bytes) : result (dict * bytes) :=
  decode_headers (negb (N.land flags MINIMAL_HEADERS =? 0)) payload headers [].

(** The flags a sender sets for its choice of header mode. *)
Definition flags_of (minimal_headers : bool) : PubSubWSMessageFlags :=
  if minimal_headers then MINIMAL_HEADERS else 0.

(** Modelled from the spec: [serialize_simple_message] of
    [serializer_helpers], not among the sources.  The spec (6) lays a frame
    out as one byte of flags, one byte of type code, the header section,
    then the body. *)
Definition serialize_simple_message
  (type : BroadcasterToSubscriberWSMessageType)
  (header_names header_values : list bytes) (payload : bytes)
  (minimal_headers : bool) : result bytes :=
  section <- encode_headers minimal_headers header_names header_values ;;
  Ok (byte_of_N (flags_of minimal_headers)
      :: byte_of_N (int_of_type type) :: section ++ payload).

(** ** ws/messages/confirm_subscribe.py *)

Module confirm_subscribe.

Record B2S_ConfirmSubscribeExact : Type := {
  type : BroadcasterToSubscriberWSMessageType;  (* discriminator value *)
  topic : bytes
  }.

Record B2S_ConfirmSubscribeGlob : Type := {
  glob_type : BroadcasterToSubscriberWSMessageType;  (* the [type] field *)
  glob : str
  }.

Definition _exact_headers : list bytes := [lit "x-topic"].

Module B2S_ConfirmSubscribeExactParser.
Definition relevant_types : list BroadcasterToSubscriberWSMessageType :=
    [CONFIRM_SUBSCRIBE_EXACT].

Definition parse (flags : PubSubWSMessageFlags)
    (type : BroadcasterToSubscriberWSMessageType) (payload : bytes)
    : result B2S_ConfirmSubscribeExact :=
    if negb (type_eqb type CONFIRM_SUBSCRIBE_EXACT) then Err AssertionError
    else
      ' (headers, _) <- parse_simple_headers flags payload _exact_headers ;;
      topic <- dict_get headers (lit "x-topic") ;;
      Ok {| type := type; topic := topic |}.
End B2S_ConfirmSubscribeExactParser.

Definition serialize_b2s_confirm_subscribe_exact
  (msg : B2S_ConfirmSubscribeExact) (minimal_headers : bool) : result bytes :=
  serialize_simple_message msg.(type) _exact_headers [msg.(topic)] []
    minimal_headers.

Definition _glob_headers : list bytes := [lit "x-glob"].

Module B2S_ConfirmSubscribeGlobParser.
Definition relevant_types : list BroadcasterToSubscriberWSMessageType :=
    [CONFIRM_SUBSCRIBE_GLOB].

Definition parse (flags : PubSubWSMessageFlags)
    (type : BroadcasterToSubscriberWSMessageType) (payload : bytes)
    : result B2S_ConfirmSubscribeGlob :=
    if negb (type_eqb type CONFIRM_SUBSCRIBE_GLOB) then Err AssertionError
    else
      ' (headers, _) <- parse_simple_headers flags payload _glob_headers ;;
      value <- dict_get headers (lit "x-glob") ;;
      glob <- decode_utf8 value ;;
      Ok {| glob_type := type; glob := glob |}.
End B2S_ConfirmSubscribeGlobParser.

Definition serialize_b2s_confirm_subscribe_glob
  (msg : B2S_ConfirmSubscribeGlob) (minimal_headers : bool) : result bytes :=
  value <- encode_utf8 msg.(glob) ;;
  serialize_simple_message msg.(glob_type) _glob_headers [value] []
    minimal_headers.

End confirm_subscribe.

(** ** ws/messages/confirm_unsubscribe.py *)

Module confirm_unsubscribe.

Record B2S_ConfirmUnsubscribeExact : Type := {
  type : BroadcasterToSubscriberWSMessageType;  (* discriminator value *)
  topic : bytes
  }.

Definition _exact_headers : list bytes := [lit "x-topic"].

Module B2S_ConfirmUnsubscribeExactParser.
Definition relevant_types : list BroadcasterToSubscriberWSMessageType :=
    [CONFIRM_UNSUBSCRIBE_EXACT].

Definition parse (flags : PubSubWSMessageFlags)
    (type : BroadcasterToSubscriberWSMessageType) (payload : bytes)
    : result B2S_ConfirmUnsubscribeExact :=
    if negb (type_eqb type CONFIRM_UNSUBSCRIBE_EXACT) then Err AssertionError
    else
      ' (headers, _) <- parse_simple_headers flags payload _exact_headers ;;
      topic <- dict_get headers (lit "x-topic") ;;
      Ok {| type := type; topic := topic |}.
End B2S_ConfirmUnsubscribeExactParser.

Definition serialize_b2s_confirm_unsubscribe_exact
  (msg : B2S_ConfirmUnsubscribeExact) (minimal_headers : bool)
  : result bytes :=
  serialize_simple_message msg.(type) _exact_headers [msg.(topic)] []
    minimal_headers.

Record B2S_ConfirmUnsubscribeGlob : Type := {
  glob_type : BroadcasterToSubscriberWSMessageType;  (* the [type] field *)
  glob : str
  }.

Definition _glob_headers : list bytes := [lit "x-glob"].

Module B2S_ConfirmUnsubscribeGlobParser.
Definition relevant_types : list BroadcasterToSubscriberWSMessageType :=
    [CONFIRM_UNSUBSCRIBE_GLOB].

Definition parse (flags : PubSubWSMessageFlags)
    (type : BroadcasterToSubscriberWSMessageType) (payload : bytes)
    : result B2S_ConfirmUnsubscribeGlob :=
    if negb (type_eqb type CONFIRM_UNSUBSCRIBE_GLOB) then Err AssertionError
    else
      ' (headers, _) <- parse_simple_headers flags payload _glob_headers ;;
      value <- dict_get headers (lit "x-glob") ;;
      glob <- decode_utf8 value ;;
      Ok {| glob_type := type; glob := glob |}.
End B2S_ConfirmUnsubscribeGlobParser.

Definition serialize_b2s_confirm_unsubscribe_glob
  (msg : B2S_ConfirmUnsubscribeGlob) (minimal_headers : bool)
  : result bytes :=
  value <- encode_utf8 msg.(glob) ;;
  serialize_simple_message msg.(glob_type) _glob_headers [value] []
    minimal_headers.

End confirm_unsubscribe.

(** ** stateful/messages/confirm_notify.py *)

Module confirm_notify.

Record B2S_ConfirmNotify : Type := {
  type : BroadcasterToSubscriberStatefulMessageType; (* discriminator value *)
  identifier : bytes;   (* assigned by the subscriber; max 64 bytes *)
  subscribers : N       (* how many subscribers were notified: a count,
                           never negative *)
  }.

Definition _headers : list bytes := [lit "x-identifier"; lit "x-subscribers"].

Module B2S_ConfirmNotifyParser.
Definition relevant_types : list BroadcasterToSubscriberStatefulMessageType :=
    [CONFIRM_NOTIFY].

Definition parse (flags : PubSubStatefulMessageFlags)
    (type : BroadcasterToSubscriberStatefulMessageType) (payload : bytes)
    : result B2S_ConfirmNotify :=
    if negb (type_eqb type CONFIRM_NOTIFY) then Err AssertionError
    else
      ' (headers, _) <- parse_simple_headers flags payload _headers ;;
      identifier <- dict_get headers (lit "x-identifier") ;;
      if 64 <? len identifier
      then Err (ValueError "x-identifier must be at most 64 bytes")
      else
        subscriber_bytes <- dict_get headers (lit "x-subscribers") ;;
        if 8 <? len subscriber_bytes
        then Err (ValueError "x-subscribers must be at most 8 bytes")
        else
          let subscribers := from_bytes_big subscriber_bytes in
          Ok {| type := type;
                identifier := identifier;
                subscribers := subscribers |}.
End B2S_ConfirmNotifyParser.

Definition serialize_b2s_confirm_notify (msg : B2S_ConfirmNotify)
  (minimal_headers : bool) : result bytes :=
  serialize_simple_message msg.(type) _headers
    [msg.(identifier); int_to_minimal_unsigned msg.(subscribers)]
    [] minimal_headers.

End confirm_notify.

(** ** stateful/messages/continue_notify.py *)

Module continue_notify.

Record B2S_ContinueNotify : Type := {
  type : BroadcasterToSubscriberStatefulMessageType; (* discriminator value *)
  identifier : bytes;   (* assigned by the subscriber; max 64 bytes *)
  part_id : N           (* the part id the broadcaster received: part ids
                           start at 0 and go up *)
  }.

Definition _headers : list bytes := [lit "x-identifier"; lit "x-part-id"].

Module B2S_ContinueNotifyParser.
Definition relevant_types : list BroadcasterToSubscriberStatefulMessageType :=
    [CONTINUE_NOTIFY].

Definition parse (flags : PubSubStatefulMessageFlags)
    (type : BroadcasterToSubscriberStatefulMessageType) (payload : bytes)
    : result B2S_ContinueNotify :=
    if negb (type_eqb type CONTINUE_NOTIFY) then Err AssertionError
    else
      ' (headers, _) <- parse_simple_headers flags payload _headers ;;
      identifier <- dict_get headers (lit "x-identifier") ;;
      if 64 <? len identifier
      then Err (ValueError "x-identifier must be at most 64 bytes")
      else
        part_id_bytes <- dict_get headers (lit "x-part-id") ;;
        if 8 <? len part_id_bytes
        then Err (ValueError "x-part-id must be at most 8 bytes")
        else
          let part_id := from_bytes_big part_id_bytes in
          Ok {| type := type;
                identifier := identifier;
                part_id := part_id |}.
End B2S_ContinueNotifyParser.

Definition serialize_b2s_continue_notify (msg : B2S_ContinueNotify)
  (minimal_headers : bool) : result bytes :=
  serialize_simple_message msg.(type) _headers
    [msg.(identifier); int_to_minimal_unsigned msg.(part_id)]
    [] minimal_headers.

End continue_notify.

(** ** The generic dispatcher *)

(** The tagged variant over the message kinds that have a parser and a
    serializer in the sources. *)
Inductive B2S_Message : Type :=
| ConfirmSubscribeExact (m : confirm_subscribe.B2S_ConfirmSubscribeExact)
| ConfirmSubscribeGlob (m : confirm_subscribe.B2S_ConfirmSubscribeGlob)
| ConfirmUnsubscribeExact (m : confirm_unsubscribe.B2S_ConfirmUnsubscribeExact)
| ConfirmUnsubscribeGlob (m : confirm_unsubscribe.B2S_ConfirmUnsubscribeGlob)
| ConfirmNotify (m : confirm_notify.B2S_ConfirmNotify)
| ContinueNotify (m : continue_notify.B2S_ContinueNotify).

(** [B2S_MessageParser]: what every parser class satisfies. *)
Record B2S_MessageParser : Type := {
  relevant_types : list BroadcasterToSubscriberWSMessageType;
  parse : PubSubWSMessageFlags -> BroadcasterToSubscriberWSMessageType ->
          bytes -> result B2S_Message
}.

Definition tagged {A} (tag : A -> B2S_Message) (r : result A)
  : result B2S_Message :=
  m <- r ;; Ok (tag m).

Definition b2s_parsers : list B2S_MessageParser :=
  [ {| relevant_types :=
         confirm_subscribe.B2S_ConfirmSubscribeExactParser.relevant_types;
       parse := fun f t p => tagged ConfirmSubscribeExact
         (confirm_subscribe.B2S_ConfirmSubscribeExactParser.parse f t p) |};
    {| relevant_types :=
         confirm_subscribe.B2S_ConfirmSubscribeGlobParser.relevant_types;
       parse := fun f t p => tagged ConfirmSubscribeGlob
         (confirm_subscribe.B2S_ConfirmSubscribeGlobParser.parse f t p) |};
    {| relevant_types :=
         confirm_unsubscribe.B2S_ConfirmUnsubscribeExactParser.relevant_types;
       parse := fun f t p => tagged ConfirmUnsubscribeExact
         (confirm_unsubscribe.B2S_ConfirmUnsubscribeExactParser.parse f t p) |};
    {| relevant_types :=
         confirm_unsubscribe.B2S_ConfirmUnsubscribeGlobParser.relevant_types;
       parse := fun f t p => tagged ConfirmUnsubscribeGlob
         (confirm_unsubscribe.B2S_ConfirmUnsubscribeGlobParser.parse f t p) |};
    {| relevant_types := confirm_notify.B2S_ConfirmNotifyParser.relevant_types;
       parse := fun f t p => tagged ConfirmNotify
         (confirm_notify.B2S_ConfirmNotifyParser.parse f t p) |};
    {| relevant_types := continue_notify.B2S_ContinueNotifyParser.relevant_types;
       parse := fun f t p => tagged ContinueNotify
         (continue_notify.B2S_ContinueNotifyParser.parse f t p) |} ].

(** Modelled from the spec: the generic parser, not among the sources.  The
    spec (4.4, 6): the frame opens with one byte of flags and one byte of
    type code; the parser whose [relevant_types] hold the code parses the
    rest; a code no parser claims is an [UnknownMessageType]. *)
Definition parse_message (flags : PubSubWSMessageFlags)
  (type : BroadcasterToSubscriberWSMessageType) (payload : bytes)
  : result B2S_Message :=
  match find (fun p => existsb (type_eqb type) p.(relevant_types)) b2s_parsers with
  | Some p => p.(parse) flags type payload
  | None => Err UnknownMessageType
  end.

Definition parse_frame (frame : bytes) : result B2S_Message :=
  match frame with
  | flags :: code :: payload =>
      match type_of_int (Byte.to_N code) with
      | Some type => parse_message (Byte.to_N flags) type payload
      | None => Err UnknownMessageType
      end
  | _ => Err MalformedHeader
  end.

(** Modelled from the spec: the generic serializer, not among the sources;
    it selects the serializer by the variant's tag (spec 4.4). *)
Definition serialize_message (msg : B2S_Message) (minimal_headers : bool)
  : result bytes :=
  match msg with
  | ConfirmSubscribeExact m =>
      confirm_subscribe.serialize_b2s_confirm_subscribe_exact m minimal_headers
  | ConfirmSubscribeGlob m =>
      confirm_subscribe.serialize_b2s_confirm_subscribe_glob m minimal_headers
  | ConfirmUnsubscribeExact m =>
      confirm_unsubscribe.serialize_b2s_confirm_unsubscribe_exact m minimal_headers
  | ConfirmUnsubscribeGlob m =>
      confirm_unsubscribe.serialize_b2s_confirm_unsubscribe_glob m minimal_headers
  | ConfirmNotify m =>
      confirm_notify.serialize_b2s_confirm_notify m minimal_headers
  | ContinueNotify m =>
      continue_notify.serialize_b2s_continue_notify m minimal_headers
  end.

(** [parse(serialize(m, minimal))] *)
Definition roundtrip (msg : B2S_Message) (minimal_headers : bool)
  : result B2S_Message :=
  frame <- serialize_message msg minimal_headers ;;
  parse_frame frame.

(** The messages the round-trip law speaks of: the discriminator is the
    kind's own, the identifier is at most 64 bytes, the count or part id is
    below 2^64, the glob is a string of Unicode scalar values, and every
    header value is at most 65535 bytes. *)
Definition valid_str (s : str) : bool := forallb is_scalar_value s.

Definition utf8_fits (s : str) : bool :=
  match encode_utf8 s with
  | Ok value => len value <=? 65535
  | Err _ => false
  end.

Definition valid_message (msg : B2S_Message) : bool :=
  match msg with
  | ConfirmSubscribeExact m =>
      type_eqb m.(confirm_subscribe.type) CONFIRM_SUBSCRIBE_EXACT
      && (len m.(confirm_subscribe.topic) <=? 65535)
  | ConfirmSubscribeGlob m =>
      type_eqb m.(confirm_subscribe.glob_type) CONFIRM_SUBSCRIBE_GLOB
      && valid_str m.(confirm_subscribe.glob)
      && utf8_fits m.(confirm_subscribe.glob)
  | ConfirmUnsubscribeExact m =>
      type_eqb m.(confirm_unsubscribe.type) CONFIRM_UNSUBSCRIBE_EXACT
      && (len m.(confirm_unsubscribe.topic) <=? 65535)
  | ConfirmUnsubscribeGlob m =>
      type_eqb m.(confirm_unsubscribe.glob_type) CONFIRM_UNSUBSCRIBE_GLOB
      && valid_str m.(confirm_unsubscribe.glob)
      && utf8_fits m.(confirm_unsubscribe.glob)
  | ConfirmNotify m =>
      type_eqb m.(confirm_notify.type) CONFIRM_NOTIFY
      && (len m.(confirm_notify.identifier) <=? 64)
      && (m.(confirm_notify.subscribers) <? 2 ^ 64)
  | ContinueNotify m =>
      type_eqb m.(continue_notify.type) CONTINUE_NOTIFY
      && (len m.(continue_notify.identifier) <=? 64)
      && (m.(continue_notify.part_id) <? 2 ^ 64)
  end.

(** ** The authorization scheme

    No module of the sources implements it; [ws/constants.py] documents it
    under [CONFIRM_CONFIGURE]: the connection nonce is
    [SHA256(subscriber_nonce CONCAT broadcaster_nonce)], the url is
    [websocket:<nonce>:<ctr>] with the nonce base64url encoded and the
    counter hex encoded without a leading 0x and unpadded; the subscriber's
    counter starts at -1 and is decremented by 1 after each subscribe or
    unsubscribe request, the broadcaster's starts at 1 and is incremented
    by 1 after each notification sent. *)

Definition hex_alphabet : bytes := lit "0123456789abcdef".

Definition hex_digit (d : N) : byte := nth (N.to_nat d) hex_alphabet x00.

Fixpoint hex_digits (fuel : nat) (n : N) (acc : bytes) : bytes :=
  match fuel with
  | O => acc
  | S fuel' =>
      if n =? 0 then acc
      else hex_digits fuel' (n / 16) (hex_digit (n mod 16) :: acc)
  end.

(** [format(n, "x")] on a non-negative [n] *)
Definition hex_unsigned (n : N) : bytes :=
  if n =? 0 then lit "0" else hex_digits (N.to_nat (N.size n)) n [].

(** [format(ctr, "x")]: the sign, then the digits of the magnitude *)
Definition hex_counter (ctr : Z) : bytes :=
  (if (ctr <? 0)%Z then lit "-" else []) ++ hex_unsigned (Z.abs_N ctr).

(** Reading hex digits back, to state what [hex_unsigned] writes. *)
Definition hex_digit_value (c : byte) : option N :=
  let n := Byte.to_N c in
  if (48 <=? n) && (n <=? 57) then Some (n - 48)
  else if (97 <=? n) && (n <=? 102) then Some (n - 87)
  else None.

Fixpoint hex_value_from (acc : N) (digits : bytes) : option N :=
  match digits with
  | [] => Some acc
  | c :: digits' =>
      match hex_digit_value c with
      | Some d => hex_value_from (acc * 16 + d) digits'
      | None => None
      end
  end.

Definition hex_value (digits : bytes) : option N := hex_value_from 0 digits.

Module authorization.
Section Scheme.

(** The hash and the base64url encoder are standard primitives that the
  protocol takes from its environment. *)
Variable SHA256 : bytes -> bytes.
Variable base64url : bytes -> bytes.

Record ConnectionNonceState : Type := {
  subscriber_nonce : bytes;
  broadcaster_nonce : bytes;
  connection_nonce : bytes;
  subscriber_counter : Z;
  broadcaster_counter : Z
  }.

(** The state both peers hold once CONFIGURE and CONFIRM_CONFIGURE have
  been exchanged. *)
Definition configured (subscriber_nonce broadcaster_nonce : bytes)
  : ConnectionNonceState :=
  {| subscriber_nonce := subscriber_nonce;
     broadcaster_nonce := broadcaster_nonce;
     connection_nonce := SHA256 (subscriber_nonce ++ broadcaster_nonce);
     subscriber_counter := -1;
     broadcaster_counter := 1 |}.

Definition with_subscriber_counter (st : ConnectionNonceState) (ctr : Z) :=
  {| subscriber_nonce := st.(subscriber_nonce);
     broadcaster_nonce := st.(broadcaster_nonce);
     connection_nonce := st.(connection_nonce);
     subscriber_counter := ctr;
     broadcaster_counter := st.(broadcaster_counter) |}.

Definition with_broadcaster_counter (st : ConnectionNonceState) (ctr : Z) :=
  {| subscriber_nonce := st.(subscriber_nonce);
     broadcaster_nonce := st.(broadcaster_nonce);
     connection_nonce := st.(connection_nonce);
     subscriber_counter := st.(subscriber_counter);
     broadcaster_counter := ctr |}.

(** [websocket:<nonce>:<ctr>] *)
Definition authorization (nonce : bytes) (ctr : Z) : bytes :=
  lit "websocket:" ++ base64url nonce ++ lit ":" ++ hex_counter ctr.

(** As [ws/constants.py] documents it: the token carries the counter as
  it stands, and the counter moves by one after the request. *)
Definition subscriber_authorization (st : ConnectionNonceState)
  : bytes * ConnectionNonceState :=
  (authorization st.(connection_nonce) st.(subscriber_counter),
   with_subscriber_counter st (st.(subscriber_counter) - 1)%Z).

Definition broadcaster_authorization (st : ConnectionNonceState)
  : bytes * ConnectionNonceState :=
  (authorization st.(connection_nonce) st.(broadcaster_counter),
   with_broadcaster_counter st (st.(broadcaster_counter) + 1)%Z).

(** Modelled from the spec: [next_subscriber_token] and
  [next_broadcaster_token] (4.6), which no source implements: the
  counter is decremented (incremented), then the token is formatted. *)
Definition next_subscriber_token (st : ConnectionNonceState)
  : bytes * ConnectionNonceState :=
  let st' := with_subscriber_counter st (st.(subscriber_counter) - 1)%Z in
  (authorization st'.(connection_nonce) st'.(subscriber_counter), st').

Definition next_broadcaster_token (st : ConnectionNonceState)
  : bytes * ConnectionNonceState :=
  let st' := with_broadcaster_counter st (st.(broadcaster_counter) + 1)%Z in
  (authorization st'.(connection_nonce) st'.(broadcaster_counter), st').

(** The tokens of [n] successive actions, oldest first. *)
Fixpoint tokens (action : ConnectionNonceState -> bytes * ConnectionNonceState)
  (n : nat) (st : ConnectionNonceState) : list bytes * ConnectionNonceState :=
  match n with
  | O => ([], st)
  | S n' =>
      let '(token, st1) := action st in
      let '(more, st2) := tokens action n' st1 in
      (token :: more, st2)
  end.

End Scheme.
End authorization.

(** ** Notions and sample values used in the statements *)

(** The mapping a cleanly encoded header section decodes to. *)
Definition bound (names values : list bytes) (headers : dict) : dict :=
  fold_left (fun d nv => dict_set d (fst nv) (snd nv)) (combine names values)
    headers.

Definition sample_confirm_notify : B2S_Message :=
  ConfirmNotify {| confirm_notify.type := CONFIRM_NOTIFY;
                   confirm_notify.identifier := lit "abc";
                   confirm_notify.subscribers := 300 |}.

Definition sample_glob : B2S_Message :=
  ConfirmSubscribeGlob
    {| confirm_subscribe.glob_type := CONFIRM_SUBSCRIBE_GLOB;
       confirm_subscribe.glob := [0x66; 0xE9; 0x2F; 0x20AC; 0x1F600; 0x2A] |}.

(** An explicit-mode CONFIRM_NOTIFY header section whose x-subscribers
    value has nine bytes. *)
Definition nine_byte_count : bytes :=
  length_prefixed (lit "x-identifier") ++ length_prefixed (lit "id")
  ++ length_prefixed (lit "x-subscribers")
  ++ length_prefixed [x01; x00; x00; x00; x00; x00; x00; x00; x00].

(** A minimal-mode CONTINUE_NOTIFY header section, part id 2. *)
Definition part_two : bytes :=
  length_prefixed (lit "id") ++ length_prefixed [x02].

(** The bytes of a header section, sizes unchecked. *)
Fixpoint header_section (minimal : bool) (names values : list bytes) : bytes :=
  match names, values with
  | name :: names', value :: values' =>
      (if minimal then [] else length_prefixed name)
      ++ length_prefixed value ++ header_section minimal names' values'
  | _, _ => []
  end.

(** The frame [serialize_simple_message] builds around it, without body. *)
Definition frame_of (minimal : bool) (t : BroadcasterToSubscriberWSMessageType)
  (names values : list bytes) : bytes :=
  byte_of_N (flags_of minimal) :: byte_of_N (int_of_type t)
  :: header_section minimal names values.

(** An explicit-mode x-glob section holding [f?/*] with U+00E9 for [?]. *)
Definition glob_section : bytes :=
  length_prefixed (lit "x-glob")
  ++ length_prefixed [x66; xc3; xa9; x2f; x2a].

Definition sized (d : dict) : Prop :=
  forall k v, In (k, v) d -> len k <= 65535 /\ len v <= 65535.

(** A value of exactly 65535 bytes, and one of 65536. *)
Definition largest_value : bytes := repeat xff (N.to_nat 65535).
Definition oversized_value : bytes := repeat xff (N.to_nat 65536).

(** A CONFIRM_NOTIFY message whose identifier has 65536 bytes. *)
Definition oversized_identifier : confirm_notify.B2S_ConfirmNotify :=
  {| confirm_notify.type := CONFIRM_NOTIFY;
     confirm_notify.identifier := repeat x00 (N.to_nat 65536);
     confirm_notify.subscribers := 0 |}.

(** [digits] written after the accumulator [a] read so far add [v]. *)
Definition reads (digits : bytes) (v : N) : Prop :=
  forall a, hex_value_from a digits = Some (a * 16 ^ len digits + v).

Definition nonce_a : bytes := repeat x0a (N.to_nat 32).
Definition nonce_b : bytes := repeat x0b (N.to_nat 32).

(** Payloads for the examples: an explicit-mode section whose only header
    is named x-other, and a minimal-mode section cut short. *)
Definition other_header_section : bytes :=
  length_prefixed (lit "x-other") ++ length_prefixed (lit "a/b").

Definition truncated_section : bytes := [x00; x05; x61].

(** An explicit-mode section of two headers, an x-identifier of 65 bytes and
    an x-other: there is no x-subscribers in it. *)
Definition long_identifier_section : bytes :=
  length_prefixed (lit "x-identifier")
  ++ length_prefixed (repeat x41 (N.to_nat 65))
  ++ length_prefixed (lit "x-other") ++ length_prefixed [].

(** The outcome of a parser seen through one field of the message. *)
Definition field {A B} (f : A -> B) (r : result A) : result B :=
  m <- r ;; Ok (f m).

(** The header mode a receiver reads off the flags. *)
Definition minimal_flag (flags : PubSubWSMessageFlags) : bool :=
  negb (N.land flags MINIMAL_HEADERS =? 0).

(** ** ws/constants.py, the other direction *)

(** [SubscriberToBroadcasterWSMessageType]: an [IntEnum] numbered by
    [auto()], 1, 2, ... in declaration order. *)
Inductive SubscriberToBroadcasterWSMessageType : Type :=
| CONFIGURE
| SUBSCRIBE_EXACT
| SUBSCRIBE_GLOB
| UNSUBSCRIBE_EXACT
| UNSUBSCRIBE_GLOB
| NOTIFY
| NOTIFY_STREAM
| CONTINUE_RECEIVE
| CONFIRM_RECEIVE.

(** The members of the two enumerations, in declaration order. *)
Definition s2b_members : list SubscriberToBroadcasterWSMessageType :=
  [CONFIGURE; SUBSCRIBE_EXACT; SUBSCRIBE_GLOB; UNSUBSCRIBE_EXACT;
   UNSUBSCRIBE_GLOB; NOTIFY; NOTIFY_STREAM; CONTINUE_RECEIVE; CONFIRM_RECEIVE].

Definition b2s_members : list BroadcasterToSubscriberWSMessageType :=
  [CONFIRM_CONFIGURE; CONFIRM_SUBSCRIBE_EXACT; CONFIRM_SUBSCRIBE_GLOB;
   CONFIRM_UNSUBSCRIBE_EXACT; CONFIRM_UNSUBSCRIBE_GLOB; CONFIRM_NOTIFY;
   CONTINUE_NOTIFY; RECEIVE_STREAM; ENABLE_ZSTD_PRESET; ENABLE_ZSTD_CUSTOM].

(** [auto()]: one more than the value of the member declared before, and 1
    for the first. *)
Fixpoint auto_values {A} (members : list A) (last : N) : list (A * N) :=
  match members with
  | [] => []
  | member :: more => (member, last + 1) :: auto_values more (last + 1)
  end.

Definition int_of_s2b (t : SubscriberToBroadcasterWSMessageType) : N :=
  match t with
  | CONFIGURE => 1
  | SUBSCRIBE_EXACT => 2
  | SUBSCRIBE_GLOB => 3
  | UNSUBSCRIBE_EXACT => 4
  | UNSUBSCRIBE_GLOB => 5
  | NOTIFY => 6
  | NOTIFY_STREAM => 7
  | CONTINUE_RECEIVE => 8
  | CONFIRM_RECEIVE => 9
  end.

(** * Facts *)

(** *** Facts on bytes *)

Lemma to_N_lt (b : byte) : Byte.to_N b < 256.
Proof. pose proof (Byte.to_N_bounded b). lia. Qed.

Lemma to_N_byte_of_N (n : N) : Byte.to_N (byte_of_N n) = n mod 256.
Proof.
  unfold byte_of_N.
  destruct (Byte.of_N (n mod 256)) as [b|] eqn:E.
  - now apply Byte.to_of_N.
  - apply Byte.of_N_None_iff in E.
    pose proof (N.mod_upper_bound n 256). lia.
Qed.

Lemma to_N_byte_of_N_small (n : N) : n < 256 -> Byte.to_N (byte_of_N n) = n.
Proof. intros H. rewrite to_N_byte_of_N. now apply N.mod_small. Qed.

Lemma byte_of_N_to_N (b : byte) : byte_of_N (Byte.to_N b) = b.
Proof.
  unfold byte_of_N. rewrite N.mod_small by apply to_N_lt.
  now rewrite Byte.of_to_N.
Qed.

Lemma from_bytes_big_app (l : bytes) (b : byte) :
  from_bytes_big (l ++ [b]) = from_bytes_big l * 256 + Byte.to_N b.
Proof. unfold from_bytes_big. now rewrite fold_left_app. Qed.

Lemma from_bytes_big_acc (l : bytes) (a : N) :
  fold_left (fun acc b => acc * 256 + Byte.to_N b) l a
  = a * 256 ^ len l + from_bytes_big l.
Proof.
  unfold from_bytes_big, len. revert a.
  induction l as [|b l IH]; intros a.
  - simpl. lia.
  - cbn [fold_left List.length]. rewrite IH, (IH (0 * 256 + Byte.to_N b)).
    rewrite Nat2N.inj_succ, N.pow_succ_r'. lia.
Qed.

Lemma from_bytes_big_cons (b : byte) (l : bytes) :
  from_bytes_big (b :: l) = Byte.to_N b * 256 ^ len l + from_bytes_big l.
Proof.
  unfold from_bytes_big at 1. cbn [fold_left].
  rewrite from_bytes_big_acc. lia.
Qed.

Lemma from_bytes_big_lt (l : bytes) : from_bytes_big l < 256 ^ len l.
Proof.
  induction l as [|b l IH].
  - cbn. lia.
  - rewrite from_bytes_big_cons.
    unfold len in *. cbn [List.length]. rewrite Nat2N.inj_succ, N.pow_succ_r'.
    pose proof (to_N_lt b). nia.
Qed.

Lemma length_to_bytes_big (k : nat) (n : N) :
  List.length (to_bytes_big k n) = k.
Proof.
  revert n. induction k as [|k IH]; intros n; cbn [to_bytes_big].
  - reflexivity.
  - rewrite length_app, IH. cbn. lia.
Qed.

Lemma from_to_bytes_big (k : nat) (n : N) :
  from_bytes_big (to_bytes_big k n) = n mod 256 ^ N.of_nat k.
Proof.
  revert n. induction k as [|k IH]; intros n.
  - cbn. now rewrite N.mod_1_r.
  - cbn [to_bytes_big]. rewrite from_bytes_big_app, IH, to_N_byte_of_N.
    rewrite Nat2N.inj_succ, N.pow_succ_r'.
    rewrite N.Div0.mod_mul_r, N.Div0.mod_mod. lia.
Qed.

(** ** The minimal unsigned integer codec *)

Lemma pow_256 (k : N) : 256 ^ k = 2 ^ (8 * k).
Proof. now rewrite N.pow_mul_r. Qed.

Lemma lt_pow_minimal_size (n : N) : n < 256 ^ N.of_nat (minimal_size n).
Proof.
  unfold minimal_size, bit_length.
  pose proof (N.size_gt n) as Hgt.
  rewrite pow_256.
  eapply N.lt_le_trans; [exact Hgt|].
  apply N.pow_le_mono_r; [lia|].
  pose proof (N.Div0.mul_div_le (N.size n + 7) 8).
  pose proof (N.Div0.div_mod (N.size n + 7) 8).
  pose proof (N.mod_upper_bound (N.size n + 7) 8).
  lia.
Qed.

Lemma pow_minimal_size_le (n : N) :
  (2 <= minimal_size n)%nat -> 256 ^ N.of_nat (minimal_size n - 1) <= n.
Proof.
  unfold minimal_size, bit_length. intros Hk.
  pose proof (N.size_le n) as Hle.
  pose proof (N.Div0.div_mod (N.size n + 7) 8).
  pose proof (N.mod_upper_bound (N.size n + 7) 8).
  remember ((N.size n + 7) / 8) as q eqn:Eq. clear Eq.
  remember ((N.size n + 7) mod 8) as r eqn:Er. clear Er.
  assert (Hq : 2 <= q) by lia.
  assert (Hs : N.size n = N.succ (N.size n - 1)) by lia.
  rewrite Hs, N.pow_succ_r' in Hle.
  assert (H2 : 2 ^ (N.size n - 1) <= n) by (rewrite N.succ_double_spec in Hle; lia).
  eapply N.le_trans; [|exact H2].
  rewrite pow_256. apply N.pow_le_mono_r; lia.
Qed.

Lemma from_bytes_int_to_minimal_unsigned (n : N) :
  from_bytes_big (int_to_minimal_unsigned n) = n.
Proof.
  unfold int_to_minimal_unsigned. rewrite from_to_bytes_big.
  apply N.mod_small, lt_pow_minimal_size.
Qed.

Lemma len_int_to_minimal_unsigned (n : N) :
  len (int_to_minimal_unsigned n) = N.of_nat (minimal_size n).
Proof.
  unfold len, int_to_minimal_unsigned. now rewrite length_to_bytes_big.
Qed.

Lemma int_to_minimal_unsigned_fewest (n : N) (bs : bytes) :
  bs <> [] -> from_bytes_big bs = n ->
  len (int_to_minimal_unsigned n) <= len bs.
Proof.
  intros Hne Hbs. rewrite len_int_to_minimal_unsigned.
  destruct (Nat.le_gt_cases (minimal_size n) 1) as [Hk|Hk].
  - destruct bs; [congruence|]. unfold len. cbn [List.length]. lia.
  - pose proof (pow_minimal_size_le n ltac:(lia)) as Hlow.
    pose proof (from_bytes_big_lt bs) as Hup. rewrite Hbs in Hup.
    assert (Hlt : 256 ^ N.of_nat (minimal_size n - 1) < 256 ^ len bs) by lia.
    apply N.pow_lt_mono_r_iff in Hlt; lia.
Qed.

Lemma len_int_to_minimal_unsigned_u64 (n : N) :
  n < 2 ^ 64 -> len (int_to_minimal_unsigned n) <= 8.
Proof.
  intros Hn.
  assert (L : len (to_bytes_big 8 n) = 8)
    by (unfold len; now rewrite length_to_bytes_big).
  rewrite <- L. apply int_to_minimal_unsigned_fewest.
  - cbn. destruct (to_bytes_big 7 (n / 256)); discriminate.
  - rewrite from_to_bytes_big. apply N.mod_small.
    change (256 ^ N.of_nat 8) with (2 ^ 64). exact Hn.
Qed.

Lemma int_to_minimal_unsigned_head (n : N) :
  n <> 0 -> hd x00 (int_to_minimal_unsigned n) <> x00.
Proof.
  intros Hn Hhd.
  pose proof (from_bytes_int_to_minimal_unsigned n) as Hrt.
  destruct (int_to_minimal_unsigned n) as [|h t] eqn:E.
  - cbn in Hrt. congruence.
  - cbn in Hhd. subst h.
    rewrite from_bytes_big_cons in Hrt. cbn [Byte.to_N] in Hrt.
    assert (Ht : from_bytes_big t = n) by lia.
    assert (Hne : t <> []) by (intros ->; cbn in Ht; congruence).
    pose proof (int_to_minimal_unsigned_fewest n t Hne Ht) as Hle.
    rewrite E in Hle. unfold len in Hle. cbn [List.length] in Hle. lia.
Qed.

(** C6.  For every unsigned [n] below 2^64, decoding the minimal encoding of
    [n] gives [n] back; the encoding is never empty, takes at most 8 bytes,
    is no longer than any other non-empty big-endian representation of
    [n], the encoding of 0 is the single zero byte, and the encoding of a
    non-zero [n] does not start with a zero byte. *)
Theorem minimal_unsigned_roundtrip (n : N) (H : n < 2 ^ 64) :
  from_bytes_big (int_to_minimal_unsigned n) = n
  /\ int_to_minimal_unsigned 0 = [x00]
  /\ int_to_minimal_unsigned n <> []
  /\ len (int_to_minimal_unsigned n) <= 8
  /\ (forall bs : bytes, bs <> [] -> from_bytes_big bs = n ->
      len (int_to_minimal_unsigned n) <= len bs)
  /\ (n <> 0 -> hd x00 (int_to_minimal_unsigned n) <> x00).
Proof.
  repeat split.
  - apply from_bytes_int_to_minimal_unsigned.
  - intros E. pose proof (len_int_to_minimal_unsigned n) as L.
    rewrite E in L. unfold len, minimal_size in L.
    cbn [List.length] in L. lia.
  - now apply len_int_to_minimal_unsigned_u64.
  - intros bs. apply int_to_minimal_unsigned_fewest.
  - apply int_to_minimal_unsigned_head.
Qed.

Lemma minimal_unsigned_roundtrip_witness :
  from_bytes_big (int_to_minimal_unsigned 256) = 256
  /\ int_to_minimal_unsigned 256 = [x01; x00].
Proof.
  split.
  - apply (minimal_unsigned_roundtrip 256). reflexivity.
  - reflexivity.
Defined.

(** ** The header codec *)

Lemma Ok_inj {A} (x y : A) : Ok x = Ok y -> x = y.
Proof. now intros [= ->]. Qed.

Lemma len_app (x y : bytes) : len (x ++ y) = len x + len y.
Proof. unfold len. rewrite length_app. lia. Qed.

Lemma read_exact_app (x rest : bytes) :
  read_exact (len x) (x ++ rest) = Ok (x, rest).
Proof.
  unfold read_exact. rewrite len_app.
  replace (len x <=? len x + len rest) with true by (symmetry; apply N.leb_le; lia).
  unfold len. rewrite Nat2N.id.
  f_equal. f_equal.
  - rewrite firstn_app, Nat.sub_diag, firstn_all. cbn. apply app_nil_r.
  - rewrite skipn_app, Nat.sub_diag, skipn_all. reflexivity.
Qed.

Lemma read_exact_ok (n : N) (payload x rest : bytes) :
  read_exact n payload = Ok (x, rest) -> payload = x ++ rest /\ len x = n.
Proof.
  unfold read_exact. destruct (n <=? len payload) eqn:E; [|discriminate].
  apply N.leb_le in E. intros [= <- <-]. split.
  - symmetry. apply firstn_skipn.
  - unfold len in *. rewrite length_firstn. lia.
Qed.

Lemma check_header_size_ok (x : bytes) :
  len x <= 65535 -> check_header_size x = Ok tt.
Proof.
  intros H. unfold check_header_size.
  now replace (len x <=? 65535) with true by (symmetry; apply N.leb_le; lia).
Qed.

Lemma read_length_prefixed_app (x rest : bytes) :
  len x <= 65535 ->
  read_length_prefixed (length_prefixed x ++ rest) = Ok (x, rest).
Proof.
  intros H. unfold read_length_prefixed, length_prefixed.
  rewrite <- app_assoc.
  replace 2 with (len (to_bytes_big 2 (len x))) at 1
    by (unfold len at 1; now rewrite length_to_bytes_big).
  rewrite read_exact_app. cbn [bind].
  rewrite from_to_bytes_big, N.mod_small
    by (change (256 ^ N.of_nat 2) with 65536; lia).
  apply read_exact_app.
Qed.

Lemma read_length_prefixed_ok (payload x rest : bytes) :
  read_length_prefixed payload = Ok (x, rest) ->
  payload = length_prefixed x ++ rest /\ len x <= 65535.
Proof.
  unfold read_length_prefixed.
  destruct (read_exact 2 payload) as [[size payload1]|] eqn:E1; [|discriminate].
  cbn [bind]. intros E2.
  apply read_exact_ok in E1. destruct E1 as [-> Hsize].
  apply read_exact_ok in E2. destruct E2 as [-> Hx].
  assert (Hlt : from_bytes_big size < 65536).
  { pose proof (from_bytes_big_lt size) as L. rewrite Hsize in L. exact L. }
  split; [|lia].
  unfold length_prefixed. rewrite <- app_assoc. f_equal.
  destruct size as [|s1 [|s2 [|]]]; try (cbn in Hsize; lia).
  rewrite Hx. cbn [to_bytes_big app].
  rewrite from_bytes_big_cons, from_bytes_big_cons in *.
  cbn [len List.length from_bytes_big fold_left N.of_nat] in *.
  pose proof (to_N_lt s1). pose proof (to_N_lt s2).
  set (a := Byte.to_N s1) in *. set (c := Byte.to_N s2) in *.
  change (256 ^ N.pos (Pos.of_succ_nat 0)) with 256 in *.
  change (256 ^ 0) with 1 in *.
  assert (E1 : (a * 256 + (c * 1 + 0)) / 256 mod 256 = a).
  { replace (a * 256 + (c * 1 + 0)) with (c + a * 256) by lia.
    rewrite N.div_add by lia. rewrite (N.div_small c) by lia.
    apply N.mod_small. lia. }
  assert (E2 : (a * 256 + (c * 1 + 0)) mod 256 = c).
  { replace (a * 256 + (c * 1 + 0)) with (c + a * 256) by lia.
    rewrite N.Div0.mod_add. apply N.mod_small. lia. }
  rewrite E1, E2. unfold a, c. now rewrite !byte_of_N_to_N.
Qed.

Lemma decode_encode_headers (minimal : bool) (names values : list bytes) :
  List.length names = List.length values ->
  forall (section rest : bytes) (headers : dict),
  encode_headers minimal names values = Ok section ->
  decode_headers minimal (section ++ rest) names headers
  = Ok (bound names values headers, rest).
Proof.
  revert values.
  induction names as [|name names IH]; intros [|value values] Hlen;
    try discriminate; intros section rest headers.
  - intros [= <-]. reflexivity.
  - cbn [encode_headers].
    unfold check_header_size at 1 2.
    destruct (len name <=? 65535) eqn:En; [|discriminate].
    destruct (len value <=? 65535) eqn:Ev; [|discriminate].
    cbn [bind].
    destruct (encode_headers minimal names values) as [tail|] eqn:Et;
      [|discriminate].
    cbn [bind]. intros Hs. apply Ok_inj in Hs. subst section.
    apply N.leb_le in En, Ev.
    cbn [decode_headers]. rewrite check_header_size_ok by exact En.
    cbn [bind].
    destruct minimal; cbv beta iota; rewrite ?app_nil_l, <- ?app_assoc;
      rewrite ?(read_length_prefixed_app name) by exact En; cbn [bind];
      rewrite read_length_prefixed_app by exact Ev; cbn [bind];
      unfold bound; cbn [combine fold_left fst snd];
      (apply IH; [now injection Hlen | exact Et]).
Qed.

(** ** UTF-8 *)

Ltac Zify.zify_convert_to_euclidean_division_equations_flag ::= constr:(true).

Ltac decide_tests :=
  repeat match goal with
  | |- context [?a <? ?c] =>
      let E := fresh "E" in
      destruct (N.ltb_spec a c) as [E|E]; try lia
  | |- context [?a <=? ?c] =>
      let E := fresh "E" in
      destruct (N.leb_spec a c) as [E|E]; try lia
  end.

Lemma decode_encode_code_point (cp : N) (h rest : bytes) :
  encode_code_point cp = Ok h ->
  decode_utf8 (h ++ rest) = prepend cp (decode_utf8 rest).
Proof.
  unfold encode_code_point, is_surrogate.
  destruct (N.ltb_spec cp 0x80) as [H1|H1].
  { intros Hok; apply Ok_inj in Hok; subst. cbn [app decode_utf8].
    rewrite to_N_byte_of_N_small by lia. decide_tests. reflexivity. }
  destruct (N.ltb_spec cp 0x800) as [H2|H2].
  { intros Hok; apply Ok_inj in Hok; subst. cbn [app decode_utf8].
    rewrite !to_N_byte_of_N_small by lia.
    unfold is_continuation. decide_tests. cbn [andb].
    f_equal. lia. }
  destruct (N.ltb_spec cp 0x10000) as [H3|H3].
  { destruct (N.leb_spec 0xD800 cp) as [H4|H4];
      [destruct (N.leb_spec cp 0xDFFF) as [H5|H5]|]; cbn [andb];
      try discriminate; intros Hok; apply Ok_inj in Hok; subst; cbn [app decode_utf8];
      rewrite !to_N_byte_of_N_small by lia;
      unfold is_continuation, is_surrogate; decide_tests; cbn [andb negb];
      f_equal; lia. }
  destruct (N.ltb_spec cp 0x110000) as [H6|H6]; [|discriminate].
  intros Hok; apply Ok_inj in Hok; subst. cbn [app decode_utf8].
  rewrite !to_N_byte_of_N_small by lia.
  unfold is_continuation. decide_tests. cbn [andb].
  f_equal. lia.
Qed.

Lemma decode_encode_utf8 (s : str) (value : bytes) :
  encode_utf8 s = Ok value -> decode_utf8 value = Ok s.
Proof.
  revert value. induction s as [|cp s IH]; intros value; cbn [encode_utf8].
  - now intros Hok; apply Ok_inj in Hok; subst.
  - destruct (encode_code_point cp) as [h|] eqn:Eh; [|discriminate].
    cbn [bind].
    destruct (encode_utf8 s) as [t|] eqn:Et; [|discriminate].
    cbn [bind]. intros Hok; apply Ok_inj in Hok; subst.
    rewrite (decode_encode_code_point cp h t Eh), (IH t eq_refl).
    reflexivity.
Qed.

Lemma prepend_ok (cp : N) (r : result str) (s : str) :
  prepend cp r = Ok s -> exists s', r = Ok s' /\ s = cp :: s'.
Proof.
  destruct r as [s'|e]; cbn [prepend bind]; [|discriminate].
  intros H. apply Ok_inj in H. eauto.
Qed.

Lemma byte_of_N_eq (b : byte) (n : N) : n = Byte.to_N b -> byte_of_N n = b.
Proof. intros ->. apply byte_of_N_to_N. Qed.

Lemma encode_code_point_1 (b0 : byte) :
  Byte.to_N b0 < 0x80 -> encode_code_point (Byte.to_N b0) = Ok [b0].
Proof.
  intros H. unfold encode_code_point. decide_tests.
  now rewrite byte_of_N_to_N.
Qed.

Lemma encode_code_point_2 (b0 b1 : byte) :
  0xC2 <= Byte.to_N b0 < 0xE0 -> 0x80 <= Byte.to_N b1 <= 0xBF ->
  encode_code_point ((Byte.to_N b0 - 0xC0) * 64 + (Byte.to_N b1 - 0x80))
  = Ok [b0; b1].
Proof.
  intros H0 H1. unfold encode_code_point. decide_tests.
  f_equal. f_equal; [|f_equal]; apply byte_of_N_eq; lia.
Qed.

Lemma encode_code_point_3 (b0 b1 b2 : byte) (cp : N) :
  cp = (Byte.to_N b0 - 0xE0) * 4096 + (Byte.to_N b1 - 0x80) * 64
       + (Byte.to_N b2 - 0x80) ->
  0xE0 <= Byte.to_N b0 < 0xF0 ->
  0x80 <= Byte.to_N b1 <= 0xBF -> 0x80 <= Byte.to_N b2 <= 0xBF ->
  0x800 <= cp -> is_surrogate cp = false ->
  encode_code_point cp = Ok [b0; b1; b2].
Proof.
  intros Hcp H0 H1 H2 Hlow Hsur. unfold encode_code_point. rewrite Hsur.
  decide_tests.
  f_equal. f_equal; [|f_equal; [|f_equal]]; apply byte_of_N_eq; lia.
Qed.

Lemma encode_code_point_4 (b0 b1 b2 b3 : byte) (cp : N) :
  cp = (Byte.to_N b0 - 0xF0) * 262144 + (Byte.to_N b1 - 0x80) * 4096
       + (Byte.to_N b2 - 0x80) * 64 + (Byte.to_N b3 - 0x80) ->
  0xF0 <= Byte.to_N b0 < 0xF5 ->
  0x80 <= Byte.to_N b1 <= 0xBF -> 0x80 <= Byte.to_N b2 <= 0xBF ->
  0x80 <= Byte.to_N b3 <= 0xBF ->
  0x10000 <= cp < 0x110000 ->
  encode_code_point cp = Ok [b0; b1; b2; b3].
Proof.
  intros Hcp H0 H1 H2 H3 Hrange. unfold encode_code_point.
  decide_tests.
  f_equal. f_equal; [|f_equal; [|f_equal; [|f_equal]]];
    apply byte_of_N_eq; lia.
Qed.

Lemma is_continuation_true (n : N) :
  is_continuation n = true -> 0x80 <= n <= 0xBF.
Proof.
  unfold is_continuation. intros H. apply andb_prop in H.
  destruct H as [Ha Hb]. apply N.leb_le in Ha, Hb. lia.
Qed.

Lemma encode_step (cp : N) (h t : bytes) (s : str) :
  encode_code_point cp = Ok h -> encode_utf8 s = Ok t ->
  encode_utf8 (cp :: s) = Ok (h ++ t).
Proof. intros Hh Ht. cbn [encode_utf8]. now rewrite Hh, Ht. Qed.

Lemma encode_decode_utf8_bounded (n : nat) :
  forall (value : bytes) (s : str),
  (List.length value <= n)%nat ->
  decode_utf8 value = Ok s -> encode_utf8 s = Ok value.
Proof.
  induction n as [|n IH]; intros value s Hlen Hdec.
  { destruct value; [|cbn in Hlen; lia].
    cbn in Hdec. apply Ok_inj in Hdec. now subst. }
  destruct value as [|b0 t0].
  { cbn in Hdec. apply Ok_inj in Hdec. now subst. }
  cbn [List.length] in Hlen. cbn [decode_utf8] in Hdec.
  destruct (N.ltb_spec (Byte.to_N b0) 0x80) as [L1|L1].
  { apply prepend_ok in Hdec. destruct Hdec as (s' & Hs' & ->).
    apply (encode_step _ [b0]); [now apply encode_code_point_1|].
    apply IH; [lia|exact Hs']. }
  destruct (N.ltb_spec (Byte.to_N b0) 0xC2) as [L2|L2]; [discriminate|].
  destruct (N.ltb_spec (Byte.to_N b0) 0xE0) as [L3|L3].
  { destruct t0 as [|b1 t1]; [discriminate|].
    destruct (is_continuation (Byte.to_N b1)) eqn:C1; [|discriminate].
    apply is_continuation_true in C1.
    apply prepend_ok in Hdec. destruct Hdec as (s' & Hs' & ->).
    apply (encode_step _ [b0; b1]); [apply encode_code_point_2; lia|].
    apply IH; [cbn [List.length] in Hlen; lia|exact Hs']. }
  destruct (N.ltb_spec (Byte.to_N b0) 0xF0) as [L4|L4].
  { destruct t0 as [|b1 [|b2 t2]]; try discriminate.
    destruct (is_continuation (Byte.to_N b1)) eqn:C1; [|discriminate].
    destruct (is_continuation (Byte.to_N b2)) eqn:C2; [|discriminate].
    apply is_continuation_true in C1, C2. cbn [andb] in Hdec.
    remember ((Byte.to_N b0 - 0xE0) * 4096 + (Byte.to_N b1 - 0x80) * 64
              + (Byte.to_N b2 - 0x80)) as cp eqn:Hcp.
    destruct (N.leb_spec 0x800 cp) as [L5|L5]; [|discriminate].
    destruct (is_surrogate cp) eqn:Hsur; [discriminate|].
    cbn [andb negb] in Hdec.
    apply prepend_ok in Hdec. destruct Hdec as (s' & Hs' & ->).
    apply (encode_step _ [b0; b1; b2]);
      [apply encode_code_point_3; (assumption || lia)|].
    apply IH; [cbn [List.length] in Hlen; lia|exact Hs']. }
  destruct (N.ltb_spec (Byte.to_N b0) 0xF5) as [L6|L6]; [|discriminate].
  destruct t0 as [|b1 [|b2 [|b3 t3]]]; try discriminate.
  destruct (is_continuation (Byte.to_N b1)) eqn:C1; [|discriminate].
  destruct (is_continuation (Byte.to_N b2)) eqn:C2; [|discriminate].
  destruct (is_continuation (Byte.to_N b3)) eqn:C3; [|discriminate].
  apply is_continuation_true in C1, C2, C3. cbn [andb] in Hdec.
  remember ((Byte.to_N b0 - 0xF0) * 262144 + (Byte.to_N b1 - 0x80) * 4096
            + (Byte.to_N b2 - 0x80) * 64 + (Byte.to_N b3 - 0x80)) as cp eqn:Hcp.
  destruct (N.leb_spec 0x10000 cp) as [L7|L7]; [|discriminate].
  destruct (N.ltb_spec cp 0x110000) as [L8|L8]; [|discriminate].
  cbn [andb] in Hdec.
  apply prepend_ok in Hdec. destruct Hdec as (s' & Hs' & ->).
  apply (encode_step _ [b0; b1; b2; b3]);
    [apply encode_code_point_4; (assumption || lia)|].
  apply IH; [cbn [List.length] in Hlen; lia|exact Hs'].
Qed.

Lemma encode_decode_utf8 (value : bytes) (s : str) :
  decode_utf8 value = Ok s -> encode_utf8 s = Ok value.
Proof. apply (encode_decode_utf8_bounded (List.length value)). lia. Qed.

Lemma decode_utf8_error (value : bytes) (e : error) :
  decode_utf8 value = Err e -> e = UnicodeDecodeError.
Proof.
  remember (List.length value) as n eqn:Hn.
  assert (Hlen : (List.length value <= n)%nat) by lia. clear Hn.
  revert value Hlen. induction n as [|n IH]; intros value Hlen.
  { destruct value; [discriminate|cbn in Hlen; lia]. }
  assert (P : forall cp t, (List.length t <= n)%nat ->
              prepend cp (decode_utf8 t) = Err e -> e = UnicodeDecodeError).
  { intros cp t Ht. destruct (decode_utf8 t) eqn:Et; cbn; [discriminate|].
    intros [= <-]. now apply (IH t). }
  destruct value as [|b0 t0]; [discriminate|].
  cbn [List.length] in Hlen. cbn [decode_utf8].
  repeat match goal with
  | |- context [if ?c then _ else _] => destruct c
  | |- context [match ?l with [] => _ | _ :: _ => _ end] =>
      destruct l; cbn [List.length] in Hlen
  | |- Err _ = Err _ -> _ => now intros [= <-]
  | |- prepend _ _ = Err _ -> _ => apply P; lia
  end.
Qed.

(** ** Dictionaries *)

Lemma bytes_eqb_refl (a : bytes) : bytes_eqb a a = true.
Proof. unfold bytes_eqb. now destruct (list_eq_dec Byte.byte_eq_dec a a). Qed.

Lemma dict_get_set_same (d : dict) (k v : bytes) :
  dict_get (dict_set d k v) k = Ok v.
Proof. cbn [dict_set dict_get]. now rewrite bytes_eqb_refl. Qed.

Lemma dict_get_set_other (d : dict) (k k' v : bytes) :
  bytes_eqb k' k = false -> dict_get (dict_set d k' v) k = dict_get d k.
Proof. intros H. cbn [dict_set dict_get]. now rewrite H. Qed.

(** ** Header sections that encode *)

Lemma encode_headers_error (minimal : bool) (names values : list bytes)
  (e : error) :
  encode_headers minimal names values = Err e -> e = MalformedHeader.
Proof.
  revert values. induction names as [|name names IH]; intros [|value values];
    try discriminate.
  cbn [encode_headers]. unfold check_header_size.
  destruct (len name <=? 65535); [|now intros [= <-]].
  destruct (len value <=? 65535); [|now intros [= <-]].
  cbn [bind].
  destruct (encode_headers minimal names values) eqn:E; [discriminate|].
  cbn [bind]. intros [= <-]. now apply (IH values).
Qed.

Lemma encode_headers_sizes (minimal : bool) (names values : list bytes)
  (section : bytes) :
  List.length names = List.length values ->
  encode_headers minimal names values = Ok section ->
  forall x, In x names \/ In x values -> len x <= 65535.
Proof.
  revert values section.
  induction names as [|name names IH]; intros [|value values] section Hlen;
    try discriminate.
  - intros _ x [[]|[]].
  - cbn [encode_headers]. unfold check_header_size.
    destruct (N.leb_spec (len name) 65535) as [Hn|Hn]; [|discriminate].
    destruct (N.leb_spec (len value) 65535) as [Hv|Hv]; [|discriminate].
    cbn [bind].
    destruct (encode_headers minimal names values) as [tail|] eqn:E;
      [|discriminate].
    intros _ x [[<-|Hx]|[<-|Hx]]; try assumption;
      apply (IH values tail); auto.
Qed.

Lemma encode_headers_fits (minimal : bool) (names values : list bytes) :
  (forall x, In x names \/ In x values -> len x <= 65535) ->
  exists section, encode_headers minimal names values = Ok section.
Proof.
  revert values. induction names as [|name names IH]; intros [|value values] H;
    try (eexists; reflexivity).
  cbn [encode_headers].
  rewrite !check_header_size_ok by (apply H; cbn; auto).
  cbn [bind].
  destruct (IH values) as [tail ->]; [|eexists; reflexivity].
  intros x [Hx|Hx]; apply H; cbn; auto.
Qed.

Lemma encode_headers_too_long (minimal : bool) (names values : list bytes)
  (x : bytes) :
  List.length names = List.length values ->
  In x names \/ In x values -> 65535 < len x ->
  encode_headers minimal names values = Err MalformedHeader.
Proof.
  intros Hlen Hin Hx.
  destruct (encode_headers minimal names values) as [section|e] eqn:E.
  - pose proof (encode_headers_sizes _ _ _ _ Hlen E x Hin). lia.
  - f_equal. eapply encode_headers_error; eassumption.
Qed.

(** ** Frames *)

Lemma type_of_int_of_type (t : BroadcasterToSubscriberWSMessageType) :
  type_of_int (int_of_type t) = Some t.
Proof. now destruct t. Qed.

Lemma parse_frame_head (minimal : bool)
  (t : BroadcasterToSubscriberWSMessageType) (payload : bytes) :
  parse_frame (byte_of_N (flags_of minimal) :: byte_of_N (int_of_type t)
               :: payload)
  = parse_message (flags_of minimal) t payload.
Proof.
  cbn [parse_frame].
  rewrite (to_N_byte_of_N_small (flags_of minimal))
    by (destruct minimal; reflexivity).
  rewrite (to_N_byte_of_N_small (int_of_type t)) by (destruct t; reflexivity).
  now rewrite type_of_int_of_type.
Qed.

Lemma parse_simple_headers_encoded (minimal : bool)
  (names values : list bytes) (section rest : bytes) :
  List.length names = List.length values ->
  encode_headers minimal names values = Ok section ->
  parse_simple_headers (flags_of minimal) (section ++ rest) names
  = Ok (bound names values [], rest).
Proof.
  intros Hlen Henc. unfold parse_simple_headers.
  replace (negb (N.land (flags_of minimal) MINIMAL_HEADERS =? 0)) with minimal
    by now destruct minimal.
  now apply decode_encode_headers.
Qed.

Lemma serialize_simple_message_section
  (t : BroadcasterToSubscriberWSMessageType) (names values : list bytes)
  (payload : bytes) (minimal : bool) :
  serialize_simple_message t names values payload minimal
  = (section <- encode_headers minimal names values ;;
     Ok (byte_of_N (flags_of minimal) :: byte_of_N (int_of_type t)
         :: section ++ payload)).
Proof. reflexivity. Qed.

(** ** What each parser makes of a cleanly encoded header section *)

Ltac name_size := vm_compute; discriminate.

Ltac sizes :=
  let x := fresh "x" in
  let H := fresh "H" in
  intros x [H|H];
  cbv [In confirm_notify._headers continue_notify._headers
       confirm_subscribe._exact_headers confirm_subscribe._glob_headers
       confirm_unsubscribe._exact_headers confirm_unsubscribe._glob_headers]
    in H;
  repeat match type of H with
  | _ \/ _ => destruct H as [H|H]
  | False => destruct H
  end; subst x; (assumption || name_size).

Lemma confirm_notify_parse_encoded (minimal : bool)
  (id sb section rest : bytes) :
  encode_headers minimal confirm_notify._headers [id; sb] = Ok section ->
  confirm_notify.B2S_ConfirmNotifyParser.parse (flags_of minimal)
    CONFIRM_NOTIFY (section ++ rest)
  = if 64 <? len id
    then Err (ValueError "x-identifier must be at most 64 bytes")
    else if 8 <? len sb
    then Err (ValueError "x-subscribers must be at most 8 bytes")
    else Ok {| confirm_notify.type := CONFIRM_NOTIFY;
               confirm_notify.identifier := id;
               confirm_notify.subscribers := from_bytes_big sb |}.
Proof.
  intros Henc. unfold confirm_notify.B2S_ConfirmNotifyParser.parse.
  change (negb (type_eqb CONFIRM_NOTIFY CONFIRM_NOTIFY)) with false.
  cbv iota.
  rewrite (parse_simple_headers_encoded minimal confirm_notify._headers
             [id; sb] section rest eq_refl Henc).
  cbn [bind]. unfold bound, confirm_notify._headers.
  cbn [combine fold_left fst snd].
  rewrite dict_get_set_other by reflexivity.
  rewrite !dict_get_set_same. reflexivity.
Qed.

Lemma continue_notify_parse_encoded (minimal : bool)
  (id pb section rest : bytes) :
  encode_headers minimal continue_notify._headers [id; pb] = Ok section ->
  continue_notify.B2S_ContinueNotifyParser.parse (flags_of minimal)
    CONTINUE_NOTIFY (section ++ rest)
  = if 64 <? len id
    then Err (ValueError "x-identifier must be at most 64 bytes")
    else if 8 <? len pb
    then Err (ValueError "x-part-id must be at most 8 bytes")
    else Ok {| continue_notify.type := CONTINUE_NOTIFY;
               continue_notify.identifier := id;
               continue_notify.part_id := from_bytes_big pb |}.
Proof.
  intros Henc. unfold continue_notify.B2S_ContinueNotifyParser.parse.
  change (negb (type_eqb CONTINUE_NOTIFY CONTINUE_NOTIFY)) with false.
  cbv iota.
  rewrite (parse_simple_headers_encoded minimal continue_notify._headers
             [id; pb] section rest eq_refl Henc).
  cbn [bind]. unfold bound, continue_notify._headers.
  cbn [combine fold_left fst snd].
  rewrite dict_get_set_other by reflexivity.
  rewrite !dict_get_set_same. reflexivity.
Qed.

Lemma confirm_subscribe_exact_parse_encoded (minimal : bool)
  (topic section rest : bytes) :
  encode_headers minimal confirm_subscribe._exact_headers [topic] = Ok section ->
  confirm_subscribe.B2S_ConfirmSubscribeExactParser.parse (flags_of minimal)
    CONFIRM_SUBSCRIBE_EXACT (section ++ rest)
  = Ok {| confirm_subscribe.type := CONFIRM_SUBSCRIBE_EXACT;
          confirm_subscribe.topic := topic |}.
Proof.
  intros Henc. unfold confirm_subscribe.B2S_ConfirmSubscribeExactParser.parse.
  change (negb (type_eqb CONFIRM_SUBSCRIBE_EXACT CONFIRM_SUBSCRIBE_EXACT))
    with false.
  cbv iota.
  rewrite (parse_simple_headers_encoded minimal
             confirm_subscribe._exact_headers [topic] section rest eq_refl Henc).
  cbn [bind]. unfold bound, confirm_subscribe._exact_headers.
  cbn [combine fold_left fst snd].
  rewrite dict_get_set_same. reflexivity.
Qed.

Lemma confirm_unsubscribe_exact_parse_encoded (minimal : bool)
  (topic section rest : bytes) :
  encode_headers minimal confirm_unsubscribe._exact_headers [topic]
  = Ok section ->
  confirm_unsubscribe.B2S_ConfirmUnsubscribeExactParser.parse
    (flags_of minimal) CONFIRM_UNSUBSCRIBE_EXACT (section ++ rest)
  = Ok {| confirm_unsubscribe.type := CONFIRM_UNSUBSCRIBE_EXACT;
          confirm_unsubscribe.topic := topic |}.
Proof.
  intros Henc.
  unfold confirm_unsubscribe.B2S_ConfirmUnsubscribeExactParser.parse.
  change (negb (type_eqb CONFIRM_UNSUBSCRIBE_EXACT CONFIRM_UNSUBSCRIBE_EXACT))
    with false.
  cbv iota.
  rewrite (parse_simple_headers_encoded minimal
             confirm_unsubscribe._exact_headers [topic] section rest eq_refl
             Henc).
  cbn [bind]. unfold bound, confirm_unsubscribe._exact_headers.
  cbn [combine fold_left fst snd].
  rewrite dict_get_set_same. reflexivity.
Qed.

Lemma confirm_subscribe_glob_parse_encoded (minimal : bool)
  (value section rest : bytes) :
  encode_headers minimal confirm_subscribe._glob_headers [value] = Ok section ->
  confirm_subscribe.B2S_ConfirmSubscribeGlobParser.parse (flags_of minimal)
    CONFIRM_SUBSCRIBE_GLOB (section ++ rest)
  = (glob <- decode_utf8 value ;;
     Ok {| confirm_subscribe.glob_type := CONFIRM_SUBSCRIBE_GLOB;
           confirm_subscribe.glob := glob |}).
Proof.
  intros Henc. unfold confirm_subscribe.B2S_ConfirmSubscribeGlobParser.parse.
  change (negb (type_eqb CONFIRM_SUBSCRIBE_GLOB CONFIRM_SUBSCRIBE_GLOB))
    with false.
  cbv iota.
  rewrite (parse_simple_headers_encoded minimal
             confirm_subscribe._glob_headers [value] section rest eq_refl Henc).
  cbn [bind]. unfold bound, confirm_subscribe._glob_headers.
  cbn [combine fold_left fst snd].
  rewrite dict_get_set_same. reflexivity.
Qed.

Lemma confirm_unsubscribe_glob_parse_encoded (minimal : bool)
  (value section rest : bytes) :
  encode_headers minimal confirm_unsubscribe._glob_headers [value]
  = Ok section ->
  confirm_unsubscribe.B2S_ConfirmUnsubscribeGlobParser.parse
    (flags_of minimal) CONFIRM_UNSUBSCRIBE_GLOB (section ++ rest)
  = (glob <- decode_utf8 value ;;
     Ok {| confirm_unsubscribe.glob_type := CONFIRM_UNSUBSCRIBE_GLOB;
           confirm_unsubscribe.glob := glob |}).
Proof.
  intros Henc.
  unfold confirm_unsubscribe.B2S_ConfirmUnsubscribeGlobParser.parse.
  change (negb (type_eqb CONFIRM_UNSUBSCRIBE_GLOB CONFIRM_UNSUBSCRIBE_GLOB))
    with false.
  cbv iota.
  rewrite (parse_simple_headers_encoded minimal
             confirm_unsubscribe._glob_headers [value] section rest eq_refl
             Henc).
  cbn [bind]. unfold bound, confirm_unsubscribe._glob_headers.
  cbn [combine fold_left fst snd].
  rewrite dict_get_set_same. reflexivity.
Qed.

(** ** Serializing, then parsing the frame *)

Lemma type_eqb_eq (x y : BroadcasterToSubscriberWSMessageType) :
  type_eqb x y = true -> x = y.
Proof. now destruct x, y. Qed.

Lemma roundtrip_confirm_notify (m : confirm_notify.B2S_ConfirmNotify)
  (minimal : bool) :
  m.(confirm_notify.type) = CONFIRM_NOTIFY ->
  len m.(confirm_notify.identifier) <= 65535 ->
  len (int_to_minimal_unsigned m.(confirm_notify.subscribers)) <= 65535 ->
  roundtrip (ConfirmNotify m) minimal
  = if 64 <? len m.(confirm_notify.identifier)
    then Err (ValueError "x-identifier must be at most 64 bytes")
    else if 8 <? len (int_to_minimal_unsigned m.(confirm_notify.subscribers))
    then Err (ValueError "x-subscribers must be at most 8 bytes")
    else Ok (ConfirmNotify m).
Proof.
  destruct m as [t id n].
  cbn [confirm_notify.type confirm_notify.identifier confirm_notify.subscribers].
  intros -> Hid Hn.
  unfold roundtrip, serialize_message,
    confirm_notify.serialize_b2s_confirm_notify.
  cbn [confirm_notify.type confirm_notify.identifier confirm_notify.subscribers].
  rewrite serialize_simple_message_section.
  destruct (encode_headers_fits minimal confirm_notify._headers
              [id; int_to_minimal_unsigned n]) as [section Hs]; [sizes|].
  rewrite Hs. cbn [bind].
  rewrite parse_frame_head.
  change (parse_message (flags_of minimal) CONFIRM_NOTIFY (section ++ []))
    with (tagged ConfirmNotify
            (confirm_notify.B2S_ConfirmNotifyParser.parse (flags_of minimal)
               CONFIRM_NOTIFY (section ++ []))).
  rewrite (confirm_notify_parse_encoded minimal _ _ _ _ Hs).
  destruct (64 <? len id); [reflexivity|].
  destruct (8 <? len (int_to_minimal_unsigned n)); [reflexivity|].
  cbn [tagged bind]. now rewrite from_bytes_int_to_minimal_unsigned.
Qed.

Lemma roundtrip_continue_notify (m : continue_notify.B2S_ContinueNotify)
  (minimal : bool) :
  m.(continue_notify.type) = CONTINUE_NOTIFY ->
  len m.(continue_notify.identifier) <= 65535 ->
  len (int_to_minimal_unsigned m.(continue_notify.part_id)) <= 65535 ->
  roundtrip (ContinueNotify m) minimal
  = if 64 <? len m.(continue_notify.identifier)
    then Err (ValueError "x-identifier must be at most 64 bytes")
    else if 8 <? len (int_to_minimal_unsigned m.(continue_notify.part_id))
    then Err (ValueError "x-part-id must be at most 8 bytes")
    else Ok (ContinueNotify m).
Proof.
  destruct m as [t id n].
  cbn [continue_notify.type continue_notify.identifier continue_notify.part_id].
  intros -> Hid Hn.
  unfold roundtrip, serialize_message,
    continue_notify.serialize_b2s_continue_notify.
  cbn [continue_notify.type continue_notify.identifier continue_notify.part_id].
  rewrite serialize_simple_message_section.
  destruct (encode_headers_fits minimal continue_notify._headers
              [id; int_to_minimal_unsigned n]) as [section Hs]; [sizes|].
  rewrite Hs. cbn [bind].
  rewrite parse_frame_head.
  change (parse_message (flags_of minimal) CONTINUE_NOTIFY (section ++ []))
    with (tagged ContinueNotify
            (continue_notify.B2S_ContinueNotifyParser.parse (flags_of minimal)
               CONTINUE_NOTIFY (section ++ []))).
  rewrite (continue_notify_parse_encoded minimal _ _ _ _ Hs).
  destruct (64 <? len id); [reflexivity|].
  destruct (8 <? len (int_to_minimal_unsigned n)); [reflexivity|].
  cbn [tagged bind]. now rewrite from_bytes_int_to_minimal_unsigned.
Qed.

Lemma roundtrip_confirm_subscribe_exact
  (m : confirm_subscribe.B2S_ConfirmSubscribeExact) (minimal : bool) :
  m.(confirm_subscribe.type) = CONFIRM_SUBSCRIBE_EXACT ->
  len m.(confirm_subscribe.topic) <= 65535 ->
  roundtrip (ConfirmSubscribeExact m) minimal = Ok (ConfirmSubscribeExact m).
Proof.
  destruct m as [t topic]. cbn [confirm_subscribe.type confirm_subscribe.topic].
  intros -> Htopic.
  unfold roundtrip, serialize_message,
    confirm_subscribe.serialize_b2s_confirm_subscribe_exact.
  cbn [confirm_subscribe.type confirm_subscribe.topic].
  rewrite serialize_simple_message_section.
  destruct (encode_headers_fits minimal confirm_subscribe._exact_headers
              [topic]) as [section Hs]; [sizes|].
  rewrite Hs. cbn [bind].
  rewrite parse_frame_head.
  change (parse_message (flags_of minimal) CONFIRM_SUBSCRIBE_EXACT
            (section ++ []))
    with (tagged ConfirmSubscribeExact
            (confirm_subscribe.B2S_ConfirmSubscribeExactParser.parse
               (flags_of minimal) CONFIRM_SUBSCRIBE_EXACT (section ++ []))).
  now rewrite (confirm_subscribe_exact_parse_encoded minimal _ _ _ Hs).
Qed.

Lemma roundtrip_confirm_unsubscribe_exact
  (m : confirm_unsubscribe.B2S_ConfirmUnsubscribeExact) (minimal : bool) :
  m.(confirm_unsubscribe.type) = CONFIRM_UNSUBSCRIBE_EXACT ->
  len m.(confirm_unsubscribe.topic) <= 65535 ->
  roundtrip (ConfirmUnsubscribeExact m) minimal
  = Ok (ConfirmUnsubscribeExact m).
Proof.
  destruct m as [t topic].
  cbn [confirm_unsubscribe.type confirm_unsubscribe.topic].
  intros -> Htopic.
  unfold roundtrip, serialize_message,
    confirm_unsubscribe.serialize_b2s_confirm_unsubscribe_exact.
  cbn [confirm_unsubscribe.type confirm_unsubscribe.topic].
  rewrite serialize_simple_message_section.
  destruct (encode_headers_fits minimal confirm_unsubscribe._exact_headers
              [topic]) as [section Hs]; [sizes|].
  rewrite Hs. cbn [bind].
  rewrite parse_frame_head.
  change (parse_message (flags_of minimal) CONFIRM_UNSUBSCRIBE_EXACT
            (section ++ []))
    with (tagged ConfirmUnsubscribeExact
            (confirm_unsubscribe.B2S_ConfirmUnsubscribeExactParser.parse
               (flags_of minimal) CONFIRM_UNSUBSCRIBE_EXACT (section ++ []))).
  now rewrite (confirm_unsubscribe_exact_parse_encoded minimal _ _ _ Hs).
Qed.

Lemma roundtrip_confirm_subscribe_glob
  (m : confirm_subscribe.B2S_ConfirmSubscribeGlob) (minimal : bool)
  (value : bytes) :
  m.(confirm_subscribe.glob_type) = CONFIRM_SUBSCRIBE_GLOB ->
  encode_utf8 m.(confirm_subscribe.glob) = Ok value ->
  len value <= 65535 ->
  roundtrip (ConfirmSubscribeGlob m) minimal = Ok (ConfirmSubscribeGlob m).
Proof.
  destruct m as [t glob].
  cbn [confirm_subscribe.glob_type confirm_subscribe.glob].
  intros -> Hvalue Hfits.
  unfold roundtrip, serialize_message,
    confirm_subscribe.serialize_b2s_confirm_subscribe_glob.
  cbn [confirm_subscribe.glob_type confirm_subscribe.glob].
  rewrite Hvalue. cbn [bind].
  rewrite serialize_simple_message_section.
  destruct (encode_headers_fits minimal confirm_subscribe._glob_headers
              [value]) as [section Hs]; [sizes|].
  rewrite Hs. cbn [bind].
  rewrite parse_frame_head.
  change (parse_message (flags_of minimal) CONFIRM_SUBSCRIBE_GLOB
            (section ++ []))
    with (tagged ConfirmSubscribeGlob
            (confirm_subscribe.B2S_ConfirmSubscribeGlobParser.parse
               (flags_of minimal) CONFIRM_SUBSCRIBE_GLOB (section ++ []))).
  rewrite (confirm_subscribe_glob_parse_encoded minimal _ _ _ Hs).
  now rewrite (decode_encode_utf8 _ _ Hvalue).
Qed.

Lemma roundtrip_confirm_unsubscribe_glob
  (m : confirm_unsubscribe.B2S_ConfirmUnsubscribeGlob) (minimal : bool)
  (value : bytes) :
  m.(confirm_unsubscribe.glob_type) = CONFIRM_UNSUBSCRIBE_GLOB ->
  encode_utf8 m.(confirm_unsubscribe.glob) = Ok value ->
  len value <= 65535 ->
  roundtrip (ConfirmUnsubscribeGlob m) minimal
  = Ok (ConfirmUnsubscribeGlob m).
Proof.
  destruct m as [t glob].
  cbn [confirm_unsubscribe.glob_type confirm_unsubscribe.glob].
  intros -> Hvalue Hfits.
  unfold roundtrip, serialize_message,
    confirm_unsubscribe.serialize_b2s_confirm_unsubscribe_glob.
  cbn [confirm_unsubscribe.glob_type confirm_unsubscribe.glob].
  rewrite Hvalue. cbn [bind].
  rewrite serialize_simple_message_section.
  destruct (encode_headers_fits minimal confirm_unsubscribe._glob_headers
              [value]) as [section Hs]; [sizes|].
  rewrite Hs. cbn [bind].
  rewrite parse_frame_head.
  change (parse_message (flags_of minimal) CONFIRM_UNSUBSCRIBE_GLOB
            (section ++ []))
    with (tagged ConfirmUnsubscribeGlob
            (confirm_unsubscribe.B2S_ConfirmUnsubscribeGlobParser.parse
               (flags_of minimal) CONFIRM_UNSUBSCRIBE_GLOB (section ++ []))).
  rewrite (confirm_unsubscribe_glob_parse_encoded minimal _ _ _ Hs).
  now rewrite (decode_encode_utf8 _ _ Hvalue).
Qed.

(** ** The round-trip law *)

Lemma utf8_fits_value (s : str) :
  utf8_fits s = true ->
  exists value, encode_utf8 s = Ok value /\ len value <= 65535.
Proof.
  unfold utf8_fits. destruct (encode_utf8 s) as [value|]; [|discriminate].
  intros H. apply N.leb_le in H. eauto.
Qed.

Lemma u64_fits (n : N) :
  n < 2 ^ 64 -> len (int_to_minimal_unsigned n) <= 65535.
Proof. intros H. pose proof (len_int_to_minimal_unsigned_u64 n H). lia. Qed.

Lemma roundtrip_valid (msg : B2S_Message) (minimal : bool) :
  valid_message msg = true -> roundtrip msg minimal = Ok msg.
Proof.
  destruct msg as [m|m|m|m|m|m]; cbn [valid_message]; intros H;
    repeat (apply andb_prop in H; let H' := fresh "H" in destruct H as [H H']).
  - apply roundtrip_confirm_subscribe_exact;
      [now apply type_eqb_eq | now apply N.leb_le].
  - destruct (utf8_fits_value _ H0) as (value & Hv & Hfit).
    apply (roundtrip_confirm_subscribe_glob m minimal value);
      [now apply type_eqb_eq | assumption | assumption].
  - apply roundtrip_confirm_unsubscribe_exact;
      [now apply type_eqb_eq | now apply N.leb_le].
  - destruct (utf8_fits_value _ H0) as (value & Hv & Hfit).
    apply (roundtrip_confirm_unsubscribe_glob m minimal value);
      [now apply type_eqb_eq | assumption | assumption].
  - apply N.leb_le in H1. apply N.ltb_lt in H0.
    rewrite roundtrip_confirm_notify;
      [| now apply type_eqb_eq | lia | now apply u64_fits].
    pose proof (len_int_to_minimal_unsigned_u64 _ H0).
    replace (64 <? len (confirm_notify.identifier m)) with false
      by (symmetry; apply N.ltb_ge; lia).
    now replace (8 <? len (int_to_minimal_unsigned (confirm_notify.subscribers m)))
      with false by (symmetry; apply N.ltb_ge; lia).
  - apply N.leb_le in H1. apply N.ltb_lt in H0.
    rewrite roundtrip_continue_notify;
      [| now apply type_eqb_eq | lia | now apply u64_fits].
    pose proof (len_int_to_minimal_unsigned_u64 _ H0).
    replace (64 <? len (continue_notify.identifier m)) with false
      by (symmetry; apply N.ltb_ge; lia).
    now replace (8 <? len (int_to_minimal_unsigned (continue_notify.part_id m)))
      with false by (symmetry; apply N.ltb_ge; lia).
Qed.

Lemma roundtrip_ok (msg parsed : B2S_Message) (minimal : bool) :
  roundtrip msg minimal = Ok parsed ->
  exists frame,
    serialize_message msg minimal = Ok frame /\ parse_frame frame = Ok parsed.
Proof.
  unfold roundtrip.
  destruct (serialize_message msg minimal) as [frame|]; [|discriminate].
  cbn [bind]. eauto.
Qed.

(** C1.  For each of the six message kinds and in both header modes, a
    valid message serializes to a frame, and parsing that frame gives the
    message back. *)
Theorem parse_serialize_roundtrip (msg : B2S_Message) (minimal_headers : bool) :
  valid_message msg = true ->
  exists frame,
    serialize_message msg minimal_headers = Ok frame
    /\ parse_frame frame = Ok msg.
Proof.
  intros Hvalid. apply roundtrip_ok.
  destruct msg; now apply roundtrip_valid.
Qed.

Lemma parse_serialize_roundtrip_witness :
  exists frame,
    serialize_message sample_glob false = Ok frame
    /\ parse_frame frame = Ok sample_glob.
Proof. apply parse_serialize_roundtrip. reflexivity. Defined.

(** C2.  For a valid message, parsing its explicit-mode frame and parsing
    its minimal-mode frame give the same typed value. *)
Theorem minimal_explicit_equivalence (msg : B2S_Message) :
  valid_message msg = true ->
  exists explicit minimal parsed,
    serialize_message msg false = Ok explicit
    /\ serialize_message msg true = Ok minimal
    /\ parse_frame explicit = Ok parsed
    /\ parse_frame minimal = Ok parsed.
Proof.
  intros Hvalid.
  destruct (roundtrip_ok msg msg false (roundtrip_valid msg false Hvalid))
    as (explicit & He & Hpe).
  destruct (roundtrip_ok msg msg true (roundtrip_valid msg true Hvalid))
    as (minimal & Hm & Hpm).
  exists explicit, minimal, msg. auto.
Qed.

Lemma minimal_explicit_equivalence_witness :
  exists explicit minimal parsed,
    serialize_message sample_confirm_notify false = Ok explicit
    /\ serialize_message sample_confirm_notify true = Ok minimal
    /\ parse_frame explicit = Ok parsed
    /\ parse_frame minimal = Ok parsed.
Proof. apply minimal_explicit_equivalence. reflexivity. Defined.

(** ** Validation in the notify parsers *)

Lemma confirm_notify_parse_decoded (flags : PubSubStatefulMessageFlags)
  (payload rest : bytes) (headers : dict) (id num : bytes) :
  parse_simple_headers flags payload confirm_notify._headers
  = Ok (headers, rest) ->
  dict_get headers (lit "x-identifier") = Ok id ->
  dict_get headers (lit "x-subscribers") = Ok num ->
  confirm_notify.B2S_ConfirmNotifyParser.parse flags CONFIRM_NOTIFY payload
  = if 64 <? len id
    then Err (ValueError "x-identifier must be at most 64 bytes")
    else if 8 <? len num
    then Err (ValueError "x-subscribers must be at most 8 bytes")
    else Ok {| confirm_notify.type := CONFIRM_NOTIFY;
               confirm_notify.identifier := id;
               confirm_notify.subscribers := from_bytes_big num |}.
Proof.
  intros Hh Hid Hnum. unfold confirm_notify.B2S_ConfirmNotifyParser.parse.
  change (negb (type_eqb CONFIRM_NOTIFY CONFIRM_NOTIFY)) with false.
  cbv iota. rewrite Hh. cbn [bind]. rewrite Hid. cbn [bind].
  destruct (64 <? len id); [reflexivity|]. now rewrite Hnum.
Qed.

Lemma continue_notify_parse_decoded (flags : PubSubStatefulMessageFlags)
  (payload rest : bytes) (headers : dict) (id num : bytes) :
  parse_simple_headers flags payload continue_notify._headers
  = Ok (headers, rest) ->
  dict_get headers (lit "x-identifier") = Ok id ->
  dict_get headers (lit "x-part-id") = Ok num ->
  continue_notify.B2S_ContinueNotifyParser.parse flags CONTINUE_NOTIFY payload
  = if 64 <? len id
    then Err (ValueError "x-identifier must be at most 64 bytes")
    else if 8 <? len num
    then Err (ValueError "x-part-id must be at most 8 bytes")
    else Ok {| continue_notify.type := CONTINUE_NOTIFY;
               continue_notify.identifier := id;
               continue_notify.part_id := from_bytes_big num |}.
Proof.
  intros Hh Hid Hnum. unfold continue_notify.B2S_ContinueNotifyParser.parse.
  change (negb (type_eqb CONTINUE_NOTIFY CONTINUE_NOTIFY)) with false.
  cbv iota. rewrite Hh. cbn [bind]. rewrite Hid. cbn [bind].
  destruct (64 <? len id); [reflexivity|]. now rewrite Hnum.
Qed.

Lemma size_checks {A} (id num : bytes) (e1 e2 : string) (ok : A)
  (r : result A) :
  r = (if 64 <? len id then Err (ValueError e1)
       else if 8 <? len num then Err (ValueError e2) else Ok ok) ->
  (is_ok r = false <-> 64 < len id \/ 8 < len num)
  /\ (64 < len id -> r = Err (ValueError e1))
  /\ (len id <= 64 -> 8 < len num -> r = Err (ValueError e2))
  /\ (len id <= 64 -> len num <= 8 -> r = Ok ok).
Proof.
  intros ->.
  destruct (N.ltb_spec 64 (len id)) as [Hi|Hi];
    [|destruct (N.ltb_spec 8 (len num)) as [Hn|Hn]]; cbn [is_ok];
    repeat split; intros; try reflexivity; try lia; try discriminate; auto;
    match goal with H : _ \/ _ |- _ => destruct H; lia end.
Qed.

(** C3.  On a header section that decodes and holds the expected headers,
    the CONFIRM_NOTIFY parser fails exactly when x-identifier is over 64
    bytes or x-subscribers is over 8 bytes, and the CONTINUE_NOTIFY parser
    exactly when x-identifier is over 64 bytes or x-part-id is over 8
    bytes; the failure is the validation error that names the header, the
    identifier being checked first; in every other case the typed message
    is returned. *)
Theorem notify_parsers_validation (flags : N) (payload rest : bytes)
  (headers : dict) (id num : bytes) :
  (parse_simple_headers flags payload confirm_notify._headers
   = Ok (headers, rest) ->
   dict_get headers (lit "x-identifier") = Ok id ->
   dict_get headers (lit "x-subscribers") = Ok num ->
   let r := confirm_notify.B2S_ConfirmNotifyParser.parse flags CONFIRM_NOTIFY
              payload in
   (is_ok r = false <-> 64 < len id \/ 8 < len num)
   /\ (64 < len id ->
       r = Err (ValueError "x-identifier must be at most 64 bytes"))
   /\ (len id <= 64 -> 8 < len num ->
       r = Err (ValueError "x-subscribers must be at most 8 bytes"))
   /\ (len id <= 64 -> len num <= 8 ->
       r = Ok {| confirm_notify.type := CONFIRM_NOTIFY;
                 confirm_notify.identifier := id;
                 confirm_notify.subscribers := from_bytes_big num |}))
  /\
  (parse_simple_headers flags payload continue_notify._headers
   = Ok (headers, rest) ->
   dict_get headers (lit "x-identifier") = Ok id ->
   dict_get headers (lit "x-part-id") = Ok num ->
   let r := continue_notify.B2S_ContinueNotifyParser.parse flags
              CONTINUE_NOTIFY payload in
   (is_ok r = false <-> 64 < len id \/ 8 < len num)
   /\ (64 < len id ->
       r = Err (ValueError "x-identifier must be at most 64 bytes"))
   /\ (len id <= 64 -> 8 < len num ->
       r = Err (ValueError "x-part-id must be at most 8 bytes"))
   /\ (len id <= 64 -> len num <= 8 ->
       r = Ok {| continue_notify.type := CONTINUE_NOTIFY;
                 continue_notify.identifier := id;
                 continue_notify.part_id := from_bytes_big num |})).
Proof.
  split; intros Hh Hid Hnum r; apply size_checks; subst r.
  - now apply (confirm_notify_parse_decoded flags payload rest headers).
  - now apply (continue_notify_parse_decoded flags payload rest headers).
Qed.

Lemma notify_parsers_validation_witness :
  confirm_notify.B2S_ConfirmNotifyParser.parse 0 CONFIRM_NOTIFY nine_byte_count
  = Err (ValueError "x-subscribers must be at most 8 bytes")
  /\ continue_notify.B2S_ContinueNotifyParser.parse 1 CONTINUE_NOTIFY part_two
     = Ok {| continue_notify.type := CONTINUE_NOTIFY;
             continue_notify.identifier := lit "id";
             continue_notify.part_id := 2 |}.
Proof.
  split.
  - refine (proj1 (proj2 (proj2 (proj1
      (notify_parsers_validation 0 nine_byte_count []
         [(lit "x-subscribers", [x01; x00; x00; x00; x00; x00; x00; x00; x00]);
          (lit "x-identifier", lit "id")]
         (lit "id") [x01; x00; x00; x00; x00; x00; x00; x00; x00])
      eq_refl eq_refl eq_refl))) _ _); vm_compute; congruence.
  - refine (proj2 (proj2 (proj2 (proj2
      (notify_parsers_validation 1 part_two []
         [(lit "x-part-id", [x02]); (lit "x-identifier", lit "id")]
         (lit "id") [x02])
      eq_refl eq_refl eq_refl))) _ _); vm_compute; congruence.
Defined.

(** ** Header sections, written out *)

Lemma encode_headers_section (minimal : bool) (names values : list bytes)
  (section : bytes) :
  encode_headers minimal names values = Ok section ->
  section = header_section minimal names values.
Proof.
  revert values section.
  induction names as [|name names IH]; intros [|value values] section;
    cbn [encode_headers header_section]; try (intros H; now apply Ok_inj in H).
  destruct (check_header_size name); [|discriminate].
  destruct (check_header_size value); [|discriminate].
  cbn [bind].
  destruct (encode_headers minimal names values) as [tail|] eqn:E;
    [|discriminate].
  cbn [bind]. intros H. apply Ok_inj in H. subst section.
  now rewrite (IH values tail E).
Qed.

Lemma serialize_simple_message_fits
  (t : BroadcasterToSubscriberWSMessageType) (names values : list bytes)
  (minimal : bool) :
  (forall x, In x names \/ In x values -> len x <= 65535) ->
  serialize_simple_message t names values [] minimal
  = Ok (frame_of minimal t names values).
Proof.
  intros H. rewrite serialize_simple_message_section.
  destruct (encode_headers_fits minimal names values H) as [section Hs].
  rewrite Hs. cbn [bind]. rewrite app_nil_r.
  now rewrite (encode_headers_section _ _ _ _ Hs).
Qed.

(** ** The x-glob header *)

Lemma confirm_subscribe_glob_parse_decoded (flags : PubSubWSMessageFlags)
  (payload rest : bytes) (headers : dict) (value : bytes) :
  parse_simple_headers flags payload confirm_subscribe._glob_headers
  = Ok (headers, rest) ->
  dict_get headers (lit "x-glob") = Ok value ->
  confirm_subscribe.B2S_ConfirmSubscribeGlobParser.parse flags
    CONFIRM_SUBSCRIBE_GLOB payload
  = (glob <- decode_utf8 value ;;
     Ok {| confirm_subscribe.glob_type := CONFIRM_SUBSCRIBE_GLOB;
           confirm_subscribe.glob := glob |}).
Proof.
  intros Hh Hv. unfold confirm_subscribe.B2S_ConfirmSubscribeGlobParser.parse.
  change (negb (type_eqb CONFIRM_SUBSCRIBE_GLOB CONFIRM_SUBSCRIBE_GLOB))
    with false.
  cbv iota. rewrite Hh. cbn [bind]. now rewrite Hv.
Qed.

Lemma confirm_unsubscribe_glob_parse_decoded (flags : PubSubWSMessageFlags)
  (payload rest : bytes) (headers : dict) (value : bytes) :
  parse_simple_headers flags payload confirm_unsubscribe._glob_headers
  = Ok (headers, rest) ->
  dict_get headers (lit "x-glob") = Ok value ->
  confirm_unsubscribe.B2S_ConfirmUnsubscribeGlobParser.parse flags
    CONFIRM_UNSUBSCRIBE_GLOB payload
  = (glob <- decode_utf8 value ;;
     Ok {| confirm_unsubscribe.glob_type := CONFIRM_UNSUBSCRIBE_GLOB;
           confirm_unsubscribe.glob := glob |}).
Proof.
  intros Hh Hv.
  unfold confirm_unsubscribe.B2S_ConfirmUnsubscribeGlobParser.parse.
  change (negb (type_eqb CONFIRM_UNSUBSCRIBE_GLOB CONFIRM_UNSUBSCRIBE_GLOB))
    with false.
  cbv iota. rewrite Hh. cbn [bind]. now rewrite Hv.
Qed.

(** How a parser that decodes [value] as UTF-8 and wraps the text behaves:
    it returns the text whose UTF-8 encoding [value] is, and fails with a
    decoding error when [value] encodes no text. *)
Lemma utf8_field {A} (value : bytes) (wrap : str -> A) (text : A -> str)
  (r : result A) :
  (forall s, text (wrap s) = s) ->
  r = (glob <- decode_utf8 value ;; Ok (wrap glob)) ->
  (forall s, encode_utf8 s = Ok value -> r = Ok (wrap s))
  /\ (forall m, r = Ok m -> encode_utf8 (text m) = Ok value)
  /\ ((forall s, encode_utf8 s <> Ok value) -> r = Err UnicodeDecodeError).
Proof.
  intros Htext ->. repeat split.
  - intros s Hs. now rewrite (decode_encode_utf8 s value Hs).
  - intros m. destruct (decode_utf8 value) as [s|] eqn:E; [|discriminate].
    cbn [bind]. intros H. apply Ok_inj in H. subst m. rewrite Htext.
    now apply encode_decode_utf8.
  - intros Hnone. destruct (decode_utf8 value) as [s|e] eqn:E.
    + exfalso. apply (Hnone s). now apply encode_decode_utf8.
    + cbn [bind]. f_equal. now apply (decode_utf8_error value).
Qed.

(** C7.  The x-glob header carries UTF-8 text.  On a header section that
    decodes and holds x-glob, both glob parsers return the text whose UTF-8
    encoding the header value is, whatever they return has the header value
    as its UTF-8 encoding, and they fail with a decoding error when the
    value is the UTF-8 encoding of no text; both glob serializers put the
    UTF-8 encoding of the glob field into the frame as the x-glob value. *)
Theorem glob_header_is_utf8 (flags : N) (payload rest : bytes)
  (headers : dict) (value : bytes) (glob : str) (minimal_headers : bool) :
  (parse_simple_headers flags payload confirm_subscribe._glob_headers
   = Ok (headers, rest) ->
   dict_get headers (lit "x-glob") = Ok value ->
   let r := confirm_subscribe.B2S_ConfirmSubscribeGlobParser.parse flags
              CONFIRM_SUBSCRIBE_GLOB payload in
   (forall s, encode_utf8 s = Ok value ->
      r = Ok {| confirm_subscribe.glob_type := CONFIRM_SUBSCRIBE_GLOB;
                confirm_subscribe.glob := s |})
   /\ (forall m, r = Ok m -> encode_utf8 m.(confirm_subscribe.glob) = Ok value)
   /\ ((forall s, encode_utf8 s <> Ok value) -> r = Err UnicodeDecodeError))
  /\
  (parse_simple_headers flags payload confirm_unsubscribe._glob_headers
   = Ok (headers, rest) ->
   dict_get headers (lit "x-glob") = Ok value ->
   let r := confirm_unsubscribe.B2S_ConfirmUnsubscribeGlobParser.parse flags
              CONFIRM_UNSUBSCRIBE_GLOB payload in
   (forall s, encode_utf8 s = Ok value ->
      r = Ok {| confirm_unsubscribe.glob_type := CONFIRM_UNSUBSCRIBE_GLOB;
                confirm_unsubscribe.glob := s |})
   /\ (forall m, r = Ok m ->
         encode_utf8 m.(confirm_unsubscribe.glob) = Ok value)
   /\ ((forall s, encode_utf8 s <> Ok value) -> r = Err UnicodeDecodeError))
  /\
  (encode_utf8 glob = Ok value -> len value <= 65535 ->
   confirm_subscribe.serialize_b2s_confirm_subscribe_glob
     {| confirm_subscribe.glob_type := CONFIRM_SUBSCRIBE_GLOB;
        confirm_subscribe.glob := glob |} minimal_headers
   = Ok (frame_of minimal_headers CONFIRM_SUBSCRIBE_GLOB
           confirm_subscribe._glob_headers [value])
   /\
   confirm_unsubscribe.serialize_b2s_confirm_unsubscribe_glob
     {| confirm_unsubscribe.glob_type := CONFIRM_UNSUBSCRIBE_GLOB;
        confirm_unsubscribe.glob := glob |} minimal_headers
   = Ok (frame_of minimal_headers CONFIRM_UNSUBSCRIBE_GLOB
           confirm_unsubscribe._glob_headers [value])).
Proof.
  split; [|split].
  - intros Hh Hv r.
    apply (utf8_field value
             (fun s => {| confirm_subscribe.glob_type := CONFIRM_SUBSCRIBE_GLOB;
                          confirm_subscribe.glob := s |})
             confirm_subscribe.glob); [reflexivity|].
    now apply (confirm_subscribe_glob_parse_decoded flags payload rest headers).
  - intros Hh Hv r.
    apply (utf8_field value
             (fun s => {| confirm_unsubscribe.glob_type :=
                            CONFIRM_UNSUBSCRIBE_GLOB;
                          confirm_unsubscribe.glob := s |})
             confirm_unsubscribe.glob); [reflexivity|].
    now apply (confirm_unsubscribe_glob_parse_decoded flags payload rest
                 headers).
  - intros Henc Hfit. split.
    + unfold confirm_subscribe.serialize_b2s_confirm_subscribe_glob.
      cbn [confirm_subscribe.glob confirm_subscribe.glob_type].
      rewrite Henc. cbn [bind]. apply serialize_simple_message_fits. sizes.
    + unfold confirm_unsubscribe.serialize_b2s_confirm_unsubscribe_glob.
      cbn [confirm_unsubscribe.glob confirm_unsubscribe.glob_type].
      rewrite Henc. cbn [bind]. apply serialize_simple_message_fits. sizes.
Qed.

Lemma glob_header_is_utf8_witness :
  confirm_subscribe.B2S_ConfirmSubscribeGlobParser.parse 0
    CONFIRM_SUBSCRIBE_GLOB glob_section
  = Ok {| confirm_subscribe.glob_type := CONFIRM_SUBSCRIBE_GLOB;
          confirm_subscribe.glob := [0x66; 0xE9; 0x2F; 0x2A] |}
  /\ confirm_unsubscribe.serialize_b2s_confirm_unsubscribe_glob
       {| confirm_unsubscribe.glob_type := CONFIRM_UNSUBSCRIBE_GLOB;
          confirm_unsubscribe.glob := [0x66; 0xE9; 0x2F; 0x2A] |} true
     = Ok (frame_of true CONFIRM_UNSUBSCRIBE_GLOB
             confirm_unsubscribe._glob_headers [[x66; xc3; xa9; x2f; x2a]]).
Proof.
  pose proof (glob_header_is_utf8 0 glob_section []
                [(lit "x-glob", [x66; xc3; xa9; x2f; x2a])]
                [x66; xc3; xa9; x2f; x2a] [0x66; 0xE9; 0x2F; 0x2A] true)
    as (Hsub & _ & Hser).
  split.
  - apply (Hsub eq_refl eq_refl). reflexivity.
  - apply Hser; [reflexivity | vm_compute; discriminate].
Defined.

(** ** The header size ceiling *)

Lemma read_length_prefixed_error (payload : bytes) (e : error) :
  read_length_prefixed payload = Err e -> e = MalformedHeader.
Proof.
  unfold read_length_prefixed, read_exact.
  destruct (2 <=? len payload); cbn [bind]; [|now intros [= <-]].
  match goal with |- context [if ?c then _ else _] => destruct c end;
    [discriminate|now intros [= <-]].
Qed.

Lemma decode_headers_error (minimal : bool) (names : list bytes) :
  forall (payload : bytes) (headers : dict) (e : error),
  decode_headers minimal payload names headers = Err e -> e = MalformedHeader.
Proof.
  induction names as [|name names IH]; intros payload headers e;
    [discriminate|].
  cbn [decode_headers]. unfold check_header_size.
  destruct (len name <=? 65535); cbn [bind]; [|now intros [= <-]].
  assert (Hvalue : forall k p,
    (' (value, payload2) <- read_length_prefixed p ;;
     decode_headers minimal payload2 names (dict_set headers k value)) = Err e ->
    e = MalformedHeader).
  { intros k p.
    destruct (read_length_prefixed p) as [[value payload2]|e'] eqn:Ev;
      cbn [bind].
    - apply IH.
    - intros [= <-]. now apply (read_length_prefixed_error p). }
  destruct minimal; cbn [bind]; [apply Hvalue|].
  destruct (read_length_prefixed payload) as [[k payload1]|e'] eqn:Ek;
    cbn [bind].
  - apply Hvalue.
  - intros [= <-]. now apply (read_length_prefixed_error payload).
Qed.

Lemma decode_headers_sized (minimal : bool) (names : list bytes) :
  forall (payload rest : bytes) (headers decoded : dict),
  decode_headers minimal payload names headers = Ok (decoded, rest) ->
  (forall x, In x names -> len x <= 65535)
  /\ (sized headers -> sized decoded).
Proof.
  induction names as [|name names IH]; intros payload rest headers decoded.
  { cbn [decode_headers]. intros H. apply Ok_inj in H.
    injection H as <- <-. split; [intros x []|auto]. }
  cbn [decode_headers]. unfold check_header_size.
  destruct (N.leb_spec (len name) 65535) as [Hname|Hname]; cbn [bind];
    [|discriminate].
  assert (Hvalue : forall k p, len k <= 65535 ->
    (' (value, payload2) <- read_length_prefixed p ;;
     decode_headers minimal payload2 names (dict_set headers k value))
    = Ok (decoded, rest) ->
    (forall x, In x (name :: names) -> len x <= 65535)
    /\ (sized headers -> sized decoded)).
  { intros k p Hk.
    destruct (read_length_prefixed p) as [[value payload2]|] eqn:Ev;
      cbn [bind]; [|discriminate].
    intros Hrec. apply IH in Hrec. destruct Hrec as [Hnames Hsized].
    apply read_length_prefixed_ok in Ev. destruct Ev as [_ Hv].
    split.
    - intros x [<-|Hx]; auto.
    - intros Hd. apply Hsized. intros k' v' [Heq|Hin]; [|now apply Hd].
      injection Heq as <- <-. auto. }
  destruct minimal; cbn [bind]; [now apply Hvalue|].
  destruct (read_length_prefixed payload) as [[k payload1]|] eqn:Ek;
    cbn [bind]; [|discriminate].
  apply read_length_prefixed_ok in Ek. destruct Ek as [_ Hk].
  now apply Hvalue.
Qed.

(** C8.  In explicit and in minimal mode alike: encoding fails with
    [MalformedHeader] when some name or value is longer than 65535 bytes
    and succeeds when none is, 65535 bytes included, and what it wrote
    decodes to the same headers; decoding against a name longer than 65535
    bytes fails with [MalformedHeader], and no decoded name or value is
    ever longer than 65535 bytes. *)
Theorem header_size_ceiling (minimal : bool) (names values : list bytes) :
  List.length names = List.length values ->
  ((exists x, (In x names \/ In x values) /\ 65535 < len x) ->
   encode_headers minimal names values = Err MalformedHeader)
  /\ ((forall x, In x names \/ In x values -> len x <= 65535) ->
      encode_headers minimal names values
      = Ok (header_section minimal names values)
      /\ forall rest,
           decode_headers minimal
             (header_section minimal names values ++ rest) names []
           = Ok (bound names values [], rest))
  /\ ((exists x, In x names /\ 65535 < len x) ->
      forall payload,
        decode_headers minimal payload names [] = Err MalformedHeader)
  /\ (forall payload decoded rest,
        decode_headers minimal payload names [] = Ok (decoded, rest) ->
        forall k v, In (k, v) decoded -> len k <= 65535 /\ len v <= 65535).
Proof.
  intros Hlen. repeat split.
  - intros (x & Hin & Hx). now apply (encode_headers_too_long _ _ _ x).
  - destruct (encode_headers_fits minimal names values H) as [section Hs].
    now rewrite Hs, (encode_headers_section _ _ _ _ Hs).
  - intros rest.
    destruct (encode_headers_fits minimal names values H) as [section Hs].
    rewrite <- (encode_headers_section _ _ _ _ Hs).
    now apply decode_encode_headers.
  - intros (x & Hin & Hx) payload.
    destruct (decode_headers minimal payload names []) as [[decoded rest]|e]
      eqn:E.
    + apply decode_headers_sized in E. destruct E as [Hnames _].
      specialize (Hnames x Hin). lia.
    + f_equal. now apply (decode_headers_error minimal names payload []).
  - apply decode_headers_sized in H. destruct H as [_ Hsized].
    assert (Hd : sized decoded) by (apply Hsized; intros ? ? []).
    now apply (Hd k v).
  - apply decode_headers_sized in H. destruct H as [_ Hsized].
    assert (Hd : sized decoded) by (apply Hsized; intros ? ? []).
    now apply (Hd k v).
Qed.

Lemma header_size_ceiling_witness :
  (forall minimal,
     encode_headers minimal [lit "x-topic"] [largest_value]
     = Ok (header_section minimal [lit "x-topic"] [largest_value]))
  /\ (forall minimal,
        encode_headers minimal [lit "x-topic"] [oversized_value]
        = Err MalformedHeader).
Proof.
  split; intros minimal.
  - apply (header_size_ceiling minimal [lit "x-topic"] [largest_value]
             eq_refl).
    intros x [[<-|[]]|[<-|[]]]; vm_compute; discriminate.
  - apply (header_size_ceiling minimal [lit "x-topic"] [oversized_value]
             eq_refl).
    exists oversized_value. split; [right; left; reflexivity|].
    vm_compute. reflexivity.
Defined.

(** ** Numeric headers that are not minimal *)

Lemma parse_frame_of_confirm_notify (minimal : bool) (id num : bytes) :
  len id <= 65535 -> len num <= 65535 ->
  parse_frame (frame_of minimal CONFIRM_NOTIFY confirm_notify._headers
                 [id; num])
  = tagged ConfirmNotify
      (if 64 <? len id
       then Err (ValueError "x-identifier must be at most 64 bytes")
       else if 8 <? len num
       then Err (ValueError "x-subscribers must be at most 8 bytes")
       else Ok {| confirm_notify.type := CONFIRM_NOTIFY;
                  confirm_notify.identifier := id;
                  confirm_notify.subscribers := from_bytes_big num |}).
Proof.
  intros Hid Hnum. unfold frame_of. rewrite parse_frame_head.
  destruct (encode_headers_fits minimal confirm_notify._headers [id; num])
    as [section Hs]; [sizes|].
  rewrite <- (encode_headers_section _ _ _ _ Hs).
  rewrite <- (app_nil_r section).
  change (parse_message (flags_of minimal) CONFIRM_NOTIFY (section ++ []))
    with (tagged ConfirmNotify
            (confirm_notify.B2S_ConfirmNotifyParser.parse (flags_of minimal)
               CONFIRM_NOTIFY (section ++ []))).
  now rewrite (confirm_notify_parse_encoded minimal _ _ _ _ Hs).
Qed.

Lemma parse_frame_of_continue_notify (minimal : bool) (id num : bytes) :
  len id <= 65535 -> len num <= 65535 ->
  parse_frame (frame_of minimal CONTINUE_NOTIFY continue_notify._headers
                 [id; num])
  = tagged ContinueNotify
      (if 64 <? len id
       then Err (ValueError "x-identifier must be at most 64 bytes")
       else if 8 <? len num
       then Err (ValueError "x-part-id must be at most 8 bytes")
       else Ok {| continue_notify.type := CONTINUE_NOTIFY;
                  continue_notify.identifier := id;
                  continue_notify.part_id := from_bytes_big num |}).
Proof.
  intros Hid Hnum. unfold frame_of. rewrite parse_frame_head.
  destruct (encode_headers_fits minimal continue_notify._headers [id; num])
    as [section Hs]; [sizes|].
  rewrite <- (encode_headers_section _ _ _ _ Hs).
  rewrite <- (app_nil_r section).
  change (parse_message (flags_of minimal) CONTINUE_NOTIFY (section ++ []))
    with (tagged ContinueNotify
            (continue_notify.B2S_ContinueNotifyParser.parse (flags_of minimal)
               CONTINUE_NOTIFY (section ++ []))).
  now rewrite (continue_notify_parse_encoded minimal _ _ _ _ Hs).
Qed.

Lemma length_prefixed_inj (x y : bytes) :
  length_prefixed x = length_prefixed y -> x = y.
Proof.
  unfold length_prefixed. intros H.
  apply (f_equal (skipn 2)) in H.
  rewrite !skipn_app, !length_to_bytes_big in H.
  rewrite !skipn_all2 in H by (rewrite length_to_bytes_big; lia).
  exact H.
Qed.

Lemma frame_of_two_inj (minimal : bool)
  (t : BroadcasterToSubscriberWSMessageType) (n1 n2 id x y : bytes) :
  frame_of minimal t [n1; n2] [id; x] = frame_of minimal t [n1; n2] [id; y] ->
  x = y.
Proof.
  unfold frame_of. intros H.
  apply (f_equal (skipn 2)) in H. cbn [skipn header_section] in H.
  apply app_inv_head in H. apply app_inv_head in H.
  apply app_inv_head in H. rewrite !app_nil_r in H.
  now apply length_prefixed_inj.
Qed.

Lemma from_bytes_big_zero_head (bs : bytes) :
  from_bytes_big (x00 :: bs) = from_bytes_big bs.
Proof. rewrite from_bytes_big_cons. cbn [Byte.to_N]. lia. Qed.

(** C9.  The notify parsers take any x-subscribers or x-part-id value of at
    most 8 bytes as a big-endian unsigned integer: the empty value is 0, a
    leading zero byte changes nothing; so two different frames can parse to
    one message, and serializing the parsed message gives the frame with the
    minimal encoding, which is the frame parsed only if its value was
    minimal already. *)
Theorem notify_parsers_accept_non_minimal (minimal_headers : bool)
  (id num : bytes) :
  len id <= 64 -> len num <= 8 ->
  let count := from_bytes_big num in
  let confirm := {| confirm_notify.type := CONFIRM_NOTIFY;
                    confirm_notify.identifier := id;
                    confirm_notify.subscribers := count |} in
  let continue := {| continue_notify.type := CONTINUE_NOTIFY;
                     continue_notify.identifier := id;
                     continue_notify.part_id := count |} in
  parse_frame (frame_of minimal_headers CONFIRM_NOTIFY
                 confirm_notify._headers [id; num])
  = Ok (ConfirmNotify confirm)
  /\ parse_frame (frame_of minimal_headers CONTINUE_NOTIFY
                    continue_notify._headers [id; num])
     = Ok (ContinueNotify continue)
  /\ from_bytes_big [] = 0
  /\ from_bytes_big (x00 :: num) = count
  /\ (len num <= 7 ->
      parse_frame (frame_of minimal_headers CONFIRM_NOTIFY
                     confirm_notify._headers [id; x00 :: num])
      = Ok (ConfirmNotify confirm)
      /\ frame_of minimal_headers CONFIRM_NOTIFY confirm_notify._headers
           [id; x00 :: num]
         <> frame_of minimal_headers CONFIRM_NOTIFY confirm_notify._headers
              [id; num])
  /\ confirm_notify.serialize_b2s_confirm_notify confirm minimal_headers
     = Ok (frame_of minimal_headers CONFIRM_NOTIFY confirm_notify._headers
             [id; int_to_minimal_unsigned count])
  /\ continue_notify.serialize_b2s_continue_notify continue minimal_headers
     = Ok (frame_of minimal_headers CONTINUE_NOTIFY continue_notify._headers
             [id; int_to_minimal_unsigned count])
  /\ (num <> int_to_minimal_unsigned count ->
      frame_of minimal_headers CONFIRM_NOTIFY confirm_notify._headers
        [id; int_to_minimal_unsigned count]
      <> frame_of minimal_headers CONFIRM_NOTIFY confirm_notify._headers
           [id; num]
      /\ frame_of minimal_headers CONTINUE_NOTIFY continue_notify._headers
           [id; int_to_minimal_unsigned count]
         <> frame_of minimal_headers CONTINUE_NOTIFY continue_notify._headers
              [id; num]).
Proof.
  intros Hid Hnum count confirm continue.
  assert (Hfit : len (int_to_minimal_unsigned count) <= 65535).
  { apply u64_fits. unfold count.
    pose proof (from_bytes_big_lt num) as L.
    eapply N.lt_le_trans; [exact L|].
    change (2 ^ 64) with (256 ^ 8). apply N.pow_le_mono_r; lia. }
  split; [|split; [|split; [|split; [|split; [|split; [|split]]]]]].
  - rewrite parse_frame_of_confirm_notify by lia.
    replace (64 <? len id) with false by (symmetry; apply N.ltb_ge; lia).
    now replace (8 <? len num) with false by (symmetry; apply N.ltb_ge; lia).
  - rewrite parse_frame_of_continue_notify by lia.
    replace (64 <? len id) with false by (symmetry; apply N.ltb_ge; lia).
    now replace (8 <? len num) with false by (symmetry; apply N.ltb_ge; lia).
  - reflexivity.
  - apply from_bytes_big_zero_head.
  - intros Hshort.
    assert (Hlonger : len (x00 :: num) = len num + 1)
      by (unfold len; cbn [List.length]; lia).
    split.
    + rewrite parse_frame_of_confirm_notify by lia.
      replace (64 <? len id) with false by (symmetry; apply N.ltb_ge; lia).
      replace (8 <? len (x00 :: num)) with false
        by (symmetry; apply N.ltb_ge; lia).
      cbn [tagged bind]. now rewrite from_bytes_big_zero_head.
    + intros Heq. apply frame_of_two_inj in Heq.
      rewrite Heq in Hlonger at 1. lia.
  - unfold confirm_notify.serialize_b2s_confirm_notify.
    apply serialize_simple_message_fits.
    assert (Hid' : len id <= 65535) by lia.
    cbn [confirm confirm_notify.identifier confirm_notify.subscribers]. sizes.
  - unfold continue_notify.serialize_b2s_continue_notify.
    apply serialize_simple_message_fits.
    assert (Hid' : len id <= 65535) by lia.
    cbn [continue continue_notify.identifier continue_notify.part_id]. sizes.
  - intros Hne. split; intros Heq; apply Hne; symmetry;
      now apply (frame_of_two_inj _ _ _ _ _ _ _ Heq).
Qed.

Lemma notify_parsers_accept_non_minimal_witness :
  parse_frame (frame_of false CONFIRM_NOTIFY confirm_notify._headers
                 [lit "id"; [x00; x01]])
  = Ok (ConfirmNotify {| confirm_notify.type := CONFIRM_NOTIFY;
                         confirm_notify.identifier := lit "id";
                         confirm_notify.subscribers := 1 |})
  /\ parse_frame (frame_of false CONFIRM_NOTIFY confirm_notify._headers
                    [lit "id"; [x01]])
     = Ok (ConfirmNotify {| confirm_notify.type := CONFIRM_NOTIFY;
                            confirm_notify.identifier := lit "id";
                            confirm_notify.subscribers := 1 |})
  /\ parse_frame (frame_of true CONTINUE_NOTIFY continue_notify._headers
                    [lit "id"; []])
     = Ok (ContinueNotify {| continue_notify.type := CONTINUE_NOTIFY;
                             continue_notify.identifier := lit "id";
                             continue_notify.part_id := 0 |}).
Proof.
  split; [|split].
  - apply (notify_parsers_accept_non_minimal false (lit "id") [x00; x01]);
      vm_compute; discriminate.
  - apply (notify_parsers_accept_non_minimal false (lit "id") [x01]);
      vm_compute; discriminate.
  - apply (notify_parsers_accept_non_minimal true (lit "id") []);
      vm_compute; discriminate.
Defined.

(** ** Serializers and field validation *)

Lemma len_int_to_minimal_unsigned_big (n : N) :
  2 ^ 64 <= n -> 8 < len (int_to_minimal_unsigned n).
Proof.
  intros Hn.
  destruct (N.lt_ge_cases 8 (len (int_to_minimal_unsigned n))) as [H|H];
    [exact H|exfalso].
  pose proof (from_bytes_big_lt (int_to_minimal_unsigned n)) as L.
  rewrite from_bytes_int_to_minimal_unsigned in L.
  assert (P : 256 ^ len (int_to_minimal_unsigned n) <= 256 ^ 8)
    by (apply N.pow_le_mono_r; lia).
  change (256 ^ 8) with (2 ^ 64) in P. lia.
Qed.

(** C10, as stated, fails: the serializer does not succeed on every typed
    message, the header codec under it refuses an identifier of 65536
    bytes. *)
Lemma serializers_do_not_always_succeed :
  confirm_notify.serialize_b2s_confirm_notify oversized_identifier false
  = Err MalformedHeader
  /\ ~ (forall (msg : confirm_notify.B2S_ConfirmNotify) (minimal : bool),
          is_ok (confirm_notify.serialize_b2s_confirm_notify msg minimal)
          = true).
Proof.
  assert (E : confirm_notify.serialize_b2s_confirm_notify oversized_identifier
                false = Err MalformedHeader) by (vm_compute; reflexivity).
  split; [exact E|].
  intros H. specialize (H oversized_identifier false).
  rewrite E in H. discriminate.
Qed.

(** C10, amended.  The notify serializers check no field of their own: on
    a message whose header values fit the codec's 65535-byte ceiling they
    succeed, be the identifier over 64 bytes or the count or part id 2^64
    or more, and in those cases the frame they produce is rejected by the
    kind's parser with the validation error of the offending header, while
    within the parsers' bounds the frame parses back to the message. *)
Theorem serializers_validate_no_field (id : bytes) (n : N)
  (minimal_headers : bool) :
  len id <= 65535 -> len (int_to_minimal_unsigned n) <= 65535 ->
  let confirm := {| confirm_notify.type := CONFIRM_NOTIFY;
                    confirm_notify.identifier := id;
                    confirm_notify.subscribers := n |} in
  let continue := {| continue_notify.type := CONTINUE_NOTIFY;
                     continue_notify.identifier := id;
                     continue_notify.part_id := n |} in
  exists frame1 frame2,
    confirm_notify.serialize_b2s_confirm_notify confirm minimal_headers
    = Ok frame1
    /\ continue_notify.serialize_b2s_continue_notify continue minimal_headers
       = Ok frame2
    /\ (64 < len id ->
        parse_frame frame1
        = Err (ValueError "x-identifier must be at most 64 bytes")
        /\ parse_frame frame2
           = Err (ValueError "x-identifier must be at most 64 bytes"))
    /\ (len id <= 64 -> 2 ^ 64 <= n ->
        parse_frame frame1
        = Err (ValueError "x-subscribers must be at most 8 bytes")
        /\ parse_frame frame2
           = Err (ValueError "x-part-id must be at most 8 bytes"))
    /\ (len id <= 64 -> n < 2 ^ 64 ->
        parse_frame frame1 = Ok (ConfirmNotify confirm)
        /\ parse_frame frame2 = Ok (ContinueNotify continue)).
Proof.
  intros Hid Hn confirm continue.
  exists (frame_of minimal_headers CONFIRM_NOTIFY confirm_notify._headers
            [id; int_to_minimal_unsigned n]),
         (frame_of minimal_headers CONTINUE_NOTIFY continue_notify._headers
            [id; int_to_minimal_unsigned n]).
  rewrite parse_frame_of_confirm_notify, parse_frame_of_continue_notify
    by assumption.
  rewrite from_bytes_int_to_minimal_unsigned.
  split; [|split; [|split; [|split]]].
  - unfold confirm_notify.serialize_b2s_confirm_notify.
    apply serialize_simple_message_fits.
    cbn [confirm confirm_notify.identifier confirm_notify.subscribers]. sizes.
  - unfold continue_notify.serialize_b2s_continue_notify.
    apply serialize_simple_message_fits.
    cbn [continue continue_notify.identifier continue_notify.part_id]. sizes.
  - intros Hlong.
    replace (64 <? len id) with true by (symmetry; apply N.ltb_lt; lia).
    split; reflexivity.
  - intros Hshort Hbig. apply len_int_to_minimal_unsigned_big in Hbig.
    replace (64 <? len id) with false by (symmetry; apply N.ltb_ge; lia).
    replace (8 <? len (int_to_minimal_unsigned n)) with true
      by (symmetry; apply N.ltb_lt; lia).
    split; reflexivity.
  - intros Hshort Hsmall. apply len_int_to_minimal_unsigned_u64 in Hsmall.
    replace (64 <? len id) with false by (symmetry; apply N.ltb_ge; lia).
    replace (8 <? len (int_to_minimal_unsigned n)) with false
      by (symmetry; apply N.ltb_ge; lia).
    split; reflexivity.
Qed.

Lemma serializers_validate_no_field_witness :
  exists frame1 frame2,
    confirm_notify.serialize_b2s_confirm_notify
      {| confirm_notify.type := CONFIRM_NOTIFY;
         confirm_notify.identifier := lit "id";
         confirm_notify.subscribers := 2 ^ 64 |} true
    = Ok frame1
    /\ continue_notify.serialize_b2s_continue_notify
         {| continue_notify.type := CONTINUE_NOTIFY;
            continue_notify.identifier := lit "id";
            continue_notify.part_id := 2 ^ 64 |} true
       = Ok frame2
    /\ parse_frame frame1
       = Err (ValueError "x-subscribers must be at most 8 bytes")
    /\ parse_frame frame2
       = Err (ValueError "x-part-id must be at most 8 bytes").
Proof.
  destruct (serializers_validate_no_field (lit "id") (2 ^ 64) true)
    as (frame1 & frame2 & H1 & H2 & _ & Hbig & _);
    [vm_compute; discriminate | vm_compute; discriminate |].
  exists frame1, frame2.
  destruct Hbig as [P1 P2]; [vm_compute; discriminate | reflexivity |].
  auto.
Defined.

(** ** Hexadecimal counters *)

Lemma small_cases (P : N -> Prop) (d : N) :
  d < 16 ->
  P 0 -> P 1 -> P 2 -> P 3 -> P 4 -> P 5 -> P 6 -> P 7 -> P 8 -> P 9 ->
  P 10 -> P 11 -> P 12 -> P 13 -> P 14 -> P 15 -> P d.
Proof.
  intros Hd. intros.
  assert (E : d = N.of_nat (N.to_nat d)) by lia. rewrite E.
  assert (Hn : (N.to_nat d < 16)%nat) by lia.
  generalize dependent (N.to_nat d). intros n _ Hn.
  do 16 (destruct n as [|n]; [assumption|]). lia.
Qed.

Lemma hex_digit_value_hex_digit (d : N) :
  d < 16 -> hex_digit_value (hex_digit d) = Some d.
Proof.
  intros Hd.
  apply (small_cases (fun d => hex_digit_value (hex_digit d) = Some d) d Hd);
    reflexivity.
Qed.

Lemma hex_digit_nonzero (d : N) :
  0 < d < 16 -> hex_digit d <> x30.
Proof.
  intros [Hpos Hd]. revert Hpos.
  apply (small_cases (fun d => 0 < d -> hex_digit d <> x30) d Hd);
    intros; (lia || discriminate).
Qed.

Lemma reads_nil : reads [] 0.
Proof. intros a. cbn. f_equal. lia. Qed.

Lemma reads_cons (d : N) (digits : bytes) (v : N) :
  d < 16 -> reads digits v ->
  reads (hex_digit d :: digits) (d * 16 ^ len digits + v).
Proof.
  intros Hd Hr a. cbn [hex_value_from].
  rewrite hex_digit_value_hex_digit by exact Hd.
  rewrite Hr. f_equal.
  unfold len. cbn [List.length]. rewrite Nat2N.inj_succ, N.pow_succ_r'.
  lia.
Qed.

Lemma hex_digits_reads (fuel : nat) :
  forall (n : N) (acc : bytes) (v : N),
  n < 2 ^ N.of_nat fuel -> reads acc v ->
  reads (hex_digits fuel n acc) (n * 16 ^ len acc + v).
Proof.
  induction fuel as [|fuel IH]; intros n acc v Hn Hacc.
  - cbn [hex_digits]. change (2 ^ N.of_nat 0) with 1 in Hn.
    replace n with 0 by lia. now rewrite N.mul_0_l, N.add_0_l.
  - cbn [hex_digits]. destruct (N.eqb_spec n 0) as [->|Hne].
    + now rewrite N.mul_0_l, N.add_0_l.
    + rewrite Nat2N.inj_succ, N.pow_succ_r' in Hn.
      assert (Hq : n / 16 < 2 ^ N.of_nat fuel) by lia.
      assert (Hr : n mod 16 < 16) by lia.
      pose proof (IH (n / 16) (hex_digit (n mod 16) :: acc) _ Hq
                    (reads_cons _ _ _ Hr Hacc)) as R.
      replace (n * 16 ^ len acc + v)
        with (n / 16 * 16 ^ len (hex_digit (n mod 16) :: acc)
              + (n mod 16 * 16 ^ len acc + v)); [exact R|].
      unfold len. cbn [List.length]. rewrite Nat2N.inj_succ, N.pow_succ_r'.
      rewrite (N.div_mod n 16) at 3 by lia. lia.
Qed.

Lemma hex_digits_zero (fuel : nat) (acc : bytes) : hex_digits fuel 0 acc = acc.
Proof. now destruct fuel. Qed.

Lemma hex_digits_head (fuel : nat) :
  forall (n : N) (acc : bytes),
  n <> 0 -> n < 2 ^ N.of_nat fuel ->
  exists d rest, hex_digits fuel n acc = hex_digit d :: rest /\ 0 < d < 16.
Proof.
  induction fuel as [|fuel IH]; intros n acc Hne Hn.
  - change (2 ^ N.of_nat 0) with 1 in Hn. lia.
  - cbn [hex_digits]. destruct (N.eqb_spec n 0) as [->|_]; [congruence|].
    rewrite Nat2N.inj_succ, N.pow_succ_r' in Hn.
    destruct (N.eq_dec (n / 16) 0) as [Hz|Hnz].
    + rewrite Hz, hex_digits_zero. exists (n mod 16), acc. split; [easy|lia].
    + apply IH; [exact Hnz|lia].
Qed.

Lemma hex_unsigned_spec (n : N) :
  hex_value (hex_unsigned n) = Some n
  /\ hex_unsigned n <> []
  /\ (n <> 0 -> hd x30 (hex_unsigned n) <> x30)
  /\ (n = 0 -> hex_unsigned n = lit "0").
Proof.
  unfold hex_unsigned. destruct (N.eqb_spec n 0) as [->|Hne].
  { repeat split; try discriminate; congruence. }
  assert (Hn : n < 2 ^ N.of_nat (N.to_nat (N.size n)))
    by (rewrite N2Nat.id; apply N.size_gt).
  split; [|split; [|split]].
  - pose proof (hex_digits_reads _ n [] 0 Hn reads_nil 0) as R.
    unfold hex_value. rewrite R. f_equal. cbn [len List.length N.of_nat].
    rewrite N.pow_0_r. lia.
  - destruct (hex_digits_head _ n [] Hne Hn) as (d & rest & -> & _).
    discriminate.
  - intros _. destruct (hex_digits_head _ n [] Hne Hn) as (d & rest & -> & Hd).
    cbn [hd]. now apply hex_digit_nonzero.
  - congruence.
Qed.

(** ** The authorization scheme *)

Lemma tokens_step
  (action : authorization.ConnectionNonceState ->
            bytes * authorization.ConnectionNonceState)
  (n : nat) (st : authorization.ConnectionNonceState) :
  authorization.tokens action (S n) st
  = (fst (action st) :: fst (authorization.tokens action n (snd (action st))),
     snd (authorization.tokens action n (snd (action st)))).
Proof.
  cbn [authorization.tokens]. destruct (action st) as [token st1].
  cbn [fst snd]. now destruct (authorization.tokens action n st1).
Qed.

Section AuthorizationFacts.

Variable base64url : bytes -> bytes.

Lemma subscriber_tokens (n : nat) :
  forall st : authorization.ConnectionNonceState,
  fst (authorization.tokens
         (authorization.subscriber_authorization base64url) n st)
  = map (fun k => authorization.authorization base64url
                    st.(authorization.connection_nonce)
                    (st.(authorization.subscriber_counter) - Z.of_nat k)%Z)
        (seq 0 n)
  /\ authorization.subscriber_counter
       (snd (authorization.tokens
               (authorization.subscriber_authorization base64url) n st))
     = (st.(authorization.subscriber_counter) - Z.of_nat n)%Z
  /\ authorization.broadcaster_counter
       (snd (authorization.tokens
               (authorization.subscriber_authorization base64url) n st))
     = st.(authorization.broadcaster_counter).
Proof.
  induction n as [|n IH]; intros st.
  - cbn. repeat split. lia.
  - rewrite tokens_step. cbn [fst snd].
    destruct (IH (snd (authorization.subscriber_authorization base64url st)))
      as (Hmore & Hsub & Hbro).
    cbn [authorization.subscriber_authorization snd fst
         authorization.with_subscriber_counter
         authorization.connection_nonce authorization.subscriber_counter
         authorization.broadcaster_counter] in *.
    split; [|split].
    + cbn [seq map]. rewrite Z.sub_0_r. f_equal.
      rewrite Hmore, <- seq_shift, map_map.
      apply map_ext. intros k.
      apply (f_equal (authorization.authorization base64url _)). lia.
    + rewrite Hsub. lia.
    + exact Hbro.
Qed.

Lemma broadcaster_tokens (n : nat) :
  forall st : authorization.ConnectionNonceState,
  fst (authorization.tokens
         (authorization.broadcaster_authorization base64url) n st)
  = map (fun k => authorization.authorization base64url
                    st.(authorization.connection_nonce)
                    (st.(authorization.broadcaster_counter) + Z.of_nat k)%Z)
        (seq 0 n)
  /\ authorization.broadcaster_counter
       (snd (authorization.tokens
               (authorization.broadcaster_authorization base64url) n st))
     = (st.(authorization.broadcaster_counter) + Z.of_nat n)%Z
  /\ authorization.subscriber_counter
       (snd (authorization.tokens
               (authorization.broadcaster_authorization base64url) n st))
     = st.(authorization.subscriber_counter).
Proof.
  induction n as [|n IH]; intros st.
  - cbn. repeat split. lia.
  - rewrite tokens_step. cbn [fst snd].
    destruct (IH (snd (authorization.broadcaster_authorization base64url st)))
      as (Hmore & Hbro & Hsub).
    cbn [authorization.broadcaster_authorization snd fst
         authorization.with_broadcaster_counter
         authorization.connection_nonce authorization.subscriber_counter
         authorization.broadcaster_counter] in *.
    split; [|split].
    + cbn [seq map]. rewrite Z.add_0_r. f_equal.
      rewrite Hmore, <- seq_shift, map_map.
      apply map_ext. intros k.
      apply (f_equal (authorization.authorization base64url _)). lia.
    + rewrite Hbro. lia.
    + exact Hsub.
Qed.

End AuthorizationFacts.

(** C4, as stated, fails: decrementing before formatting, from a counter
    that starts at -1, puts -2, -3, -4 into the first three tokens. *)
Lemma decrement_then_format_starts_at_minus_two :
  fst (authorization.tokens
         (authorization.next_subscriber_token (fun nonce => nonce)) 3
         (authorization.configured (fun x => x) [] []))
  = [lit "websocket::-2"; lit "websocket::-3"; lit "websocket::-4"]
  /\ fst (authorization.tokens
            (authorization.next_broadcaster_token (fun nonce => nonce)) 3
            (authorization.configured (fun x => x) [] []))
     = [lit "websocket::2"; lit "websocket::3"; lit "websocket::4"]
  /\ ~ (forall (SHA256 base64url : bytes -> bytes) (sn bn : bytes),
          let st := authorization.configured SHA256 sn bn in
          let nonce := st.(authorization.connection_nonce) in
          fst (authorization.tokens
                 (authorization.next_subscriber_token base64url) 3 st)
          = [authorization.authorization base64url nonce (-1);
             authorization.authorization base64url nonce (-2);
             authorization.authorization base64url nonce (-3)]).
Proof.
  split; [reflexivity|split; [reflexivity|]].
  intros H. specialize (H (fun x => x) (fun x => x) [] []).
  vm_compute in H. discriminate.
Qed.

(** C4, amended.  As the protocol documents it, a token carries the counter
    as it stands and the counter moves one step after the action: with the
    subscriber counter starting at -1 and the broadcaster counter at 1, the
    tokens of three successive subscribe actions carry -1, -2, -3 and those
    of three successive notify sends carry 1, 2, 3, in that order; each
    action moves its own counter by one step and leaves the other alone. *)
Theorem counters_advance_after_each_token (SHA256 base64url : bytes -> bytes)
  (sn bn : bytes) (st : authorization.ConnectionNonceState) :
  let start := authorization.configured SHA256 sn bn in
  let prefix := lit "websocket:" ++ base64url (SHA256 (sn ++ bn)) ++ lit ":" in
  start.(authorization.subscriber_counter) = (-1)%Z
  /\ start.(authorization.broadcaster_counter) = 1%Z
  /\ fst (authorization.tokens
            (authorization.subscriber_authorization base64url) 3 start)
     = [prefix ++ lit "-1"; prefix ++ lit "-2"; prefix ++ lit "-3"]
  /\ fst (authorization.tokens
            (authorization.broadcaster_authorization base64url) 3 start)
     = [prefix ++ lit "1"; prefix ++ lit "2"; prefix ++ lit "3"]
  /\ (let after := snd (authorization.subscriber_authorization base64url st) in
      after.(authorization.subscriber_counter)
      = (st.(authorization.subscriber_counter) - 1)%Z
      /\ after.(authorization.broadcaster_counter)
         = st.(authorization.broadcaster_counter))
  /\ (let after := snd (authorization.broadcaster_authorization base64url st) in
      after.(authorization.broadcaster_counter)
      = (st.(authorization.broadcaster_counter) + 1)%Z
      /\ after.(authorization.subscriber_counter)
         = st.(authorization.subscriber_counter))
  /\ (forall n,
        fst (authorization.tokens
               (authorization.subscriber_authorization base64url) n st)
        = map (fun k => authorization.authorization base64url
                          st.(authorization.connection_nonce)
                          (st.(authorization.subscriber_counter)
                           - Z.of_nat k)%Z) (seq 0 n))
  /\ (forall n,
        fst (authorization.tokens
               (authorization.broadcaster_authorization base64url) n st)
        = map (fun k => authorization.authorization base64url
                          st.(authorization.connection_nonce)
                          (st.(authorization.broadcaster_counter)
                           + Z.of_nat k)%Z) (seq 0 n)).
Proof.
  intros start prefix.
  split; [reflexivity|]. split; [reflexivity|].
  split.
  { rewrite (proj1 (subscriber_tokens base64url 3 start)).
    cbn [seq map]. unfold authorization.authorization, prefix.
    cbn [start authorization.configured authorization.connection_nonce
         authorization.subscriber_counter].
    rewrite <- !app_assoc. reflexivity. }
  split.
  { rewrite (proj1 (broadcaster_tokens base64url 3 start)).
    cbn [seq map]. unfold authorization.authorization, prefix.
    cbn [start authorization.configured authorization.connection_nonce
         authorization.broadcaster_counter].
    rewrite <- !app_assoc. reflexivity. }
  split; [split; reflexivity|]. split; [split; reflexivity|].
  split; intros n.
  - apply (subscriber_tokens base64url n st).
  - apply (broadcaster_tokens base64url n st).
Qed.

(** C5.  For 32-byte nonces the connection nonce is SHA-256 of the
    subscriber nonce followed by the broadcaster nonce, and a token is
    [websocket:], the base64url of the connection nonce, [:], a [-] when
    the counter is negative, then the hex digits of the counter's
    magnitude: lower-case digits only (so no 0x), at least one, and no
    leading zero unless the counter is 0. *)
Theorem authorization_token_format (SHA256 base64url : bytes -> bytes)
  (subscriber_nonce broadcaster_nonce : bytes) (ctr : Z) :
  len subscriber_nonce = 32 -> len broadcaster_nonce = 32 ->
  let st := authorization.configured SHA256 subscriber_nonce broadcaster_nonce in
  st.(authorization.connection_nonce)
  = SHA256 (subscriber_nonce ++ broadcaster_nonce)
  /\ exists digits,
       authorization.authorization base64url
         st.(authorization.connection_nonce) ctr
       = lit "websocket:"
         ++ base64url (SHA256 (subscriber_nonce ++ broadcaster_nonce))
         ++ lit ":" ++ (if (ctr <? 0)%Z then lit "-" else []) ++ digits
       /\ hex_value digits = Some (Z.abs_N ctr)
       /\ digits <> []
       /\ (ctr <> 0%Z -> hd x30 digits <> x30)
       /\ (ctr = 0%Z -> digits = lit "0").
Proof.
  intros _ _ st. split; [reflexivity|].
  exists (hex_unsigned (Z.abs_N ctr)).
  destruct (hex_unsigned_spec (Z.abs_N ctr)) as (Hv & Hne & Hhd & Hz).
  split; [reflexivity|]. split; [exact Hv|]. split; [exact Hne|].
  split.
  - intros Hc. apply Hhd. lia.
  - intros ->. now apply Hz.
Qed.

Lemma authorization_token_format_witness :
  exists digits,
    authorization.authorization (fun nonce => nonce)
      (authorization.connection_nonce
         (authorization.configured (fun x => x) nonce_a nonce_b)) (-26)
    = lit "websocket:" ++ (nonce_a ++ nonce_b) ++ lit ":" ++ lit "-" ++ digits
    /\ hex_value digits = Some 26.
Proof.
  destruct (authorization_token_format (fun x => x) (fun x => x)
              nonce_a nonce_b (-26) eq_refl eq_refl)
    as (_ & digits & Htoken & Hvalue & _).
  exists digits. split; [exact Htoken | exact Hvalue].
Defined.


(** * Further facts on the parsers and serializers *)

(** ** What the helpers can raise *)

Lemma type_eqb_refl (t : BroadcasterToSubscriberWSMessageType) :
  type_eqb t t = true.
Proof. now destruct t. Qed.

Lemma type_eqb_neq (x y : BroadcasterToSubscriberWSMessageType) :
  x <> y -> type_eqb x y = false.
Proof.
  intros H. destruct (type_eqb x y) eqn:E; [|reflexivity].
  now apply type_eqb_eq in E.
Qed.

Lemma parse_simple_headers_error (flags : PubSubWSMessageFlags)
  (payload : bytes) (names : list bytes) (e : error) :
  parse_simple_headers flags payload names = Err e -> e = MalformedHeader.
Proof. apply decode_headers_error. Qed.

Lemma dict_get_error (d : dict) (k : bytes) (e : error) :
  dict_get d k = Err e -> e = KeyError k.
Proof.
  induction d as [|[k' v] d IH]; cbn [dict_get].
  - now intros [= <-].
  - destruct (bytes_eqb k' k); [discriminate|exact IH].
Qed.

Lemma dict_get_sized (d : dict) (k v : bytes) :
  sized d -> dict_get d k = Ok v -> len v <= 65535.
Proof.
  intros Hd. induction d as [|[k' v'] d IH]; cbn [dict_get]; [discriminate|].
  destruct (bytes_eqb k' k).
  - intros H. apply Ok_inj in H. subst v'.
    apply (Hd k' v). now left.
  - apply IH. intros a c Hin. apply (Hd a c). now right.
Qed.

Lemma parse_simple_headers_sized (flags : PubSubWSMessageFlags)
  (payload rest : bytes) (names : list bytes) (headers : dict) :
  parse_simple_headers flags payload names = Ok (headers, rest) ->
  sized headers.
Proof.
  intros H. apply decode_headers_sized in H. destruct H as [_ H].
  apply H. intros ? ? [].
Qed.

(** ** What the parsers can raise *)

(** The body of every parser: decode the headers, then go on with them. *)
Ltac open_parser :=
  match goal with
  | |- context [parse_simple_headers ?f ?p ?n] =>
      let headers := fresh "headers" in
      let rest := fresh "rest" in
      let e := fresh "e" in
      let Hh := fresh "Hh" in
      destruct (parse_simple_headers f p n) as [[headers rest]|e] eqn:Hh;
      cbn [bind]
  end.

Ltac open_lookup :=
  match goal with
  | |- context [dict_get ?d ?k] =>
      let v := fresh "v" in
      let e := fresh "e" in
      let Hv := fresh "Hv" in
      destruct (dict_get d k) as [v|e] eqn:Hv; cbn [bind]
  end.

Ltac close_error :=
  match goal with
  | H : parse_simple_headers _ _ _ = Err ?e |- _ =>
      apply parse_simple_headers_error in H; subst e
  | H : dict_get _ _ = Err ?e |- _ => apply dict_get_error in H; subst e
  | H : decode_utf8 _ = Err ?e |- _ => apply decode_utf8_error in H; subst e
  end.

Lemma confirm_notify_errors (flags : PubSubStatefulMessageFlags)
  (payload : bytes) (e : error) :
  confirm_notify.B2S_ConfirmNotifyParser.parse flags CONFIRM_NOTIFY payload
  = Err e ->
  In e [MalformedHeader;
        KeyError (lit "x-identifier");
        ValueError "x-identifier must be at most 64 bytes";
        KeyError (lit "x-subscribers");
        ValueError "x-subscribers must be at most 8 bytes"].
Proof.
  unfold confirm_notify.B2S_ConfirmNotifyParser.parse.
  change (negb (type_eqb CONFIRM_NOTIFY CONFIRM_NOTIFY)) with false.
  cbv iota. open_parser; [|intros [= <-]; close_error; cbn; auto].
  open_lookup; [|intros [= <-]; close_error; cbn; auto].
  destruct (64 <? len v); [intros [= <-]; cbn; auto|].
  open_lookup; [|intros [= <-]; close_error; cbn; auto].
  destruct (8 <? len v0); [intros [= <-]; cbn; auto 6|discriminate].
Qed.

Lemma continue_notify_errors (flags : PubSubStatefulMessageFlags)
  (payload : bytes) (e : error) :
  continue_notify.B2S_ContinueNotifyParser.parse flags CONTINUE_NOTIFY payload
  = Err e ->
  In e [MalformedHeader;
        KeyError (lit "x-identifier");
        ValueError "x-identifier must be at most 64 bytes";
        KeyError (lit "x-part-id");
        ValueError "x-part-id must be at most 8 bytes"].
Proof.
  unfold continue_notify.B2S_ContinueNotifyParser.parse.
  change (negb (type_eqb CONTINUE_NOTIFY CONTINUE_NOTIFY)) with false.
  cbv iota. open_parser; [|intros [= <-]; close_error; cbn; auto].
  open_lookup; [|intros [= <-]; close_error; cbn; auto].
  destruct (64 <? len v); [intros [= <-]; cbn; auto|].
  open_lookup; [|intros [= <-]; close_error; cbn; auto].
  destruct (8 <? len v0); [intros [= <-]; cbn; auto 6|discriminate].
Qed.

Lemma confirm_subscribe_exact_errors (flags : PubSubWSMessageFlags)
  (payload : bytes) (e : error) :
  confirm_subscribe.B2S_ConfirmSubscribeExactParser.parse flags
    CONFIRM_SUBSCRIBE_EXACT payload = Err e ->
  In e [MalformedHeader; KeyError (lit "x-topic")].
Proof.
  unfold confirm_subscribe.B2S_ConfirmSubscribeExactParser.parse.
  change (negb (type_eqb CONFIRM_SUBSCRIBE_EXACT CONFIRM_SUBSCRIBE_EXACT))
    with false.
  cbv iota. open_parser; [|intros [= <-]; close_error; cbn; auto].
  open_lookup; [discriminate|intros [= <-]; close_error; cbn; auto].
Qed.

Lemma confirm_unsubscribe_exact_errors (flags : PubSubWSMessageFlags)
  (payload : bytes) (e : error) :
  confirm_unsubscribe.B2S_ConfirmUnsubscribeExactParser.parse flags
    CONFIRM_UNSUBSCRIBE_EXACT payload = Err e ->
  In e [MalformedHeader; KeyError (lit "x-topic")].
Proof.
  unfold confirm_unsubscribe.B2S_ConfirmUnsubscribeExactParser.parse.
  change (negb (type_eqb CONFIRM_UNSUBSCRIBE_EXACT CONFIRM_UNSUBSCRIBE_EXACT))
    with false.
  cbv iota. open_parser; [|intros [= <-]; close_error; cbn; auto].
  open_lookup; [discriminate|intros [= <-]; close_error; cbn; auto].
Qed.

Lemma confirm_subscribe_glob_errors (flags : PubSubWSMessageFlags)
  (payload : bytes) (e : error) :
  confirm_subscribe.B2S_ConfirmSubscribeGlobParser.parse flags
    CONFIRM_SUBSCRIBE_GLOB payload = Err e ->
  In e [MalformedHeader; KeyError (lit "x-glob"); UnicodeDecodeError].
Proof.
  unfold confirm_subscribe.B2S_ConfirmSubscribeGlobParser.parse.
  change (negb (type_eqb CONFIRM_SUBSCRIBE_GLOB CONFIRM_SUBSCRIBE_GLOB))
    with false.
  cbv iota. open_parser; [|intros [= <-]; close_error; cbn; auto].
  open_lookup; [|intros [= <-]; close_error; cbn; auto].
  destruct (decode_utf8 v) as [s|e'] eqn:Hd; cbn [bind]; [discriminate|].
  intros [= <-]. close_error. cbn; auto.
Qed.

Lemma confirm_unsubscribe_glob_errors (flags : PubSubWSMessageFlags)
  (payload : bytes) (e : error) :
  confirm_unsubscribe.B2S_ConfirmUnsubscribeGlobParser.parse flags
    CONFIRM_UNSUBSCRIBE_GLOB payload = Err e ->
  In e [MalformedHeader; KeyError (lit "x-glob"); UnicodeDecodeError].
Proof.
  unfold confirm_unsubscribe.B2S_ConfirmUnsubscribeGlobParser.parse.
  change (negb (type_eqb CONFIRM_UNSUBSCRIBE_GLOB CONFIRM_UNSUBSCRIBE_GLOB))
    with false.
  cbv iota. open_parser; [|intros [= <-]; close_error; cbn; auto].
  open_lookup; [|intros [= <-]; close_error; cbn; auto].
  destruct (decode_utf8 v) as [s|e'] eqn:Hd; cbn [bind]; [discriminate|].
  intros [= <-]. close_error. cbn; auto.
Qed.


Ltac not_listed H :=
  cbn [In] in H;
  repeat match type of H with
  | _ \/ _ => destruct H as [H|H]
  | False => destruct H
  | _ = _ => discriminate H
  end.

Ltac by_relevant_types errors :=
  split;
  [ intros H [<-|[]]; apply errors in H; not_listed H
  | intros Hn;
    try unfold confirm_subscribe.B2S_ConfirmSubscribeExactParser.parse;
    try unfold confirm_subscribe.B2S_ConfirmSubscribeGlobParser.parse;
    try unfold confirm_unsubscribe.B2S_ConfirmUnsubscribeExactParser.parse;
    try unfold confirm_unsubscribe.B2S_ConfirmUnsubscribeGlobParser.parse;
    try unfold confirm_notify.B2S_ConfirmNotifyParser.parse;
    try unfold continue_notify.B2S_ContinueNotifyParser.parse;
    match goal with
    | |- context [type_eqb ?t ?own] =>
        rewrite (type_eqb_neq t own) by (intros ->; apply Hn; now left)
    end; reflexivity ].

(** X1.  A parser raises the assertion error exactly on the message types
    that its [relevant_types] do not list: the assertion and the
    declaration agree, and nothing past the assertion raises it. *)
Theorem parsers_assert_their_relevant_types (flags : N)
  (type : BroadcasterToSubscriberWSMessageType) (payload : bytes) :
  (confirm_subscribe.B2S_ConfirmSubscribeExactParser.parse flags type payload
   = Err AssertionError
   <-> ~ In type
         confirm_subscribe.B2S_ConfirmSubscribeExactParser.relevant_types)
  /\ (confirm_subscribe.B2S_ConfirmSubscribeGlobParser.parse flags type payload
      = Err AssertionError
      <-> ~ In type
            confirm_subscribe.B2S_ConfirmSubscribeGlobParser.relevant_types)
  /\ (confirm_unsubscribe.B2S_ConfirmUnsubscribeExactParser.parse flags type
        payload = Err AssertionError
      <-> ~ In type
            confirm_unsubscribe.B2S_ConfirmUnsubscribeExactParser.relevant_types)
  /\ (confirm_unsubscribe.B2S_ConfirmUnsubscribeGlobParser.parse flags type
        payload = Err AssertionError
      <-> ~ In type
            confirm_unsubscribe.B2S_ConfirmUnsubscribeGlobParser.relevant_types)
  /\ (confirm_notify.B2S_ConfirmNotifyParser.parse flags type payload
      = Err AssertionError
      <-> ~ In type confirm_notify.B2S_ConfirmNotifyParser.relevant_types)
  /\ (continue_notify.B2S_ContinueNotifyParser.parse flags type payload
      = Err AssertionError
      <-> ~ In type continue_notify.B2S_ContinueNotifyParser.relevant_types).
Proof.
  split; [|split; [|split; [|split; [|split]]]].
  - unfold confirm_subscribe.B2S_ConfirmSubscribeExactParser.relevant_types.
    by_relevant_types confirm_subscribe_exact_errors.
  - unfold confirm_subscribe.B2S_ConfirmSubscribeGlobParser.relevant_types.
    by_relevant_types confirm_subscribe_glob_errors.
  - unfold confirm_unsubscribe.B2S_ConfirmUnsubscribeExactParser.relevant_types.
    by_relevant_types confirm_unsubscribe_exact_errors.
  - unfold confirm_unsubscribe.B2S_ConfirmUnsubscribeGlobParser.relevant_types.
    by_relevant_types confirm_unsubscribe_glob_errors.
  - unfold confirm_notify.B2S_ConfirmNotifyParser.relevant_types.
    by_relevant_types confirm_notify_errors.
  - unfold continue_notify.B2S_ContinueNotifyParser.relevant_types.
    by_relevant_types continue_notify_errors.
Qed.

(** X2.  The notify parsers raise nothing but: the assertion error, the
    header codec's error, a missing x-identifier, the identifier's size
    error, a missing numeric header, and the numeric header's size error. *)
Theorem notify_parsers_raise_only (flags : N)
  (type : BroadcasterToSubscriberWSMessageType) (payload : bytes) (e : error) :
  (confirm_notify.B2S_ConfirmNotifyParser.parse flags type payload = Err e ->
   In e [AssertionError; MalformedHeader;
         KeyError (lit "x-identifier");
         ValueError "x-identifier must be at most 64 bytes";
         KeyError (lit "x-subscribers");
         ValueError "x-subscribers must be at most 8 bytes"])
  /\ (continue_notify.B2S_ContinueNotifyParser.parse flags type payload = Err e ->
      In e [AssertionError; MalformedHeader;
            KeyError (lit "x-identifier");
            ValueError "x-identifier must be at most 64 bytes";
            KeyError (lit "x-part-id");
            ValueError "x-part-id must be at most 8 bytes"]).
Proof.
  split.
  - destruct (type_eqb type CONFIRM_NOTIFY) eqn:Ht.
    + apply type_eqb_eq in Ht. subst type. intros H. right.
      now apply confirm_notify_errors in H.
    + unfold confirm_notify.B2S_ConfirmNotifyParser.parse. rewrite Ht.
      intros [= <-]. now left.
  - destruct (type_eqb type CONTINUE_NOTIFY) eqn:Ht.
    + apply type_eqb_eq in Ht. subst type. intros H. right.
      now apply continue_notify_errors in H.
    + unfold continue_notify.B2S_ContinueNotifyParser.parse. rewrite Ht.
      intros [= <-]. now left.
Qed.

Lemma notify_parsers_raise_only_witness :
  confirm_notify.B2S_ConfirmNotifyParser.parse 0 CONFIRM_NOTIFY
    (other_header_section ++ other_header_section)
  = Err (KeyError (lit "x-identifier"))
  /\ In (KeyError (lit "x-identifier"))
     [AssertionError; MalformedHeader;
      KeyError (lit "x-identifier");
      ValueError "x-identifier must be at most 64 bytes";
      KeyError (lit "x-subscribers");
      ValueError "x-subscribers must be at most 8 bytes"].
Proof.
  split; [reflexivity|].
  apply (proj1 (notify_parsers_raise_only 0 CONFIRM_NOTIFY
                  (other_header_section ++ other_header_section)
                  (KeyError (lit "x-identifier")))).
  reflexivity.
Defined.

(** X3.  The exact parsers never validate the topic: they raise nothing but
    the assertion error, the header codec's error and a missing x-topic. *)
Theorem exact_parsers_raise_only (flags : N)
  (type : BroadcasterToSubscriberWSMessageType) (payload : bytes) (e : error) :
  (confirm_subscribe.B2S_ConfirmSubscribeExactParser.parse flags type payload
   = Err e ->
   In e [AssertionError; MalformedHeader; KeyError (lit "x-topic")])
  /\ (confirm_unsubscribe.B2S_ConfirmUnsubscribeExactParser.parse flags type
        payload = Err e ->
      In e [AssertionError; MalformedHeader; KeyError (lit "x-topic")]).
Proof.
  split.
  - destruct (type_eqb type CONFIRM_SUBSCRIBE_EXACT) eqn:Ht.
    + apply type_eqb_eq in Ht. subst type. intros H. right.
      now apply confirm_subscribe_exact_errors in H.
    + unfold confirm_subscribe.B2S_ConfirmSubscribeExactParser.parse.
      rewrite Ht. intros [= <-]. now left.
  - destruct (type_eqb type CONFIRM_UNSUBSCRIBE_EXACT) eqn:Ht.
    + apply type_eqb_eq in Ht. subst type. intros H. right.
      now apply confirm_unsubscribe_exact_errors in H.
    + unfold confirm_unsubscribe.B2S_ConfirmUnsubscribeExactParser.parse.
      rewrite Ht. intros [= <-]. now left.
Qed.

Lemma exact_parsers_raise_only_witness :
  confirm_subscribe.B2S_ConfirmSubscribeExactParser.parse 0
    CONFIRM_SUBSCRIBE_EXACT other_header_section
  = Err (KeyError (lit "x-topic"))
  /\ confirm_unsubscribe.B2S_ConfirmUnsubscribeExactParser.parse 1
       CONFIRM_UNSUBSCRIBE_EXACT truncated_section
     = Err MalformedHeader
  /\ In (KeyError (lit "x-topic"))
        [AssertionError; MalformedHeader; KeyError (lit "x-topic")]
  /\ In MalformedHeader
        [AssertionError; MalformedHeader; KeyError (lit "x-topic")].
Proof.
  split; [reflexivity|]. split; [reflexivity|]. split.
  - apply (proj1 (exact_parsers_raise_only 0 CONFIRM_SUBSCRIBE_EXACT
                    other_header_section (KeyError (lit "x-topic")))).
    reflexivity.
  - apply (proj2 (exact_parsers_raise_only 1 CONFIRM_UNSUBSCRIBE_EXACT
                    truncated_section MalformedHeader)).
    reflexivity.
Defined.

(** X4.  The glob parsers raise nothing but the assertion error, the header
    codec's error, a missing x-glob and the UTF-8 decoding error. *)
Theorem glob_parsers_raise_only (flags : N)
  (type : BroadcasterToSubscriberWSMessageType) (payload : bytes) (e : error) :
  (confirm_subscribe.B2S_ConfirmSubscribeGlobParser.parse flags type payload
   = Err e ->
   In e [AssertionError; MalformedHeader; KeyError (lit "x-glob");
         UnicodeDecodeError])
  /\ (confirm_unsubscribe.B2S_ConfirmUnsubscribeGlobParser.parse flags type
        payload = Err e ->
      In e [AssertionError; MalformedHeader; KeyError (lit "x-glob");
            UnicodeDecodeError]).
Proof.
  split.
  - destruct (type_eqb type CONFIRM_SUBSCRIBE_GLOB) eqn:Ht.
    + apply type_eqb_eq in Ht. subst type. intros H. right.
      now apply confirm_subscribe_glob_errors in H.
    + unfold confirm_subscribe.B2S_ConfirmSubscribeGlobParser.parse.
      rewrite Ht. intros [= <-]. now left.
  - destruct (type_eqb type CONFIRM_UNSUBSCRIBE_GLOB) eqn:Ht.
    + apply type_eqb_eq in Ht. subst type. intros H. right.
      now apply confirm_unsubscribe_glob_errors in H.
    + unfold confirm_unsubscribe.B2S_ConfirmUnsubscribeGlobParser.parse.
      rewrite Ht. intros [= <-]. now left.
Qed.

Lemma glob_parsers_raise_only_witness :
  confirm_subscribe.B2S_ConfirmSubscribeGlobParser.parse 0 CONFIRM_NOTIFY []
  = Err AssertionError
  /\ confirm_unsubscribe.B2S_ConfirmUnsubscribeGlobParser.parse 0
       CONFIRM_UNSUBSCRIBE_GLOB other_header_section
     = Err (KeyError (lit "x-glob"))
  /\ In AssertionError
        [AssertionError; MalformedHeader; KeyError (lit "x-glob");
         UnicodeDecodeError]
  /\ In (KeyError (lit "x-glob"))
        [AssertionError; MalformedHeader; KeyError (lit "x-glob");
         UnicodeDecodeError].
Proof.
  split; [reflexivity|]. split; [reflexivity|]. split.
  - apply (proj1 (glob_parsers_raise_only 0 CONFIRM_NOTIFY [] AssertionError)).
    reflexivity.
  - apply (proj2 (glob_parsers_raise_only 0 CONFIRM_UNSUBSCRIBE_GLOB
                    other_header_section (KeyError (lit "x-glob")))).
    reflexivity.
Defined.


(** ** What the parsers return *)

Lemma from_bytes_big_u64 (bs : bytes) : len bs <= 8 -> from_bytes_big bs < 2 ^ 64.
Proof.
  intros H. pose proof (from_bytes_big_lt bs) as L.
  eapply N.lt_le_trans; [exact L|].
  change (2 ^ 64) with (256 ^ 8). apply N.pow_le_mono_r; lia.
Qed.

Lemma encode_code_point_scalar (cp : N) (h : bytes) :
  encode_code_point cp = Ok h -> is_scalar_value cp = true.
Proof.
  unfold encode_code_point, is_scalar_value, is_surrogate.
  destruct (N.ltb_spec cp 0x80);
    [intros _; decide_tests; try reflexivity|].
  destruct (N.ltb_spec cp 0x800);
    [intros _; decide_tests; try reflexivity|].
  destruct (N.ltb_spec cp 0x10000).
  - destruct (N.leb_spec 0xD800 cp); [destruct (N.leb_spec cp 0xDFFF)|];
      cbn [andb negb]; try discriminate; intros _; decide_tests; try reflexivity.
  - destruct (N.ltb_spec cp 0x110000); [|discriminate].
    intros _. decide_tests; try reflexivity.
Qed.

Lemma encode_utf8_valid (s : str) (value : bytes) :
  encode_utf8 s = Ok value -> valid_str s = true.
Proof.
  revert value. induction s as [|cp s IH]; intros value; [reflexivity|].
  cbn [encode_utf8 valid_str forallb].
  destruct (encode_code_point cp) as [h|] eqn:Eh; [|discriminate].
  cbn [bind].
  destruct (encode_utf8 s) as [t|] eqn:Et; [|discriminate].
  intros _. rewrite (encode_code_point_scalar cp h Eh).
  exact (IH t eq_refl).
Qed.

(** X5.  Whatever the notify parsers return is within bounds: the type
    passed in was the parser's own and is the message's discriminator, the
    identifier has at most 64 bytes, and the count or part id is below
    2^64. *)
Theorem notify_parsers_return_bounded (flags : N)
  (type : BroadcasterToSubscriberWSMessageType) (payload : bytes) :
  (forall m,
     confirm_notify.B2S_ConfirmNotifyParser.parse flags type payload = Ok m ->
     type = CONFIRM_NOTIFY
     /\ m.(confirm_notify.type) = CONFIRM_NOTIFY
     /\ len m.(confirm_notify.identifier) <= 64
     /\ m.(confirm_notify.subscribers) < 2 ^ 64)
  /\ (forall m,
        continue_notify.B2S_ContinueNotifyParser.parse flags type payload
        = Ok m ->
        type = CONTINUE_NOTIFY
        /\ m.(continue_notify.type) = CONTINUE_NOTIFY
        /\ len m.(continue_notify.identifier) <= 64
        /\ m.(continue_notify.part_id) < 2 ^ 64).
Proof.
  split; intros m.
  - unfold confirm_notify.B2S_ConfirmNotifyParser.parse.
    destruct (type_eqb type CONFIRM_NOTIFY) eqn:Ht; [|discriminate].
    apply type_eqb_eq in Ht. subst type. cbn [negb].
    open_parser; [|discriminate]. open_lookup; [|discriminate].
    destruct (N.ltb_spec 64 (len v)) as [|Hid]; [discriminate|].
    open_lookup; [|discriminate].
    destruct (N.ltb_spec 8 (len v0)) as [|Hn]; [discriminate|].
    intros H. apply Ok_inj in H. subst m.
    cbn [confirm_notify.type confirm_notify.identifier
         confirm_notify.subscribers].
    repeat split; [exact Hid | now apply from_bytes_big_u64].
  - unfold continue_notify.B2S_ContinueNotifyParser.parse.
    destruct (type_eqb type CONTINUE_NOTIFY) eqn:Ht; [|discriminate].
    apply type_eqb_eq in Ht. subst type. cbn [negb].
    open_parser; [|discriminate]. open_lookup; [|discriminate].
    destruct (N.ltb_spec 64 (len v)) as [|Hid]; [discriminate|].
    open_lookup; [|discriminate].
    destruct (N.ltb_spec 8 (len v0)) as [|Hn]; [discriminate|].
    intros H. apply Ok_inj in H. subst m.
    cbn [continue_notify.type continue_notify.identifier
         continue_notify.part_id].
    repeat split; [exact Hid | now apply from_bytes_big_u64].
Qed.

Lemma notify_parsers_return_bounded_witness :
  continue_notify.B2S_ContinueNotifyParser.parse 1 CONTINUE_NOTIFY part_two
  = Ok {| continue_notify.type := CONTINUE_NOTIFY;
          continue_notify.identifier := lit "id";
          continue_notify.part_id := 2 |}
  /\ len (lit "id") <= 64 /\ 2 < 2 ^ 64.
Proof.
  split; [reflexivity|].
  apply (proj2 (notify_parsers_return_bounded 1 CONTINUE_NOTIFY part_two)
           {| continue_notify.type := CONTINUE_NOTIFY;
              continue_notify.identifier := lit "id";
              continue_notify.part_id := 2 |} eq_refl).
Defined.

(** X6.  Whatever the glob parsers return is text: the discriminator is the
    parser's own and the glob holds Unicode scalar values only, so the glob
    serializers can encode it again. *)
Theorem glob_parsers_return_text (flags : N)
  (type : BroadcasterToSubscriberWSMessageType) (payload : bytes) :
  (forall m,
     confirm_subscribe.B2S_ConfirmSubscribeGlobParser.parse flags type payload
     = Ok m ->
     m.(confirm_subscribe.glob_type) = CONFIRM_SUBSCRIBE_GLOB
     /\ valid_str m.(confirm_subscribe.glob) = true
     /\ exists value, encode_utf8 m.(confirm_subscribe.glob) = Ok value)
  /\ (forall m,
        confirm_unsubscribe.B2S_ConfirmUnsubscribeGlobParser.parse flags type
          payload = Ok m ->
        m.(confirm_unsubscribe.glob_type) = CONFIRM_UNSUBSCRIBE_GLOB
        /\ valid_str m.(confirm_unsubscribe.glob) = true
        /\ exists value, encode_utf8 m.(confirm_unsubscribe.glob) = Ok value).
Proof.
  split; intros m.
  - unfold confirm_subscribe.B2S_ConfirmSubscribeGlobParser.parse.
    destruct (type_eqb type CONFIRM_SUBSCRIBE_GLOB) eqn:Ht; [|discriminate].
    apply type_eqb_eq in Ht. subst type. cbn [negb].
    open_parser; [|discriminate]. open_lookup; [|discriminate].
    destruct (decode_utf8 v) as [s|] eqn:Hd; [|discriminate]. cbn [bind].
    intros H. apply Ok_inj in H. subst m.
    cbn [confirm_subscribe.glob_type confirm_subscribe.glob].
    apply encode_decode_utf8 in Hd.
    split; [reflexivity|]. split; [now apply (encode_utf8_valid s v)|eauto].
  - unfold confirm_unsubscribe.B2S_ConfirmUnsubscribeGlobParser.parse.
    destruct (type_eqb type CONFIRM_UNSUBSCRIBE_GLOB) eqn:Ht; [|discriminate].
    apply type_eqb_eq in Ht. subst type. cbn [negb].
    open_parser; [|discriminate]. open_lookup; [|discriminate].
    destruct (decode_utf8 v) as [s|] eqn:Hd; [|discriminate]. cbn [bind].
    intros H. apply Ok_inj in H. subst m.
    cbn [confirm_unsubscribe.glob_type confirm_unsubscribe.glob].
    apply encode_decode_utf8 in Hd.
    split; [reflexivity|]. split; [now apply (encode_utf8_valid s v)|eauto].
Qed.

Lemma glob_parsers_return_text_witness :
  confirm_subscribe.B2S_ConfirmSubscribeGlobParser.parse 0
    CONFIRM_SUBSCRIBE_GLOB glob_section
  = Ok {| confirm_subscribe.glob_type := CONFIRM_SUBSCRIBE_GLOB;
          confirm_subscribe.glob := [0x66; 0xE9; 0x2F; 0x2A] |}
  /\ valid_str [0x66; 0xE9; 0x2F; 0x2A] = true.
Proof.
  split; [reflexivity|].
  apply (proj1 (glob_parsers_return_text 0 CONFIRM_SUBSCRIBE_GLOB glob_section)
           {| confirm_subscribe.glob_type := CONFIRM_SUBSCRIBE_GLOB;
              confirm_subscribe.glob := [0x66; 0xE9; 0x2F; 0x2A] |} eq_refl).
Defined.

(** ** Missing headers and the order of the checks *)

(** X7.  In the notify parsers a failure of the header codec passes
    through unchanged, a missing x-identifier is a key error, an identifier
    over 64 bytes is reported before the numeric header is even looked up
    (be it missing or oversized), and only then is a missing numeric header
    a key error. *)
Theorem notify_parsers_check_identifier_first (flags : N) (payload : bytes) :
  (forall e,
     parse_simple_headers flags payload confirm_notify._headers = Err e ->
     confirm_notify.B2S_ConfirmNotifyParser.parse flags CONFIRM_NOTIFY payload
     = Err e)
  /\ (forall headers rest,
        parse_simple_headers flags payload confirm_notify._headers
        = Ok (headers, rest) ->
        let r := confirm_notify.B2S_ConfirmNotifyParser.parse flags
                   CONFIRM_NOTIFY payload in
        (forall e, dict_get headers (lit "x-identifier") = Err e ->
           r = Err (KeyError (lit "x-identifier")))
        /\ (forall id, dict_get headers (lit "x-identifier") = Ok id ->
              64 < len id ->
              r = Err (ValueError "x-identifier must be at most 64 bytes"))
        /\ (forall id e, dict_get headers (lit "x-identifier") = Ok id ->
              len id <= 64 ->
              dict_get headers (lit "x-subscribers") = Err e ->
              r = Err (KeyError (lit "x-subscribers"))))
  /\ (forall e,
        parse_simple_headers flags payload continue_notify._headers = Err e ->
        continue_notify.B2S_ContinueNotifyParser.parse flags CONTINUE_NOTIFY
          payload = Err e)
  /\ (forall headers rest,
        parse_simple_headers flags payload continue_notify._headers
        = Ok (headers, rest) ->
        let r := continue_notify.B2S_ContinueNotifyParser.parse flags
                   CONTINUE_NOTIFY payload in
        (forall e, dict_get headers (lit "x-identifier") = Err e ->
           r = Err (KeyError (lit "x-identifier")))
        /\ (forall id, dict_get headers (lit "x-identifier") = Ok id ->
              64 < len id ->
              r = Err (ValueError "x-identifier must be at most 64 bytes"))
        /\ (forall id e, dict_get headers (lit "x-identifier") = Ok id ->
              len id <= 64 ->
              dict_get headers (lit "x-part-id") = Err e ->
              r = Err (KeyError (lit "x-part-id")))).
Proof.
  split; [|split; [|split]].
  - intros e He. unfold confirm_notify.B2S_ConfirmNotifyParser.parse.
    change (negb (type_eqb CONFIRM_NOTIFY CONFIRM_NOTIFY)) with false.
    cbv iota. now rewrite He.
  - intros headers rest Hh r. subst r.
    unfold confirm_notify.B2S_ConfirmNotifyParser.parse.
    change (negb (type_eqb CONFIRM_NOTIFY CONFIRM_NOTIFY)) with false.
    cbv iota. rewrite Hh. cbn [bind].
    split; [|split].
    + intros e He. rewrite He. cbn [bind].
      now rewrite (dict_get_error _ _ _ He).
    + intros id Hid Hlong. rewrite Hid. cbn [bind].
      now replace (64 <? len id) with true by (symmetry; apply N.ltb_lt; lia).
    + intros id e Hid Hshort He. rewrite Hid. cbn [bind].
      replace (64 <? len id) with false by (symmetry; apply N.ltb_ge; lia).
      rewrite He. cbn [bind]. now rewrite (dict_get_error _ _ _ He).
  - intros e He. unfold continue_notify.B2S_ContinueNotifyParser.parse.
    change (negb (type_eqb CONTINUE_NOTIFY CONTINUE_NOTIFY)) with false.
    cbv iota. now rewrite He.
  - intros headers rest Hh r. subst r.
    unfold continue_notify.B2S_ContinueNotifyParser.parse.
    change (negb (type_eqb CONTINUE_NOTIFY CONTINUE_NOTIFY)) with false.
    cbv iota. rewrite Hh. cbn [bind].
    split; [|split].
    + intros e He. rewrite He. cbn [bind].
      now rewrite (dict_get_error _ _ _ He).
    + intros id Hid Hlong. rewrite Hid. cbn [bind].
      now replace (64 <? len id) with true by (symmetry; apply N.ltb_lt; lia).
    + intros id e Hid Hshort He. rewrite Hid. cbn [bind].
      replace (64 <? len id) with false by (symmetry; apply N.ltb_ge; lia).
      rewrite He. cbn [bind]. now rewrite (dict_get_error _ _ _ He).
Qed.

Lemma notify_parsers_check_identifier_first_witness :
  dict_get [(lit "x-other", []);
            (lit "x-identifier", repeat x41 (N.to_nat 65))]
    (lit "x-subscribers")
  = Err (KeyError (lit "x-subscribers"))
  /\ confirm_notify.B2S_ConfirmNotifyParser.parse 0 CONFIRM_NOTIFY
       long_identifier_section
     = Err (ValueError "x-identifier must be at most 64 bytes")
  /\ continue_notify.B2S_ContinueNotifyParser.parse 1 CONTINUE_NOTIFY
       truncated_section
     = Err MalformedHeader.
Proof.
  split; [reflexivity|]. split.
  - apply (proj1 (proj2 (proj1 (proj2
             (notify_parsers_check_identifier_first 0 long_identifier_section))
             [(lit "x-other", []);
              (lit "x-identifier", repeat x41 (N.to_nat 65))] []
             eq_refl))
             (repeat x41 (N.to_nat 65)) eq_refl).
    vm_compute. reflexivity.
  - apply (proj1 (proj2 (proj2
             (notify_parsers_check_identifier_first 1 truncated_section)))).
    reflexivity.
Defined.


(** ** Header sections that decode *)

Lemma bound_cons (name value : bytes) (names values : list bytes) (d : dict) :
  bound (name :: names) (value :: values) d
  = bound names values (dict_set d name value).
Proof. reflexivity. Qed.

Lemma decode_headers_inv (minimal : bool) (names : list bytes) :
  forall (payload rest : bytes) (d headers : dict),
  decode_headers minimal payload names d = Ok (headers, rest) ->
  exists wire values,
    List.length wire = List.length names
    /\ List.length values = List.length names
    /\ (minimal = true -> wire = names)
    /\ (forall x, In x wire \/ In x values -> len x <= 65535)
    /\ payload = header_section minimal wire values ++ rest
    /\ headers = bound wire values d.
Proof.
  induction names as [|expected names IH]; intros payload rest d headers.
  { cbn [decode_headers]. intros H. apply Ok_inj in H.
    injection H as <- <-. exists [], [].
    repeat split; try reflexivity. intros x [[]|[]]. }
  cbn [decode_headers]. unfold check_header_size.
  destruct (N.leb_spec (len expected) 65535) as [Hexp|]; [|discriminate].
  cbn [bind].
  assert (Hvalue : forall name p,
    len name <= 65535 -> (minimal = true -> name = expected) ->
    (' (value, payload2) <- read_length_prefixed p ;;
     decode_headers minimal payload2 names (dict_set d name value))
    = Ok (headers, rest) ->
    exists wire values,
      List.length wire = List.length (expected :: names)
      /\ List.length values = List.length (expected :: names)
      /\ (minimal = true -> wire = expected :: names)
      /\ (forall x, In x wire \/ In x values -> len x <= 65535)
      /\ (if minimal then [] else length_prefixed name) ++ p
         = header_section minimal wire values ++ rest
      /\ headers = bound wire values d).
  { intros name p Hname Hmin.
    destruct (read_length_prefixed p) as [[value payload2]|] eqn:Ev;
      cbn [bind]; [|discriminate].
    intros Hrec. apply read_length_prefixed_ok in Ev.
    destruct Ev as [-> Hv].
    destruct (IH _ _ _ _ Hrec) as (wire & values & Hw & Hvs & Hm & Hs & -> & ->).
    exists (name :: wire), (value :: values).
    split; [cbn [List.length]; now rewrite Hw|].
    split; [cbn [List.length]; now rewrite Hvs|].
    split; [intros Ht; now rewrite (Hmin Ht), (Hm Ht)|].
    split.
    { intros x [[<-|Hx]|[<-|Hx]]; auto. }
    split; [|reflexivity].
    cbn [header_section]. now rewrite <- !app_assoc. }
  destruct minimal; cbn [bind].
  - intros H. apply (Hvalue expected payload Hexp (fun _ => eq_refl)) in H.
    exact H.
  - destruct (read_length_prefixed payload) as [[name payload1]|] eqn:Ek;
      cbn [bind]; [|discriminate].
    apply read_length_prefixed_ok in Ek. destruct Ek as [-> Hk].
    intros H. apply (Hvalue name payload1 Hk) in H; [exact H|discriminate].
Qed.

Lemma header_section_minimal (names names' values : list bytes) :
  List.length names = List.length names' ->
  header_section true names values = header_section true names' values.
Proof.
  revert names' values.
  induction names as [|n names IH]; intros [|n' names'] values Hlen;
    try discriminate; [reflexivity|].
  destruct values as [|v values]; [reflexivity|].
  cbn [header_section]. f_equal. f_equal. apply IH. now injection Hlen.
Qed.

Lemma decode_header_section (minimal : bool) (names values : list bytes)
  (rest : bytes) (d : dict) :
  List.length names = List.length values ->
  (forall x, In x names \/ In x values -> len x <= 65535) ->
  decode_headers minimal (header_section minimal names values ++ rest) names d
  = Ok (bound names values d, rest).
Proof.
  intros Hlen Hs.
  destruct (encode_headers_fits minimal names values Hs) as [section Henc].
  rewrite <- (encode_headers_section _ _ _ _ Henc).
  now apply decode_encode_headers.
Qed.

Lemma parse_simple_headers_inv (flags : PubSubWSMessageFlags)
  (payload rest : bytes) (names : list bytes) (headers : dict) :
  parse_simple_headers flags payload names = Ok (headers, rest) ->
  exists wire values,
    List.length wire = List.length names
    /\ List.length values = List.length names
    /\ (minimal_flag flags = true -> wire = names)
    /\ (forall x, In x wire \/ In x values -> len x <= 65535)
    /\ payload = header_section (minimal_flag flags) wire values ++ rest
    /\ headers = bound wire values [].
Proof. apply decode_headers_inv. Qed.

Lemma decode_explicit_section (wire : list bytes) :
  forall (values names : list bytes) (rest : bytes) (d : dict),
  List.length wire = List.length values ->
  List.length names = List.length wire ->
  (forall x, In x names \/ In x wire \/ In x values -> len x <= 65535) ->
  decode_headers false (header_section false wire values ++ rest) names d
  = Ok (bound wire values d, rest).
Proof.
  induction wire as [|w wire IH]; intros [|v values] [|n names] rest d Hv Hn Hs;
    try discriminate; [reflexivity|].
  cbn [header_section decode_headers].
  rewrite check_header_size_ok by (apply Hs; cbn; auto). cbn [bind].
  rewrite <- !app_assoc.
  rewrite read_length_prefixed_app by (apply Hs; cbn; auto). cbn [bind].
  rewrite read_length_prefixed_app by (apply Hs; cbn; auto). cbn [bind].
  rewrite bound_cons. apply IH; [now injection Hv | now injection Hn |].
  intros x [Hx|[Hx|Hx]]; apply Hs; cbn; auto.
Qed.

Lemma decode_headers_more (minimal : bool) (names : list bytes)
  (payload rest extra : bytes) (d headers : dict) :
  decode_headers minimal payload names d = Ok (headers, rest) ->
  decode_headers minimal (payload ++ extra) names d
  = Ok (headers, rest ++ extra).
Proof.
  intros H.
  pose proof (proj1 (decode_headers_sized _ _ _ _ _ _ H)) as Hnames.
  destruct (decode_headers_inv _ _ _ _ _ _ H)
    as (wire & values & Hw & Hvs & Hm & Hs & -> & ->).
  rewrite <- app_assoc. destruct minimal.
  - rewrite (Hm eq_refl) in *.
    apply decode_header_section; [now rewrite Hvs | exact Hs].
  - apply decode_explicit_section; [now rewrite Hw, Hvs | now rewrite Hw |].
    intros x [Hx|Hx]; [now apply Hnames | now apply Hs].
Qed.

Lemma parse_simple_headers_more (flags : PubSubWSMessageFlags)
  (payload rest extra : bytes) (names : list bytes) (headers : dict) :
  parse_simple_headers flags payload names = Ok (headers, rest) ->
  parse_simple_headers flags (payload ++ extra) names
  = Ok (headers, rest ++ extra).
Proof. apply decode_headers_more. Qed.

Lemma bound_binds (names : list bytes) :
  forall (values : list bytes) (d : dict),
  List.length values = List.length names ->
  (forall k, In k names -> exists v, dict_get (bound names values d) k = Ok v)
  /\ (forall k v, dict_get d k = Ok v ->
      exists v', dict_get (bound names values d) k = Ok v').
Proof.
  induction names as [|n names IH]; intros [|v values] d Hlen;
    try discriminate.
  - split; [intros k []|]. intros k v Hk. now exists v.
  - rewrite bound_cons.
    destruct (IH values (dict_set d n v)) as [Hin Hold]; [now injection Hlen|].
    split.
    + intros k [<-|Hk]; [|now apply Hin].
      apply (Hold n v). apply dict_get_set_same.
    + intros k v0 Hk.
      destruct (bytes_eqb n k) eqn:E.
      * apply (Hold k v). cbn [dict_get dict_set]. now rewrite E.
      * apply (Hold k v0). cbn [dict_get dict_set]. now rewrite E.
Qed.

Lemma minimal_binds (flags : PubSubWSMessageFlags) (payload rest : bytes)
  (names : list bytes) (headers : dict) :
  N.land flags MINIMAL_HEADERS <> 0 ->
  parse_simple_headers flags payload names = Ok (headers, rest) ->
  forall k, In k names -> exists v, dict_get headers k = Ok v.
Proof.
  intros Hf H.
  destruct (parse_simple_headers_inv _ _ _ _ _ H)
    as (wire & values & _ & Hvs & Hm & _ & _ & ->).
  assert (Hmin : minimal_flag flags = true).
  { unfold minimal_flag. now destruct (N.eqb_spec (N.land flags MINIMAL_HEADERS) 0). }
  rewrite (Hm Hmin). now apply bound_binds.
Qed.


(** ** Minimal mode has no missing header *)

Ltac bound_header Hb name :=
  let v := fresh "v" in
  let Hv := fresh "Hv" in
  destruct (Hb name) as [v Hv];
  [ cbv [In confirm_notify._headers continue_notify._headers
         confirm_subscribe._exact_headers confirm_subscribe._glob_headers
         confirm_unsubscribe._exact_headers confirm_unsubscribe._glob_headers];
    auto
  | rewrite Hv; cbn [bind] ].

Ltac minimal_parser Hf :=
  match goal with
  | |- context [parse_simple_headers ?f ?p ?n] =>
      let headers := fresh "headers" in
      let rest := fresh "rest" in
      let e := fresh "e" in
      let Hh := fresh "Hh" in
      let Hb := fresh "Hb" in
      destruct (parse_simple_headers f p n) as [[headers rest]|e] eqn:Hh;
      cbn [bind];
      [ pose proof (minimal_binds f p rest n headers Hf Hh) as Hb
      | apply parse_simple_headers_error in Hh; subst e; discriminate ]
  end.

(** X8.  With the minimal-headers flag set no parser raises a key error:
    the headers are bound to the names the parser expects, so every lookup
    finds its header. *)
Theorem minimal_mode_has_no_key_error (flags : N)
  (type : BroadcasterToSubscriberWSMessageType) (payload name : bytes) :
  N.land flags MINIMAL_HEADERS <> 0 ->
  confirm_subscribe.B2S_ConfirmSubscribeExactParser.parse flags type payload
  <> Err (KeyError name)
  /\ confirm_subscribe.B2S_ConfirmSubscribeGlobParser.parse flags type payload
     <> Err (KeyError name)
  /\ confirm_unsubscribe.B2S_ConfirmUnsubscribeExactParser.parse flags type
       payload <> Err (KeyError name)
  /\ confirm_unsubscribe.B2S_ConfirmUnsubscribeGlobParser.parse flags type
       payload <> Err (KeyError name)
  /\ confirm_notify.B2S_ConfirmNotifyParser.parse flags type payload
     <> Err (KeyError name)
  /\ continue_notify.B2S_ContinueNotifyParser.parse flags type payload
     <> Err (KeyError name).
Proof.
  intros Hf. split; [|split; [|split; [|split; [|split]]]].
  - unfold confirm_subscribe.B2S_ConfirmSubscribeExactParser.parse.
    destruct (negb _); [discriminate|]. minimal_parser Hf.
    bound_header Hb (lit "x-topic"). discriminate.
  - unfold confirm_subscribe.B2S_ConfirmSubscribeGlobParser.parse.
    destruct (negb _); [discriminate|]. minimal_parser Hf.
    bound_header Hb (lit "x-glob").
    destruct (decode_utf8 v) as [s|e] eqn:Hd; cbn [bind]; [discriminate|].
    apply decode_utf8_error in Hd. subst e. discriminate.
  - unfold confirm_unsubscribe.B2S_ConfirmUnsubscribeExactParser.parse.
    destruct (negb _); [discriminate|]. minimal_parser Hf.
    bound_header Hb (lit "x-topic"). discriminate.
  - unfold confirm_unsubscribe.B2S_ConfirmUnsubscribeGlobParser.parse.
    destruct (negb _); [discriminate|]. minimal_parser Hf.
    bound_header Hb (lit "x-glob").
    destruct (decode_utf8 v) as [s|e] eqn:Hd; cbn [bind]; [discriminate|].
    apply decode_utf8_error in Hd. subst e. discriminate.
  - unfold confirm_notify.B2S_ConfirmNotifyParser.parse.
    destruct (negb _); [discriminate|]. minimal_parser Hf.
    bound_header Hb (lit "x-identifier").
    destruct (64 <? len v); [discriminate|].
    bound_header Hb (lit "x-subscribers").
    destruct (8 <? len v0); discriminate.
  - unfold continue_notify.B2S_ContinueNotifyParser.parse.
    destruct (negb _); [discriminate|]. minimal_parser Hf.
    bound_header Hb (lit "x-identifier").
    destruct (64 <? len v); [discriminate|].
    bound_header Hb (lit "x-part-id").
    destruct (8 <? len v0); discriminate.
Qed.

Lemma minimal_mode_has_no_key_error_witness :
  confirm_notify.B2S_ConfirmNotifyParser.parse 0 CONFIRM_NOTIFY
    (other_header_section ++ other_header_section)
  = Err (KeyError (lit "x-identifier"))
  /\ confirm_notify.B2S_ConfirmNotifyParser.parse 1 CONFIRM_NOTIFY
       (other_header_section ++ other_header_section)
     <> Err (KeyError (lit "x-identifier")).
Proof.
  split; [reflexivity|].
  apply (minimal_mode_has_no_key_error 1 CONFIRM_NOTIFY
           (other_header_section ++ other_header_section)
           (lit "x-identifier")).
  discriminate.
Defined.

(** ** Bytes after the header section *)

Ltac with_more extra :=
  match goal with
  | |- context [parse_simple_headers ?f (?p ++ extra) ?n] =>
      let headers := fresh "headers" in
      let rest := fresh "rest" in
      let Hh := fresh "Hh" in
      destruct (parse_simple_headers f p n) as [[headers rest]|] eqn:Hh;
      cbn [bind]; [|discriminate];
      rewrite (parse_simple_headers_more f p rest extra n headers Hh);
      cbn [bind]; trivial
  end.

(** X9.  No parser looks at what follows the header section: a payload
    that parses still parses, to the same message, with any bytes appended
    to it. *)
Theorem parsers_ignore_trailing_bytes (flags : N)
  (type : BroadcasterToSubscriberWSMessageType) (payload extra : bytes) :
  (forall m,
     confirm_subscribe.B2S_ConfirmSubscribeExactParser.parse flags type payload
     = Ok m ->
     confirm_subscribe.B2S_ConfirmSubscribeExactParser.parse flags type
       (payload ++ extra) = Ok m)
  /\ (forall m,
        confirm_subscribe.B2S_ConfirmSubscribeGlobParser.parse flags type
          payload = Ok m ->
        confirm_subscribe.B2S_ConfirmSubscribeGlobParser.parse flags type
          (payload ++ extra) = Ok m)
  /\ (forall m,
        confirm_unsubscribe.B2S_ConfirmUnsubscribeExactParser.parse flags type
          payload = Ok m ->
        confirm_unsubscribe.B2S_ConfirmUnsubscribeExactParser.parse flags type
          (payload ++ extra) = Ok m)
  /\ (forall m,
        confirm_unsubscribe.B2S_ConfirmUnsubscribeGlobParser.parse flags type
          payload = Ok m ->
        confirm_unsubscribe.B2S_ConfirmUnsubscribeGlobParser.parse flags type
          (payload ++ extra) = Ok m)
  /\ (forall m,
        confirm_notify.B2S_ConfirmNotifyParser.parse flags type payload = Ok m ->
        confirm_notify.B2S_ConfirmNotifyParser.parse flags type
          (payload ++ extra) = Ok m)
  /\ (forall m,
        continue_notify.B2S_ContinueNotifyParser.parse flags type payload
        = Ok m ->
        continue_notify.B2S_ContinueNotifyParser.parse flags type
          (payload ++ extra) = Ok m).
Proof.
  split; [|split; [|split; [|split; [|split]]]]; intros m.
  - unfold confirm_subscribe.B2S_ConfirmSubscribeExactParser.parse.
    destruct (negb _); [discriminate|]. with_more extra.
  - unfold confirm_subscribe.B2S_ConfirmSubscribeGlobParser.parse.
    destruct (negb _); [discriminate|]. with_more extra.
  - unfold confirm_unsubscribe.B2S_ConfirmUnsubscribeExactParser.parse.
    destruct (negb _); [discriminate|]. with_more extra.
  - unfold confirm_unsubscribe.B2S_ConfirmUnsubscribeGlobParser.parse.
    destruct (negb _); [discriminate|]. with_more extra.
  - unfold confirm_notify.B2S_ConfirmNotifyParser.parse.
    destruct (negb _); [discriminate|]. with_more extra.
  - unfold continue_notify.B2S_ContinueNotifyParser.parse.
    destruct (negb _); [discriminate|]. with_more extra.
Qed.

Lemma parsers_ignore_trailing_bytes_witness :
  continue_notify.B2S_ContinueNotifyParser.parse 1 CONTINUE_NOTIFY part_two
  = Ok {| continue_notify.type := CONTINUE_NOTIFY;
          continue_notify.identifier := lit "id";
          continue_notify.part_id := 2 |}
  /\ continue_notify.B2S_ContinueNotifyParser.parse 1 CONTINUE_NOTIFY
       (part_two ++ lit "trailing")
     = Ok {| continue_notify.type := CONTINUE_NOTIFY;
             continue_notify.identifier := lit "id";
             continue_notify.part_id := 2 |}.
Proof.
  split; [reflexivity|].
  apply (parsers_ignore_trailing_bytes 1 CONTINUE_NOTIFY part_two
           (lit "trailing")).
  reflexivity.
Defined.

(** ** Subscribe and unsubscribe confirmations *)

(** X10.  A subscribe confirmation and an unsubscribe confirmation differ
    in the type only: on every flags and payload the two exact parsers
    return the same topic or raise the same error, and the two glob parsers
    the same glob or the same error. *)
Theorem confirmations_share_their_payload (flags : N) (payload : bytes) :
  field confirm_subscribe.topic
    (confirm_subscribe.B2S_ConfirmSubscribeExactParser.parse flags
       CONFIRM_SUBSCRIBE_EXACT payload)
  = field confirm_unsubscribe.topic
      (confirm_unsubscribe.B2S_ConfirmUnsubscribeExactParser.parse flags
         CONFIRM_UNSUBSCRIBE_EXACT payload)
  /\ field confirm_subscribe.glob
       (confirm_subscribe.B2S_ConfirmSubscribeGlobParser.parse flags
          CONFIRM_SUBSCRIBE_GLOB payload)
     = field confirm_unsubscribe.glob
         (confirm_unsubscribe.B2S_ConfirmUnsubscribeGlobParser.parse flags
            CONFIRM_UNSUBSCRIBE_GLOB payload).
Proof.
  split.
  - unfold confirm_subscribe.B2S_ConfirmSubscribeExactParser.parse,
      confirm_unsubscribe.B2S_ConfirmUnsubscribeExactParser.parse.
    change (negb (type_eqb CONFIRM_SUBSCRIBE_EXACT CONFIRM_SUBSCRIBE_EXACT))
      with false.
    change (negb (type_eqb CONFIRM_UNSUBSCRIBE_EXACT
                    CONFIRM_UNSUBSCRIBE_EXACT)) with false.
    cbv iota.
    change confirm_unsubscribe._exact_headers
      with confirm_subscribe._exact_headers.
    destruct (parse_simple_headers flags payload
                confirm_subscribe._exact_headers) as [[headers rest]|];
      cbn [bind field]; [|reflexivity].
    now destruct (dict_get headers (lit "x-topic")).
  - unfold confirm_subscribe.B2S_ConfirmSubscribeGlobParser.parse,
      confirm_unsubscribe.B2S_ConfirmUnsubscribeGlobParser.parse.
    change (negb (type_eqb CONFIRM_SUBSCRIBE_GLOB CONFIRM_SUBSCRIBE_GLOB))
      with false.
    change (negb (type_eqb CONFIRM_UNSUBSCRIBE_GLOB CONFIRM_UNSUBSCRIBE_GLOB))
      with false.
    cbv iota.
    change confirm_unsubscribe._glob_headers
      with confirm_subscribe._glob_headers.
    destruct (parse_simple_headers flags payload
                confirm_subscribe._glob_headers) as [[headers rest]|];
      cbn [bind field]; [|reflexivity].
    destruct (dict_get headers (lit "x-glob")) as [v|]; cbn [bind];
      [|reflexivity].
    now destruct (decode_utf8 v).
Qed.


(** ** Positional and named headers *)

Lemma minimal_flag_true (flags : PubSubWSMessageFlags) :
  N.land flags MINIMAL_HEADERS <> 0 -> minimal_flag flags = true.
Proof.
  intros H. unfold minimal_flag.
  now destruct (N.eqb_spec (N.land flags MINIMAL_HEADERS) 0).
Qed.

Lemma minimal_flag_false (flags : PubSubWSMessageFlags) :
  N.land flags MINIMAL_HEADERS = 0 -> minimal_flag flags = false.
Proof. intros H. unfold minimal_flag. now rewrite H. Qed.

Lemma length_two {A} (l : list A) :
  List.length l = 2%nat -> exists a c, l = [a; c].
Proof. destruct l as [|a [|c [|]]]; try discriminate. eauto. Qed.

Lemma length_one {A} (l : list A) :
  List.length l = 1%nat -> exists a, l = [a].
Proof. destruct l as [|a [|]]; try discriminate. eauto. Qed.

Lemma minimal_two_headers (flags : PubSubWSMessageFlags)
  (payload rest n1 n2 : bytes) (headers : dict) :
  N.land flags MINIMAL_HEADERS <> 0 ->
  parse_simple_headers flags payload [n1; n2] = Ok (headers, rest) ->
  exists v1 v2,
    headers = bound [n1; n2] [v1; v2] []
    /\ forall m1 m2, len m1 <= 65535 -> len m2 <= 65535 ->
         parse_simple_headers flags payload [m1; m2]
         = Ok (bound [m1; m2] [v1; v2] [], rest).
Proof.
  intros Hf H. apply minimal_flag_true in Hf.
  destruct (parse_simple_headers_inv _ _ _ _ _ H)
    as (wire & values & _ & Hvs & Hm & Hs & Hp & ->).
  rewrite (Hm Hf) in *. rewrite Hf in Hp.
  destruct (length_two values Hvs) as (v1 & v2 & ->).
  exists v1, v2. split; [reflexivity|].
  intros m1 m2 H1 H2. unfold parse_simple_headers.
  fold (minimal_flag flags). rewrite Hf, Hp.
  rewrite (header_section_minimal [n1; n2] [m1; m2]) by reflexivity.
  apply decode_header_section; [reflexivity|].
  intros x [[<-|[<-|[]]]|Hx]; auto.
Qed.

Lemma two_bound_first (n1 n2 v1 v2 : bytes) :
  bytes_eqb n2 n1 = false ->
  dict_get (bound [n1; n2] [v1; v2] []) n1 = Ok v1.
Proof.
  intros H. unfold bound. cbn [combine fold_left fst snd].
  rewrite dict_get_set_other by exact H. apply dict_get_set_same.
Qed.

Lemma two_bound_second (n1 n2 v1 v2 : bytes) :
  dict_get (bound [n1; n2] [v1; v2] []) n2 = Ok v2.
Proof.
  unfold bound. cbn [combine fold_left fst snd]. apply dict_get_set_same.
Qed.

Lemma confirm_as_continue (flags : PubSubWSMessageFlags) (payload id : bytes)
  (n : N) :
  N.land flags MINIMAL_HEADERS <> 0 ->
  confirm_notify.B2S_ConfirmNotifyParser.parse flags CONFIRM_NOTIFY payload
  = Ok {| confirm_notify.type := CONFIRM_NOTIFY;
          confirm_notify.identifier := id;
          confirm_notify.subscribers := n |} ->
  continue_notify.B2S_ContinueNotifyParser.parse flags CONTINUE_NOTIFY payload
  = Ok {| continue_notify.type := CONTINUE_NOTIFY;
          continue_notify.identifier := id;
          continue_notify.part_id := n |}.
Proof.
  intros Hf H.
  destruct (parse_simple_headers flags payload confirm_notify._headers)
    as [[headers rest]|e] eqn:Hh.
  2:{ unfold confirm_notify.B2S_ConfirmNotifyParser.parse in H.
      change (negb (type_eqb CONFIRM_NOTIFY CONFIRM_NOTIFY)) with false in H.
      cbv iota in H. rewrite Hh in H. discriminate. }
  destruct (minimal_two_headers _ _ _ _ _ _ Hf Hh) as (v1 & v2 & -> & Hother).
  rewrite (confirm_notify_parse_decoded flags payload rest _ v1 v2 Hh
             (two_bound_first (lit "x-identifier") (lit "x-subscribers") v1 v2 eq_refl)
             (two_bound_second (lit "x-identifier") (lit "x-subscribers") v1 v2))
    in H.
  rewrite (continue_notify_parse_decoded flags payload rest _ v1 v2
             (Hother (lit "x-identifier") (lit "x-part-id")
                ltac:(vm_compute; discriminate) ltac:(vm_compute; discriminate))
             (two_bound_first (lit "x-identifier") (lit "x-part-id") v1 v2 eq_refl)
             (two_bound_second (lit "x-identifier") (lit "x-part-id") v1 v2)).
  destruct (64 <? len v1); [discriminate|].
  destruct (8 <? len v2); [discriminate|].
  apply Ok_inj in H. injection H as <- <-. reflexivity.
Qed.

Lemma continue_as_confirm (flags : PubSubWSMessageFlags) (payload id : bytes)
  (n : N) :
  N.land flags MINIMAL_HEADERS <> 0 ->
  continue_notify.B2S_ContinueNotifyParser.parse flags CONTINUE_NOTIFY payload
  = Ok {| continue_notify.type := CONTINUE_NOTIFY;
          continue_notify.identifier := id;
          continue_notify.part_id := n |} ->
  confirm_notify.B2S_ConfirmNotifyParser.parse flags CONFIRM_NOTIFY payload
  = Ok {| confirm_notify.type := CONFIRM_NOTIFY;
          confirm_notify.identifier := id;
          confirm_notify.subscribers := n |}.
Proof.
  intros Hf H.
  destruct (parse_simple_headers flags payload continue_notify._headers)
    as [[headers rest]|e] eqn:Hh.
  2:{ unfold continue_notify.B2S_ContinueNotifyParser.parse in H.
      change (negb (type_eqb CONTINUE_NOTIFY CONTINUE_NOTIFY)) with false in H.
      cbv iota in H. rewrite Hh in H. discriminate. }
  destruct (minimal_two_headers _ _ _ _ _ _ Hf Hh) as (v1 & v2 & -> & Hother).
  rewrite (continue_notify_parse_decoded flags payload rest _ v1 v2 Hh
             (two_bound_first (lit "x-identifier") (lit "x-part-id") v1 v2 eq_refl)
             (two_bound_second (lit "x-identifier") (lit "x-part-id") v1 v2))
    in H.
  rewrite (confirm_notify_parse_decoded flags payload rest _ v1 v2
             (Hother (lit "x-identifier") (lit "x-subscribers")
                ltac:(vm_compute; discriminate) ltac:(vm_compute; discriminate))
             (two_bound_first (lit "x-identifier") (lit "x-subscribers") v1 v2 eq_refl)
             (two_bound_second (lit "x-identifier") (lit "x-subscribers") v1 v2)).
  destruct (64 <? len v1); [discriminate|].
  destruct (8 <? len v2); [discriminate|].
  apply Ok_inj in H. injection H as <- <-. reflexivity.
Qed.

(** X11.  In minimal mode the headers are positional, so the CONFIRM_NOTIFY
    and CONTINUE_NOTIFY payloads are one format: a payload gives the one
    parser an identifier and a count exactly when it gives the other the
    same identifier and that number as the part id.  In explicit mode the
    names tell them apart: the CONTINUE_NOTIFY parser finds no x-part-id in
    a CONFIRM_NOTIFY header section. *)
Theorem notify_payloads_are_positional (flags : N) (payload id num : bytes)
  (n : N) :
  (N.land flags MINIMAL_HEADERS <> 0 ->
   (confirm_notify.B2S_ConfirmNotifyParser.parse flags CONFIRM_NOTIFY payload
    = Ok {| confirm_notify.type := CONFIRM_NOTIFY;
            confirm_notify.identifier := id;
            confirm_notify.subscribers := n |}
    <-> continue_notify.B2S_ContinueNotifyParser.parse flags CONTINUE_NOTIFY
          payload
        = Ok {| continue_notify.type := CONTINUE_NOTIFY;
                continue_notify.identifier := id;
                continue_notify.part_id := n |}))
  /\ (N.land flags MINIMAL_HEADERS = 0 ->
      len id <= 64 -> len num <= 65535 ->
      continue_notify.B2S_ContinueNotifyParser.parse flags CONTINUE_NOTIFY
        (header_section false confirm_notify._headers [id; num])
      = Err (KeyError (lit "x-part-id"))).
Proof.
  split.
  - intros Hf. split; [now apply confirm_as_continue
                      | now apply continue_as_confirm].
  - intros Hf Hid Hnum.
    unfold continue_notify.B2S_ContinueNotifyParser.parse.
    change (negb (type_eqb CONTINUE_NOTIFY CONTINUE_NOTIFY)) with false.
    cbv iota. unfold parse_simple_headers. fold (minimal_flag flags).
    rewrite (minimal_flag_false flags Hf).
    rewrite <- (app_nil_r (header_section false _ _)).
    rewrite decode_explicit_section; [|reflexivity|reflexivity|].
    2:{ assert (Hid' : len id <= 65535) by lia.
        intros x [H|[H|H]];
          cbv [In confirm_notify._headers continue_notify._headers] in H;
          repeat match type of H with
          | _ \/ _ => destruct H as [H|H]
          | False => destruct H
          end; subst x; (assumption || (vm_compute; discriminate)). }
    cbn [bind]. unfold confirm_notify._headers.
    rewrite (two_bound_first (lit "x-identifier") (lit "x-subscribers") id num
               eq_refl). cbn [bind].
    replace (64 <? len id) with false by (symmetry; apply N.ltb_ge; lia).
    reflexivity.
Qed.

Lemma notify_payloads_are_positional_witness :
  continue_notify.B2S_ContinueNotifyParser.parse 1 CONTINUE_NOTIFY part_two
  = Ok {| continue_notify.type := CONTINUE_NOTIFY;
          continue_notify.identifier := lit "id";
          continue_notify.part_id := 2 |}
  /\ confirm_notify.B2S_ConfirmNotifyParser.parse 1 CONFIRM_NOTIFY part_two
     = Ok {| confirm_notify.type := CONFIRM_NOTIFY;
             confirm_notify.identifier := lit "id";
             confirm_notify.subscribers := 2 |}
  /\ continue_notify.B2S_ContinueNotifyParser.parse 0 CONTINUE_NOTIFY
       (header_section false confirm_notify._headers [lit "id"; [x02]])
     = Err (KeyError (lit "x-part-id")).
Proof.
  split; [reflexivity|]. split.
  - apply (proj1 (notify_payloads_are_positional 1 part_two (lit "id") [] 2)).
    + discriminate.
    + reflexivity.
  - apply (proj2 (notify_payloads_are_positional 0 [] (lit "id") [x02] 0));
      [reflexivity | vm_compute; discriminate | vm_compute; discriminate].
Defined.


Ltac listed_sizes :=
  let x := fresh "x" in
  let H := fresh "H" in
  intros x [H|[H|H]];
  cbv [In confirm_notify._headers continue_notify._headers
       confirm_subscribe._exact_headers confirm_subscribe._glob_headers
       confirm_unsubscribe._exact_headers confirm_unsubscribe._glob_headers]
    in H;
  repeat match type of H with
  | _ \/ _ => destruct H as [H|H]
  | False => destruct H
  end; subst x; (assumption || (vm_compute; discriminate)).

Lemma explicit_two_headers (flags : PubSubWSMessageFlags)
  (n1 n2 w1 w2 v1 v2 rest : bytes) :
  N.land flags MINIMAL_HEADERS = 0 ->
  (forall x, In x [n1; n2] \/ In x [w1; w2] \/ In x [v1; v2] ->
     len x <= 65535) ->
  parse_simple_headers flags (header_section false [w1; w2] [v1; v2] ++ rest)
    [n1; n2]
  = Ok (bound [w1; w2] [v1; v2] [], rest).
Proof.
  intros Hf Hs. unfold parse_simple_headers. fold (minimal_flag flags).
  rewrite (minimal_flag_false flags Hf).
  now apply decode_explicit_section.
Qed.

(** X12.  In explicit mode the notify parsers find their two headers by
    name, so the order on the wire does not matter: the numeric header
    first and the identifier second parses as the identifier first and the
    numeric header second does. *)
Theorem explicit_notify_headers_in_either_order (flags : N)
  (id num rest : bytes) :
  N.land flags MINIMAL_HEADERS = 0 ->
  len id <= 65535 -> len num <= 65535 ->
  confirm_notify.B2S_ConfirmNotifyParser.parse flags CONFIRM_NOTIFY
    (header_section false [lit "x-subscribers"; lit "x-identifier"] [num; id]
     ++ rest)
  = confirm_notify.B2S_ConfirmNotifyParser.parse flags CONFIRM_NOTIFY
      (header_section false [lit "x-identifier"; lit "x-subscribers"] [id; num]
       ++ rest)
  /\ continue_notify.B2S_ContinueNotifyParser.parse flags CONTINUE_NOTIFY
       (header_section false [lit "x-part-id"; lit "x-identifier"] [num; id]
        ++ rest)
     = continue_notify.B2S_ContinueNotifyParser.parse flags CONTINUE_NOTIFY
         (header_section false [lit "x-identifier"; lit "x-part-id"] [id; num]
          ++ rest).
Proof.
  intros Hf Hid Hnum. split.
  - rewrite (confirm_notify_parse_decoded flags _ rest _ id num
               (explicit_two_headers flags (lit "x-identifier") (lit "x-subscribers")
                  (lit "x-subscribers") (lit "x-identifier") num id rest Hf
                  ltac:(listed_sizes))
               (two_bound_second (lit "x-subscribers") (lit "x-identifier")
                  num id)
               (two_bound_first (lit "x-subscribers") (lit "x-identifier")
                  num id eq_refl)).
    rewrite (confirm_notify_parse_decoded flags _ rest _ id num
               (explicit_two_headers flags (lit "x-identifier") (lit "x-subscribers")
                  (lit "x-identifier") (lit "x-subscribers") id num rest Hf
                  ltac:(listed_sizes))
               (two_bound_first (lit "x-identifier") (lit "x-subscribers")
                  id num eq_refl)
               (two_bound_second (lit "x-identifier") (lit "x-subscribers")
                  id num)).
    reflexivity.
  - rewrite (continue_notify_parse_decoded flags _ rest _ id num
               (explicit_two_headers flags (lit "x-identifier") (lit "x-part-id")
                  (lit "x-part-id") (lit "x-identifier") num id rest Hf
                  ltac:(listed_sizes))
               (two_bound_second (lit "x-part-id") (lit "x-identifier")
                  num id)
               (two_bound_first (lit "x-part-id") (lit "x-identifier")
                  num id eq_refl)).
    rewrite (continue_notify_parse_decoded flags _ rest _ id num
               (explicit_two_headers flags (lit "x-identifier") (lit "x-part-id")
                  (lit "x-identifier") (lit "x-part-id") id num rest Hf
                  ltac:(listed_sizes))
               (two_bound_first (lit "x-identifier") (lit "x-part-id")
                  id num eq_refl)
               (two_bound_second (lit "x-identifier") (lit "x-part-id")
                  id num)).
    reflexivity.
Qed.

Lemma explicit_notify_headers_in_either_order_witness :
  confirm_notify.B2S_ConfirmNotifyParser.parse 0 CONFIRM_NOTIFY
    (header_section false [lit "x-subscribers"; lit "x-identifier"]
       [[x07]; lit "id"] ++ [])
  = Ok {| confirm_notify.type := CONFIRM_NOTIFY;
          confirm_notify.identifier := lit "id";
          confirm_notify.subscribers := 7 |}.
Proof.
  eapply eq_trans.
  - apply (explicit_notify_headers_in_either_order 0 (lit "id") [x07] []);
      [reflexivity | vm_compute; discriminate | vm_compute; discriminate].
  - reflexivity.
Defined.


(** ** Payloads the exact and glob parsers accept *)

Lemma bytes_eqb_eq (a c : bytes) : bytes_eqb a c = true -> a = c.
Proof.
  unfold bytes_eqb. now destruct (list_eq_dec Byte.byte_eq_dec a c).
Qed.

Lemma one_header (flags : PubSubWSMessageFlags) (payload rest name : bytes)
  (headers : dict) (value : bytes) :
  parse_simple_headers flags payload [name] = Ok (headers, rest) ->
  dict_get headers name = Ok value ->
  payload = header_section (minimal_flag flags) [name] [value] ++ rest
  /\ len name <= 65535 /\ len value <= 65535.
Proof.
  intros Hh Hv.
  destruct (parse_simple_headers_inv _ _ _ _ _ Hh)
    as (wire & values & Hw & Hvs & _ & Hs & -> & ->).
  destruct (length_one wire Hw) as (w & ->).
  destruct (length_one values Hvs) as (v & ->).
  unfold bound in Hv. cbn [combine fold_left fst snd dict_set dict_get] in Hv.
  destruct (bytes_eqb w name) eqn:E; [|discriminate].
  apply bytes_eqb_eq in E. apply Ok_inj in Hv. subst w v.
  repeat split; apply Hs; cbn; auto.
Qed.

Ltac one_size := 
  let x := fresh "x" in
  let H := fresh "H" in
  intros x [H|H];
  cbv [In confirm_subscribe._exact_headers confirm_subscribe._glob_headers
       confirm_unsubscribe._exact_headers confirm_unsubscribe._glob_headers]
    in H;
  repeat match type of H with
  | _ \/ _ => destruct H as [H|H]
  | False => destruct H
  end; subst x; assumption.

(** X13.  The exact and glob parsers accept nothing but what their
    serializers write: a payload that parses to a message begins with
    exactly the header section that the serializer of that message writes
    in the same header mode (the topic as it is, the glob in UTF-8); only
    bytes after that section can differ. *)
Theorem exact_and_glob_payloads_are_canonical (flags : N) (payload : bytes) :
  let mode := minimal_flag flags in
  (forall m,
     confirm_subscribe.B2S_ConfirmSubscribeExactParser.parse flags
       CONFIRM_SUBSCRIBE_EXACT payload = Ok m ->
     exists section rest,
       confirm_subscribe.serialize_b2s_confirm_subscribe_exact m mode
       = Ok (byte_of_N (flags_of mode)
             :: byte_of_N (int_of_type CONFIRM_SUBSCRIBE_EXACT) :: section)
       /\ payload = section ++ rest)
  /\ (forall m,
        confirm_unsubscribe.B2S_ConfirmUnsubscribeExactParser.parse flags
          CONFIRM_UNSUBSCRIBE_EXACT payload = Ok m ->
        exists section rest,
          confirm_unsubscribe.serialize_b2s_confirm_unsubscribe_exact m mode
          = Ok (byte_of_N (flags_of mode)
                :: byte_of_N (int_of_type CONFIRM_UNSUBSCRIBE_EXACT) :: section)
          /\ payload = section ++ rest)
  /\ (forall m,
        confirm_subscribe.B2S_ConfirmSubscribeGlobParser.parse flags
          CONFIRM_SUBSCRIBE_GLOB payload = Ok m ->
        exists section rest,
          confirm_subscribe.serialize_b2s_confirm_subscribe_glob m mode
          = Ok (byte_of_N (flags_of mode)
                :: byte_of_N (int_of_type CONFIRM_SUBSCRIBE_GLOB) :: section)
          /\ payload = section ++ rest)
  /\ (forall m,
        confirm_unsubscribe.B2S_ConfirmUnsubscribeGlobParser.parse flags
          CONFIRM_UNSUBSCRIBE_GLOB payload = Ok m ->
        exists section rest,
          confirm_unsubscribe.serialize_b2s_confirm_unsubscribe_glob m mode
          = Ok (byte_of_N (flags_of mode)
                :: byte_of_N (int_of_type CONFIRM_UNSUBSCRIBE_GLOB) :: section)
          /\ payload = section ++ rest).
Proof.
  intros mode. split; [|split; [|split]]; intros m.
  - unfold confirm_subscribe.B2S_ConfirmSubscribeExactParser.parse.
    change (negb (type_eqb CONFIRM_SUBSCRIBE_EXACT CONFIRM_SUBSCRIBE_EXACT))
      with false.
    cbv iota. open_parser; [|discriminate]. open_lookup; [|discriminate].
    intros H. apply Ok_inj in H. subst m.
    destruct (one_header _ _ _ _ _ _ Hh Hv) as (-> & Hn & Hs).
    exists (header_section mode confirm_subscribe._exact_headers [v]), rest.
    split; [|reflexivity].
    unfold confirm_subscribe.serialize_b2s_confirm_subscribe_exact.
    cbn [confirm_subscribe.type confirm_subscribe.topic].
    apply serialize_simple_message_fits. one_size.
  - unfold confirm_unsubscribe.B2S_ConfirmUnsubscribeExactParser.parse.
    change (negb (type_eqb CONFIRM_UNSUBSCRIBE_EXACT
                    CONFIRM_UNSUBSCRIBE_EXACT)) with false.
    cbv iota. open_parser; [|discriminate]. open_lookup; [|discriminate].
    intros H. apply Ok_inj in H. subst m.
    destruct (one_header _ _ _ _ _ _ Hh Hv) as (-> & Hn & Hs).
    exists (header_section mode confirm_unsubscribe._exact_headers [v]), rest.
    split; [|reflexivity].
    unfold confirm_unsubscribe.serialize_b2s_confirm_unsubscribe_exact.
    cbn [confirm_unsubscribe.type confirm_unsubscribe.topic].
    apply serialize_simple_message_fits. one_size.
  - unfold confirm_subscribe.B2S_ConfirmSubscribeGlobParser.parse.
    change (negb (type_eqb CONFIRM_SUBSCRIBE_GLOB CONFIRM_SUBSCRIBE_GLOB))
      with false.
    cbv iota. open_parser; [|discriminate]. open_lookup; [|discriminate].
    destruct (decode_utf8 v) as [s|] eqn:Hd; cbn [bind]; [|discriminate].
    intros H. apply Ok_inj in H. subst m.
    destruct (one_header _ _ _ _ _ _ Hh Hv) as (-> & Hn & Hs).
    exists (header_section mode confirm_subscribe._glob_headers [v]), rest.
    split; [|reflexivity].
    unfold confirm_subscribe.serialize_b2s_confirm_subscribe_glob.
    cbn [confirm_subscribe.glob_type confirm_subscribe.glob].
    rewrite (encode_decode_utf8 v s Hd). cbn [bind].
    apply serialize_simple_message_fits. one_size.
  - unfold confirm_unsubscribe.B2S_ConfirmUnsubscribeGlobParser.parse.
    change (negb (type_eqb CONFIRM_UNSUBSCRIBE_GLOB CONFIRM_UNSUBSCRIBE_GLOB))
      with false.
    cbv iota. open_parser; [|discriminate]. open_lookup; [|discriminate].
    destruct (decode_utf8 v) as [s|] eqn:Hd; cbn [bind]; [|discriminate].
    intros H. apply Ok_inj in H. subst m.
    destruct (one_header _ _ _ _ _ _ Hh Hv) as (-> & Hn & Hs).
    exists (header_section mode confirm_unsubscribe._glob_headers [v]), rest.
    split; [|reflexivity].
    unfold confirm_unsubscribe.serialize_b2s_confirm_unsubscribe_glob.
    cbn [confirm_unsubscribe.glob_type confirm_unsubscribe.glob].
    rewrite (encode_decode_utf8 v s Hd). cbn [bind].
    apply serialize_simple_message_fits. one_size.
Qed.

Lemma exact_and_glob_payloads_are_canonical_witness :
  confirm_subscribe.B2S_ConfirmSubscribeGlobParser.parse 0
    CONFIRM_SUBSCRIBE_GLOB (glob_section ++ lit "more")
  = Ok {| confirm_subscribe.glob_type := CONFIRM_SUBSCRIBE_GLOB;
          confirm_subscribe.glob := [0x66; 0xE9; 0x2F; 0x2A] |}
  /\ exists section rest,
       confirm_subscribe.serialize_b2s_confirm_subscribe_glob
         {| confirm_subscribe.glob_type := CONFIRM_SUBSCRIBE_GLOB;
            confirm_subscribe.glob := [0x66; 0xE9; 0x2F; 0x2A] |} false
       = Ok (x00 :: x03 :: section)
       /\ glob_section ++ lit "more" = section ++ rest.
Proof.
  split; [reflexivity|].
  apply (proj1 (proj2 (proj2
           (exact_and_glob_payloads_are_canonical 0
              (glob_section ++ lit "more"))))).
  reflexivity.
Defined.


(** ** What the serializers can raise *)

Lemma encode_code_point_error (cp : N) (e : error) :
  encode_code_point cp = Err e ->
  e = UnicodeEncodeError /\ is_scalar_value cp = false.
Proof.
  unfold encode_code_point, is_scalar_value, is_surrogate.
  destruct (N.ltb_spec cp 0x80); [discriminate|].
  destruct (N.ltb_spec cp 0x800); [discriminate|].
  destruct (N.ltb_spec cp 0x10000).
  - destruct (N.leb_spec 0xD800 cp); [destruct (N.leb_spec cp 0xDFFF)|];
      cbn [andb negb]; try discriminate.
    intros [= <-]. split; [reflexivity|]. decide_tests; try reflexivity.
  - destruct (N.ltb_spec cp 0x110000); [discriminate|].
    intros [= <-]. split; [reflexivity|]. decide_tests; try reflexivity.
Qed.

Lemma encode_utf8_error (s : str) (e : error) :
  encode_utf8 s = Err e -> e = UnicodeEncodeError /\ valid_str s = false.
Proof.
  induction s as [|cp s IH]; [discriminate|].
  cbn [encode_utf8 valid_str forallb].
  destruct (encode_code_point cp) as [h|e'] eqn:Eh; cbn [bind].
  - destruct (encode_utf8 s) as [t|e''] eqn:Et; cbn [bind]; [discriminate|].
    intros [= <-]. destruct (IH eq_refl) as [-> Hs].
    split; [reflexivity|]. fold (valid_str s). rewrite Hs.
    apply andb_false_r.
  - intros [= <-]. destruct (encode_code_point_error cp e' Eh) as [-> Hc].
    now rewrite Hc.
Qed.

Lemma encode_utf8_outcome (s : str) :
  if valid_str s then exists value, encode_utf8 s = Ok value
  else encode_utf8 s = Err UnicodeEncodeError.
Proof.
  destruct (encode_utf8 s) as [value|e] eqn:E.
  - rewrite (encode_utf8_valid s value E). eauto.
  - destruct (encode_utf8_error s e E) as [-> ->]. reflexivity.
Qed.

Lemma serialize_simple_message_oversized
  (t : BroadcasterToSubscriberWSMessageType) (names values : list bytes)
  (x : bytes) (minimal : bool) :
  List.length names = List.length values ->
  In x names \/ In x values -> 65535 < len x ->
  serialize_simple_message t names values [] minimal = Err MalformedHeader.
Proof.
  intros Hlen Hin Hx. rewrite serialize_simple_message_section.
  now rewrite (encode_headers_too_long minimal names values x Hlen Hin Hx).
Qed.

(** X14.  The glob serializers fail with the encoding error exactly when
    the glob holds something that is not a Unicode scalar value (a lone
    surrogate), whatever the header mode and before any header is written;
    a glob of scalar values fails only on the header size ceiling, when its
    UTF-8 encoding is over 65535 bytes; otherwise they succeed.  The
    discriminator is not looked at. *)
Theorem glob_serializers_outcomes
  (type : BroadcasterToSubscriberWSMessageType) (glob : str)
  (minimal_headers : bool) :
  let subscribed :=
    confirm_subscribe.serialize_b2s_confirm_subscribe_glob
      {| confirm_subscribe.glob_type := type; confirm_subscribe.glob := glob |}
      minimal_headers in
  let unsubscribed :=
    confirm_unsubscribe.serialize_b2s_confirm_unsubscribe_glob
      {| confirm_unsubscribe.glob_type := type;
         confirm_unsubscribe.glob := glob |} minimal_headers in
  (valid_str glob = false <->
   subscribed = Err UnicodeEncodeError /\ unsubscribed = Err UnicodeEncodeError)
  /\ (valid_str glob = true /\ utf8_fits glob = false <->
      subscribed = Err MalformedHeader /\ unsubscribed = Err MalformedHeader)
  /\ (utf8_fits glob = true <->
      is_ok subscribed = true /\ is_ok unsubscribed = true).
Proof.
  intros subscribed unsubscribed. subst subscribed unsubscribed.
  unfold confirm_subscribe.serialize_b2s_confirm_subscribe_glob,
    confirm_unsubscribe.serialize_b2s_confirm_unsubscribe_glob, utf8_fits.
  cbn [confirm_subscribe.glob confirm_subscribe.glob_type
       confirm_unsubscribe.glob confirm_unsubscribe.glob_type].
  pose proof (encode_utf8_outcome glob) as Hout.
  destruct (valid_str glob).
  - destruct Hout as [value Hv]. rewrite Hv. cbn [bind].
    destruct (N.leb_spec (len value) 65535) as [Hfit|Hbig].
    + rewrite !serialize_simple_message_fits
        by (intros x [H|H];
            cbv [In confirm_subscribe._glob_headers
                 confirm_unsubscribe._glob_headers] in H;
            repeat match type of H with
            | _ \/ _ => destruct H as [H|H]
            | False => destruct H
            end; subst x; (assumption || (vm_compute; discriminate))).
      cbn [is_ok]. intuition congruence.
    + rewrite !(serialize_simple_message_oversized _ _ _ value)
        by (reflexivity || (right; now left) || assumption).
      cbn [is_ok]. intuition congruence.
  - rewrite Hout. cbn [bind is_ok]. intuition congruence.
Qed.

(** X15.  The exact and notify serializers check nothing but the header
    size ceiling, and write the discriminator as the type code whatever it
    is: they give the frame of the message's headers, or the header codec's
    error exactly when the topic, the identifier or the encoded number is
    over 65535 bytes. *)
Theorem exact_and_notify_serializers_outcomes
  (type : BroadcasterToSubscriberWSMessageType) (topic id : bytes) (n : N)
  (minimal_headers : bool) :
  confirm_subscribe.serialize_b2s_confirm_subscribe_exact
    {| confirm_subscribe.type := type; confirm_subscribe.topic := topic |}
    minimal_headers
  = (if len topic <=? 65535
     then Ok (frame_of minimal_headers type confirm_subscribe._exact_headers
                [topic])
     else Err MalformedHeader)
  /\ confirm_unsubscribe.serialize_b2s_confirm_unsubscribe_exact
       {| confirm_unsubscribe.type := type;
          confirm_unsubscribe.topic := topic |} minimal_headers
     = (if len topic <=? 65535
        then Ok (frame_of minimal_headers type
                   confirm_unsubscribe._exact_headers [topic])
        else Err MalformedHeader)
  /\ confirm_notify.serialize_b2s_confirm_notify
       {| confirm_notify.type := type; confirm_notify.identifier := id;
          confirm_notify.subscribers := n |} minimal_headers
     = (if (len id <=? 65535) && (len (int_to_minimal_unsigned n) <=? 65535)
        then Ok (frame_of minimal_headers type confirm_notify._headers
                   [id; int_to_minimal_unsigned n])
        else Err MalformedHeader)
  /\ continue_notify.serialize_b2s_continue_notify
       {| continue_notify.type := type; continue_notify.identifier := id;
          continue_notify.part_id := n |} minimal_headers
     = (if (len id <=? 65535) && (len (int_to_minimal_unsigned n) <=? 65535)
        then Ok (frame_of minimal_headers type continue_notify._headers
                   [id; int_to_minimal_unsigned n])
        else Err MalformedHeader).
Proof.
  unfold confirm_subscribe.serialize_b2s_confirm_subscribe_exact,
    confirm_unsubscribe.serialize_b2s_confirm_unsubscribe_exact,
    confirm_notify.serialize_b2s_confirm_notify,
    continue_notify.serialize_b2s_continue_notify.
  cbn [confirm_subscribe.type confirm_subscribe.topic
       confirm_unsubscribe.type confirm_unsubscribe.topic
       confirm_notify.type confirm_notify.identifier
       confirm_notify.subscribers continue_notify.type
       continue_notify.identifier continue_notify.part_id].
  assert (Hexact : forall names, List.length names = 1%nat ->
            (forall x, In x names -> len x <= 65535) ->
            serialize_simple_message type names [topic] [] minimal_headers
            = (if len topic <=? 65535
               then Ok (frame_of minimal_headers type names [topic])
               else Err MalformedHeader)).
  { intros names Hlen Hnames.
    destruct (N.leb_spec (len topic) 65535) as [Hfit|Hbig].
    - apply serialize_simple_message_fits.
      intros x [Hx|[<-|[]]]; auto.
    - apply (serialize_simple_message_oversized _ _ _ topic);
        [exact Hlen | right; now left | exact Hbig]. }
  assert (Hnotify : forall names, List.length names = 2%nat ->
            (forall x, In x names -> len x <= 65535) ->
            serialize_simple_message type names
              [id; int_to_minimal_unsigned n] [] minimal_headers
            = (if (len id <=? 65535)
                  && (len (int_to_minimal_unsigned n) <=? 65535)
               then Ok (frame_of minimal_headers type names
                          [id; int_to_minimal_unsigned n])
               else Err MalformedHeader)).
  { intros names Hlen Hnames.
    destruct (N.leb_spec (len id) 65535) as [Hfit|Hbig]; cbn [andb].
    - destruct (N.leb_spec (len (int_to_minimal_unsigned n)) 65535)
        as [Hfit'|Hbig'].
      + apply serialize_simple_message_fits.
        intros x [Hx|[<-|[<-|[]]]]; auto.
      + apply (serialize_simple_message_oversized _ _ _
                 (int_to_minimal_unsigned n));
          [exact Hlen | right; right; now left | exact Hbig'].
    - apply (serialize_simple_message_oversized _ _ _ id);
        [exact Hlen | right; now left | exact Hbig]. }
  split; [|split; [|split]].
  - apply Hexact; [reflexivity|].
    intros x [<-|[]]; vm_compute; discriminate.
  - apply Hexact; [reflexivity|].
    intros x [<-|[]]; vm_compute; discriminate.
  - apply Hnotify; [reflexivity|].
    intros x [<-|[<-|[]]]; vm_compute; discriminate.
  - apply Hnotify; [reflexivity|].
    intros x [<-|[<-|[]]]; vm_compute; discriminate.
Qed.


(** ** Parsed messages are valid messages *)

Lemma tagged_ok {A} (tag : A -> B2S_Message) (r : result A)
  (msg : B2S_Message) :
  tagged tag r = Ok msg -> exists m, r = Ok m /\ msg = tag m.
Proof.
  destruct r as [m|]; cbn [tagged bind]; [|discriminate].
  intros H. apply Ok_inj in H. eauto.
Qed.

Lemma exact_header_fits (flags : PubSubWSMessageFlags) (payload rest : bytes)
  (names : list bytes) (headers : dict) (name value : bytes) :
  parse_simple_headers flags payload names = Ok (headers, rest) ->
  dict_get headers name = Ok value -> len value <= 65535.
Proof.
  intros Hh Hv. apply (dict_get_sized headers name value); [|exact Hv].
  now apply (parse_simple_headers_sized flags payload rest names).
Qed.

Lemma confirm_subscribe_exact_valid (flags : PubSubWSMessageFlags)
  (t : BroadcasterToSubscriberWSMessageType) (payload : bytes)
  (m : confirm_subscribe.B2S_ConfirmSubscribeExact) :
  confirm_subscribe.B2S_ConfirmSubscribeExactParser.parse flags t payload
  = Ok m ->
  valid_message (ConfirmSubscribeExact m) = true.
Proof.
  unfold confirm_subscribe.B2S_ConfirmSubscribeExactParser.parse.
  destruct (type_eqb t CONFIRM_SUBSCRIBE_EXACT) eqn:Ht; [|discriminate].
  cbn [negb]. open_parser; [|discriminate]. open_lookup; [|discriminate].
  intros H. apply Ok_inj in H. subst m.
  cbn [valid_message confirm_subscribe.type confirm_subscribe.topic].
  rewrite Ht. apply N.leb_le. now apply (exact_header_fits _ _ _ _ _ _ _ Hh Hv).
Qed.

Lemma confirm_unsubscribe_exact_valid (flags : PubSubWSMessageFlags)
  (t : BroadcasterToSubscriberWSMessageType) (payload : bytes)
  (m : confirm_unsubscribe.B2S_ConfirmUnsubscribeExact) :
  confirm_unsubscribe.B2S_ConfirmUnsubscribeExactParser.parse flags t payload
  = Ok m ->
  valid_message (ConfirmUnsubscribeExact m) = true.
Proof.
  unfold confirm_unsubscribe.B2S_ConfirmUnsubscribeExactParser.parse.
  destruct (type_eqb t CONFIRM_UNSUBSCRIBE_EXACT) eqn:Ht; [|discriminate].
  cbn [negb]. open_parser; [|discriminate]. open_lookup; [|discriminate].
  intros H. apply Ok_inj in H. subst m.
  cbn [valid_message confirm_unsubscribe.type confirm_unsubscribe.topic].
  rewrite Ht. apply N.leb_le. now apply (exact_header_fits _ _ _ _ _ _ _ Hh Hv).
Qed.

Lemma decoded_glob_valid (value : bytes) (s : str) :
  len value <= 65535 -> decode_utf8 value = Ok s ->
  valid_str s && utf8_fits s = true.
Proof.
  intros Hfit Hd. apply encode_decode_utf8 in Hd.
  unfold utf8_fits. rewrite (encode_utf8_valid s value Hd), Hd.
  now apply N.leb_le.
Qed.

Lemma confirm_subscribe_glob_valid (flags : PubSubWSMessageFlags)
  (t : BroadcasterToSubscriberWSMessageType) (payload : bytes)
  (m : confirm_subscribe.B2S_ConfirmSubscribeGlob) :
  confirm_subscribe.B2S_ConfirmSubscribeGlobParser.parse flags t payload
  = Ok m ->
  valid_message (ConfirmSubscribeGlob m) = true.
Proof.
  unfold confirm_subscribe.B2S_ConfirmSubscribeGlobParser.parse.
  destruct (type_eqb t CONFIRM_SUBSCRIBE_GLOB) eqn:Ht; [|discriminate].
  cbn [negb]. open_parser; [|discriminate]. open_lookup; [|discriminate].
  destruct (decode_utf8 v) as [s|] eqn:Hd; cbn [bind]; [|discriminate].
  intros H. apply Ok_inj in H. subst m.
  cbn [valid_message confirm_subscribe.glob_type confirm_subscribe.glob].
  rewrite Ht, <- andb_assoc. cbn [andb].
  apply (decoded_glob_valid v s); [|exact Hd].
  now apply (exact_header_fits _ _ _ _ _ _ _ Hh Hv).
Qed.

Lemma confirm_unsubscribe_glob_valid (flags : PubSubWSMessageFlags)
  (t : BroadcasterToSubscriberWSMessageType) (payload : bytes)
  (m : confirm_unsubscribe.B2S_ConfirmUnsubscribeGlob) :
  confirm_unsubscribe.B2S_ConfirmUnsubscribeGlobParser.parse flags t payload
  = Ok m ->
  valid_message (ConfirmUnsubscribeGlob m) = true.
Proof.
  unfold confirm_unsubscribe.B2S_ConfirmUnsubscribeGlobParser.parse.
  destruct (type_eqb t CONFIRM_UNSUBSCRIBE_GLOB) eqn:Ht; [|discriminate].
  cbn [negb]. open_parser; [|discriminate]. open_lookup; [|discriminate].
  destruct (decode_utf8 v) as [s|] eqn:Hd; cbn [bind]; [|discriminate].
  intros H. apply Ok_inj in H. subst m.
  cbn [valid_message confirm_unsubscribe.glob_type confirm_unsubscribe.glob].
  rewrite Ht, <- andb_assoc. cbn [andb].
  apply (decoded_glob_valid v s); [|exact Hd].
  now apply (exact_header_fits _ _ _ _ _ _ _ Hh Hv).
Qed.

Lemma confirm_notify_valid (flags : PubSubWSMessageFlags)
  (t : BroadcasterToSubscriberWSMessageType) (payload : bytes)
  (m : confirm_notify.B2S_ConfirmNotify) :
  confirm_notify.B2S_ConfirmNotifyParser.parse flags t payload = Ok m ->
  valid_message (ConfirmNotify m) = true.
Proof.
  unfold confirm_notify.B2S_ConfirmNotifyParser.parse.
  destruct (type_eqb t CONFIRM_NOTIFY) eqn:Ht; [|discriminate].
  cbn [negb]. open_parser; [|discriminate]. open_lookup; [|discriminate].
  destruct (N.ltb_spec 64 (len v)) as [|Hid]; [discriminate|].
  open_lookup; [|discriminate].
  destruct (N.ltb_spec 8 (len v0)) as [|Hn]; [discriminate|].
  intros H. apply Ok_inj in H. subst m.
  cbn [valid_message confirm_notify.type confirm_notify.identifier
       confirm_notify.subscribers].
  rewrite Ht. cbn [andb].
  apply andb_true_intro. split; [now apply N.leb_le|].
  apply N.ltb_lt. now apply from_bytes_big_u64.
Qed.

Lemma continue_notify_valid (flags : PubSubWSMessageFlags)
  (t : BroadcasterToSubscriberWSMessageType) (payload : bytes)
  (m : continue_notify.B2S_ContinueNotify) :
  continue_notify.B2S_ContinueNotifyParser.parse flags t payload = Ok m ->
  valid_message (ContinueNotify m) = true.
Proof.
  unfold continue_notify.B2S_ContinueNotifyParser.parse.
  destruct (type_eqb t CONTINUE_NOTIFY) eqn:Ht; [|discriminate].
  cbn [negb]. open_parser; [|discriminate]. open_lookup; [|discriminate].
  destruct (N.ltb_spec 64 (len v)) as [|Hid]; [discriminate|].
  open_lookup; [|discriminate].
  destruct (N.ltb_spec 8 (len v0)) as [|Hn]; [discriminate|].
  intros H. apply Ok_inj in H. subst m.
  cbn [valid_message continue_notify.type continue_notify.identifier
       continue_notify.part_id].
  rewrite Ht. cbn [andb].
  apply andb_true_intro. split; [now apply N.leb_le|].
  apply N.ltb_lt. now apply from_bytes_big_u64.
Qed.

Lemma parse_message_valid (flags : PubSubWSMessageFlags)
  (t : BroadcasterToSubscriberWSMessageType) (payload : bytes)
  (msg : B2S_Message) :
  parse_message flags t payload = Ok msg -> valid_message msg = true.
Proof.
  destruct t; cbn [parse_message find existsb b2s_parsers relevant_types parse];
    try discriminate; cbv beta iota; intros H; apply tagged_ok in H;
    destruct H as (m & Hm & ->).
  - exact (confirm_subscribe_exact_valid _ _ _ _ Hm).
  - exact (confirm_subscribe_glob_valid _ _ _ _ Hm).
  - exact (confirm_unsubscribe_exact_valid _ _ _ _ Hm).
  - exact (confirm_unsubscribe_glob_valid _ _ _ _ Hm).
  - exact (confirm_notify_valid _ _ _ _ Hm).
  - exact (continue_notify_valid _ _ _ _ Hm).
Qed.

Lemma parse_frame_valid (frame : bytes) (msg : B2S_Message) :
  parse_frame frame = Ok msg -> valid_message msg = true.
Proof.
  destruct frame as [|flags [|code payload]]; try discriminate.
  cbn [parse_frame].
  destruct (type_of_int (Byte.to_N code)) as [t|]; [|discriminate].
  apply parse_message_valid.
Qed.

(** X16.  Whatever a frame parses to is a valid message, so the parsers
    never hand out a message that the serializers would refuse or that
    would not come back: serialized in either header mode it gives a frame
    that parses to the same message again. *)
Theorem parsed_messages_are_valid (frame : bytes) (msg : B2S_Message)
  (minimal_headers : bool) :
  parse_frame frame = Ok msg ->
  valid_message msg = true
  /\ exists again,
       serialize_message msg minimal_headers = Ok again
       /\ parse_frame again = Ok msg.
Proof.
  intros H. apply parse_frame_valid in H. split; [exact H|].
  apply roundtrip_ok. now apply roundtrip_valid.
Qed.

Lemma parsed_messages_are_valid_witness :
  parse_frame (frame_of false CONFIRM_NOTIFY confirm_notify._headers
                 [lit "id"; [x00; x01]])
  = Ok (ConfirmNotify {| confirm_notify.type := CONFIRM_NOTIFY;
                         confirm_notify.identifier := lit "id";
                         confirm_notify.subscribers := 1 |})
  /\ exists again,
       serialize_message
         (ConfirmNotify {| confirm_notify.type := CONFIRM_NOTIFY;
                           confirm_notify.identifier := lit "id";
                           confirm_notify.subscribers := 1 |}) true
       = Ok again
       /\ parse_frame again
          = Ok (ConfirmNotify {| confirm_notify.type := CONFIRM_NOTIFY;
                                 confirm_notify.identifier := lit "id";
                                 confirm_notify.subscribers := 1 |}).
Proof.
  split; [reflexivity|].
  apply (parsed_messages_are_valid
           (frame_of false CONFIRM_NOTIFY confirm_notify._headers
              [lit "id"; [x00; x01]])).
  reflexivity.
Defined.

(** ** Frames tell messages and modes apart *)

Lemma serialize_message_flags (msg : B2S_Message) (minimal : bool)
  (frame : bytes) :
  serialize_message msg minimal = Ok frame ->
  hd x00 frame = byte_of_N (flags_of minimal).
Proof.
  assert (S : forall t names values,
            serialize_simple_message t names values [] minimal = Ok frame ->
            hd x00 frame = byte_of_N (flags_of minimal)).
  { intros t names values. rewrite serialize_simple_message_section.
    destruct (encode_headers minimal names values); cbn [bind]; [|discriminate].
    intros H. apply Ok_inj in H. now subst frame. }
  destruct msg as [m|m|m|m|m|m]; cbn [serialize_message].
  - apply S.
  - unfold confirm_subscribe.serialize_b2s_confirm_subscribe_glob.
    destruct (encode_utf8 _); cbn [bind]; [apply S|discriminate].
  - apply S.
  - unfold confirm_unsubscribe.serialize_b2s_confirm_unsubscribe_glob.
    destruct (encode_utf8 _); cbn [bind]; [apply S|discriminate].
  - apply S.
  - apply S.
Qed.

(** X17.  A frame determines the valid message and the header mode it was
    serialized from: two valid messages, each in some header mode, that
    serialize to the same frame are the same message in the same mode. *)
Theorem frames_determine_message_and_mode (m1 m2 : B2S_Message)
  (mode1 mode2 : bool) (frame : bytes) :
  valid_message m1 = true -> valid_message m2 = true ->
  serialize_message m1 mode1 = Ok frame ->
  serialize_message m2 mode2 = Ok frame ->
  m1 = m2 /\ mode1 = mode2.
Proof.
  intros V1 V2 S1 S2. split.
  - pose proof (roundtrip_valid m1 mode1 V1) as R1.
    pose proof (roundtrip_valid m2 mode2 V2) as R2.
    unfold roundtrip in R1, R2. rewrite S1 in R1. rewrite S2 in R2.
    cbn [bind] in R1, R2. rewrite R1 in R2. now apply Ok_inj in R2.
  - apply serialize_message_flags in S1, S2. rewrite S1 in S2.
    destruct mode1, mode2; try reflexivity; vm_compute in S2; discriminate.
Qed.

Lemma frames_determine_message_and_mode_witness :
  serialize_message sample_confirm_notify true
  = Ok (frame_of true CONFIRM_NOTIFY confirm_notify._headers
          [lit "abc"; [x01; x2c]])
  /\ sample_confirm_notify = sample_confirm_notify /\ true = true.
Proof.
  split; [reflexivity|].
  apply (frames_determine_message_and_mode sample_confirm_notify
           sample_confirm_notify true true
           (frame_of true CONFIRM_NOTIFY confirm_notify._headers
              [lit "abc"; [x01; x2c]])); reflexivity.
Defined.


(** ** The type codes *)

Lemma type_of_int_some (n : N) (t : BroadcasterToSubscriberWSMessageType) :
  type_of_int n = Some t -> int_of_type t = n.
Proof.
  destruct n as [|p]; [discriminate|].
  do 4 (try (destruct p as [p|p|])); cbn [type_of_int];
    try discriminate; intros H; injection H as <-; reflexivity.
Qed.

(** X18.  The type codes are the [auto()] values of the members in
    declaration order, 1 to 10 for the broadcaster's messages and 1 to 9 for
    the subscriber's; looking a member up by its code and taking the code
    of a member are inverse to each other; every code fits the frame's
    single type byte; and the two directions reuse the same codes, so a
    code names a message only together with the direction. *)
Theorem type_codes_follow_declaration_order :
  map (fun t => (t, int_of_type t)) b2s_members = auto_values b2s_members 0
  /\ map (fun t => (t, int_of_s2b t)) s2b_members = auto_values s2b_members 0
  /\ (forall t, In t b2s_members)
  /\ (forall t, In t s2b_members)
  /\ (forall n t, type_of_int n = Some t <-> int_of_type t = n)
  /\ (forall t, Byte.to_N (byte_of_N (int_of_type t)) = int_of_type t)
  /\ (forall s, exists t, int_of_type t = int_of_s2b s)
  /\ (forall t, t <> ENABLE_ZSTD_CUSTOM ->
        exists s, int_of_s2b s = int_of_type t).
Proof.
  split; [reflexivity|]. split; [reflexivity|].
  split; [intros t; destruct t; cbn; auto 12|].
  split; [intros t; destruct t; cbn; auto 12|].
  split.
  { intros n t. split; [apply type_of_int_some|].
    intros <-. apply type_of_int_of_type. }
  split; [intros t; now destruct t|].
  split.
  - intros s.
    exists (nth (N.to_nat (int_of_s2b s) - 1) b2s_members CONFIRM_CONFIGURE).
    now destruct s.
  - intros t Ht.
    exists (nth (N.to_nat (int_of_type t) - 1) s2b_members CONFIGURE).
    destruct t; try reflexivity. now contradict Ht.
Qed.
